(** * tipsy: fault injection, action ledger and rollback engine

    A shallow embedding of the Go packages [internal/state],
    [internal/chaos] and [internal/rollback].  Go values are modelled by
    the closest Rocq data: [string] for Go strings (a string is its list
    of bytes), [Z] for [int], [option (gmap string string)] for a
    [map[string]string] that may be nil, lists for slices.  Effects (the Kubernetes API,
    the file system, the logger, the clock and the random generator) are
    threaded through an explicit [World] with a small state monad. *)

From Stdlib Require Import ZArith Lia List Ascii String Bool.
From stdpp Require Import base tactics option list gmap strings pretty sorting.

Set Warnings "-register-all".
Open Scope Z_scope.
Open Scope list_scope.

(** ** Strings *)

(** The double quote character, written by its code. *)
Definition dq : ascii := "034"%char.
Definition bslash : ascii := "092"%char.
Definition nl : ascii := "010"%char.
Definition cr : ascii := "013"%char.
Definition tab : ascii := "009"%char.

Definition str (c : ascii) : string := String c EmptyString.

(** [strings.HasPrefix] and [strings.Contains]. *)
Fixpoint HasPrefix (s p : string) {struct p} : bool :=
  match p, s with
  | EmptyString, _ => true
  | String _ _, EmptyString => false
  | String a p', String b s' => if Ascii.eqb a b then HasPrefix s' p' else false
  end.

Fixpoint Contains (s sub : string) : bool :=
  if HasPrefix s sub then true
  else match s with
       | EmptyString => false
       | String _ s' => Contains s' sub
       end.

(** [%d] of an integer. *)
Definition itoa (n : Z) : string := pretty n.

(** ** Errors

    A Go [error] is kept as a tree: a leaf made by [fmt.Errorf] without
    [%w], an error handed back by a collaborator (API server, operating
    system, JSON decoder), or a wrapper made by [fmt.Errorf("...: %w")]. *)
Inductive error : Type :=
| ErrNew (msg : string)
| ErrApi (msg : string)
| ErrOS (msg : string)
| ErrSyntax (msg : string)
| ErrType (msg : string)
| ErrWrap (msg : string) (cause : error).

(** [err.Error()]. *)
Fixpoint Error (e : error) : string :=
  match e with
  | ErrNew m | ErrApi m | ErrOS m | ErrSyntax m | ErrType m => m
  | ErrWrap m c => m +:+ ": " +:+ Error c
  end.

(** [errors.Unwrap], repeated to the root cause. *)
Fixpoint Cause (e : error) : error :=
  match e with
  | ErrWrap _ c => Cause c
  | _ => e
  end.

Inductive result (A : Type) : Type :=
| Ok (a : A)
| Err (e : error).
Arguments Ok {A} a.
Arguments Err {A} e.

Definition is_ok {A} (r : result A) : bool :=
  match r with Ok _ => true | Err _ => false end.

(** ** [state.ChaosAction]

    The metadata is a Go map: nil ([None]), or a map with finitely many
    entries, possibly none. *)
Record ChaosAction : Type := mkAction {
  Type_ : string;
  TargetPod : string;
  Namespace : string;
  Timestamp : string;
  Metadata : option (gmap string string)
}.

Global Instance ChaosAction_eq_dec : EqDecision ChaosAction.
Proof. solve_decision. Defined.

(** ** JSON documents ([encoding/json])

    A JSON text denotes a tree.  Numbers keep their literal text. *)
Inductive json : Type :=
| JNull
| JBool (b : bool)
| JNum (n : string)
| JStr (s : string)
| JArr (l : list json)
| JObj (l : list (string * json)).

(** ** Kubernetes objects ([k8s.io/api/core/v1])

    Only the fields the program reads or writes are kept.  [PodPhase],
    [PodConditionType], [ConditionStatus] and [Protocol] are string types
    in Go and stay strings here. *)
Definition PodRunning : string := "Running".
Definition PodPending : string := "Pending".
Definition PodReady : string := "Ready".
Definition ConditionTrue : string := "True".

Record SecurityContext : Type := {
  Privileged : bool;
  CapabilitiesAdd : list string
}.

Record ResourceRequirements : Type := {
  Requests : list (string * string);
  Limits : list (string * string)
}.

Record EphemeralContainer : Type := {
  ec_Name : string;
  ec_Image : string;
  ec_Command : list string;
  ec_SecurityContext : option SecurityContext;
  ec_Resources : ResourceRequirements
}.

Record PodCondition : Type := {
  cond_Type : string;
  cond_Status : string
}.

Record Pod : Type := {
  pod_Name : string;
  pod_Namespace : string;
  pod_UID : string;
  pod_Phase : string;
  pod_PodIP : string;
  pod_Conditions : list PodCondition;
  pod_EphemeralContainers : list EphemeralContainer
}.

Record ServicePort : Type := {
  sp_Name : string;
  sp_Port : Z;
  sp_Protocol : string
}.

Record Service : Type := {
  svc_Name : string;
  svc_Namespace : string;
  svc_Ports : list ServicePort
}.

Record ObjectReference : Type := {
  ref_Kind : string;
  ref_Namespace : string;
  ref_Name : string;
  ref_UID : string
}.

Record EndpointAddress : Type := {
  addr_IP : string;
  addr_TargetRef : option ObjectReference
}.

Record EndpointPort : Type := {
  port_Name : string;
  port_Port : Z;
  port_Protocol : string
}.

Record EndpointSubset : Type := {
  Addresses : list EndpointAddress;
  NotReadyAddresses : list EndpointAddress;
  Ports : list EndpointPort
}.

Record Endpoints : Type := {
  ep_Name : string;
  ep_Namespace : string;
  Subsets : list EndpointSubset
}.

(** ** The Kubernetes client ([kubernetes.Interface])

    The client is an interface in Go; here it is a class over the state
    [C] of whatever stands behind it (a cluster, a fake).  Every request
    may change that state and may fail. *)
Inductive ApiCall : Type :=
| CallPodsList (namespace selector : string)
| CallPodsGet (namespace name : string)
| CallPodsPatch (namespace name patchType : string) (data : json)
    (subresource : string)
| CallPodsDelete (namespace name : string)
| CallServicesGet (namespace name : string)
| CallEndpointsGet (namespace name : string)
| CallEndpointsUpdate (namespace : string) (endpoints : Endpoints).

Class Interface (C : Type) : Type := {
  PodsList : string → string → C → result (list Pod) * C;
  PodsGet : string → string → C → result Pod * C;
  PodsPatch : string → string → string → json → string → C → option error * C;
  PodsDelete : string → string → C → option error * C;
  ServicesGet : string → string → C → result Service * C;
  EndpointsGet : string → string → C → result Endpoints * C;
  EndpointsUpdate : string → Endpoints → C → option error * C
}.

Definition StrategicMergePatchType : string := "application/strategic-merge-patch+json".

(** A request that changes the cluster. *)
Definition mutating (c : ApiCall) : bool :=
  match c with
  | CallPodsPatch _ _ _ _ _ | CallPodsDelete _ _ | CallEndpointsUpdate _ _ => true
  | _ => false
  end.

(** ** The file system ([os])

    Files by path.  [home] is what [os.UserHomeDir] finds; on a
    [readonly] file system [os.MkdirAll], [os.WriteFile] and [os.Remove]
    fail.  A file that exists can be read. *)
Record FS : Type := mkFS {
  files : gmap string string;
  home : option string;
  readonly : bool
}.

(** ** The clock ([time])

    A [time.Time] in UTC as its calendar fields; [time_ok] keeps them in
    range (years 0 to 9999, the years [time.RFC3339] prints with four
    digits). *)
Definition daysIn (year month : Z) : Z :=
  if (month =? 2) then
    if ((year mod 4 =? 0) && negb (year mod 100 =? 0)) || (year mod 400 =? 0)
    then 29 else 28
  else if (month =? 4) || (month =? 6) || (month =? 9) || (month =? 11) then 30
  else 31.

Definition time_fields_ok (year month day hour minute second : Z) : bool :=
  (0 <=? year) && (year <=? 9999) && (1 <=? month) && (month <=? 12) &&
  (1 <=? day) && (day <=? daysIn year month) &&
  (0 <=? hour) && (hour <=? 23) && (0 <=? minute) && (minute <=? 59) &&
  (0 <=? second) && (second <=? 59).

Record Time : Type := mkTime {
  Year : Z; Month : Z; Day : Z; Hour : Z; Minute : Z; Second : Z;
  time_ok : time_fields_ok Year Month Day Hour Minute Second = true
}.

(** Days from 1970-01-01 to a civil date, and [t.Unix()]. *)
Definition days_from_civil (y m d : Z) : Z :=
  let y' := if m <=? 2 then y - 1 else y in
  let era := y' / 400 in
  let yoe := y' - era * 400 in
  let mp := if m <=? 2 then m + 9 else m - 3 in
  let doy := (153 * mp + 2) / 5 + d - 1 in
  let doe := yoe * 365 + yoe / 4 - yoe / 100 + doy in
  era * 146097 + doe - 719468.

Definition Unix (t : Time) : Z :=
  days_from_civil (Year t) (Month t) (Day t) * 86400
  + Hour t * 3600 + Minute t * 60 + Second t.

(** Decimal digits, zero padded to a width ([%02d], [%04d]). *)
Definition digit (n : Z) : ascii := ascii_of_nat (48 + Z.to_nat (n mod 10)).

Fixpoint pad (width : nat) (n : Z) (acc : string) : string :=
  match width with
  | O => acc
  | S w => pad w (n / 10) (String (digit n) acc)
  end.

(** [t.Format(time.RFC3339)] for a UTC time. *)
Definition FormatRFC3339 (t : Time) : string :=
  pad 4 (Year t) ("-" +:+ pad 2 (Month t) ("-" +:+ pad 2 (Day t) ("T" +:+
  pad 2 (Hour t) (":" +:+ pad 2 (Minute t) (":" +:+ pad 2 (Second t) "Z"))))).

(** [time.Parse(time.RFC3339, s)], for the UTC form that [FormatRFC3339]
    writes ([2006-01-02T15:04:05Z]): the calendar fields, when they are
    digits in range. *)
Definition digit_value (c : ascii) : option Z :=
  let n := Z.of_N (N_of_ascii c) in
  if (48 <=? n) && (n <=? 57) then Some (n - 48) else None.

Definition number2 (a b : ascii) : option Z :=
  match digit_value a, digit_value b with
  | Some x, Some y => Some (10 * x + y)
  | _, _ => None
  end.

Definition number4 (a b c d : ascii) : option Z :=
  match number2 a b, number2 c d with
  | Some x, Some y => Some (100 * x + y)
  | _, _ => None
  end.

Definition ParseRFC3339 (s : string) : option (Z * Z * Z * Z * Z * Z) :=
  match s with
  | String y1 (String y2 (String y3 (String y4 (String c1
    (String m1 (String m2 (String c2
    (String d1 (String d2 (String c3
    (String h1 (String h2 (String c4
    (String n1 (String n2 (String c5
    (String s1 (String s2 (String c6 EmptyString))))))))))))))))))) =>
      if Ascii.eqb c1 "-" && Ascii.eqb c2 "-" && Ascii.eqb c3 "T" &&
         Ascii.eqb c4 ":" && Ascii.eqb c5 ":" && Ascii.eqb c6 "Z" then
        match number4 y1 y2 y3 y4, number2 m1 m2, number2 d1 d2,
              number2 h1 h2, number2 n1 n2, number2 s1 s2 with
        | Some year, Some month, Some day, Some hour, Some minute, Some second =>
            if time_fields_ok year month day hour minute second
            then Some (year, month, day, hour, minute, second)
            else None
        | _, _, _, _, _, _ => None
        end
      else None
  | _ => None
  end.

(** A [time.Duration]: its nanoseconds and the text [%s] prints for it. *)
Record Duration : Type := {
  Nanoseconds : Z;
  DurationString : string
}.

(** [int(d.Seconds())]: whole seconds, truncated toward zero. *)
Definition Seconds (d : Duration) : Z := Z.quot (Nanoseconds d) 1000000000.

(** ** The logger ([utils]) *)
Inductive Level : Type := INFO | WARN | ERROR | DRYRUN.

Global Instance Level_eq_dec : EqDecision Level.
Proof. solve_decision. Defined.

(** ** The world a command runs in *)
Record World (C : Type) : Type := mkWorld {
  client : C;                     (* what the API client talks to *)
  calls : list ApiCall;           (* requests issued so far, oldest first *)
  fs : FS;
  stateFile : string;             (* package variable [state.stateFile] *)
  log : list (Level * string);    (* lines printed so far, oldest first *)
  clock : nat → Time;             (* the n-th reading of [time.Now] *)
  ticks : nat;
  random : nat → Z;               (* the n-th value drawn from [math/rand] *)
  draws : nat
}.
Arguments mkWorld {C}.
Arguments client {C}.
Arguments calls {C}.
Arguments fs {C}.
Arguments stateFile {C}.
Arguments log {C}.
Arguments clock {C}.
Arguments ticks {C}.
Arguments random {C}.
Arguments draws {C}.

(** ** The state monad over the world *)
Definition M (C A : Type) : Type := World C → A * World C.

Definition ret {C A} (a : A) : M C A := fun w => (a, w).

Definition bind {C A B} (m : M C A) (k : A → M C B) : M C B :=
  fun w => let (a, w') := m w in k a w'.

Notation "'let!' x ':=' m 'in' k" := (bind m (fun x => k))
  (at level 10, x name, m at level 99, k at level 200, only parsing).
Notation "'do!' m ';;' k" := (bind m (fun _ => k))
  (at level 10, m at level 99, k at level 200, only parsing).

(** ** Reading and writing JSON text ([encoding/json])

    The writer follows [json.Marshal] and [json.MarshalIndent(v, "", "  ")];
    the reader follows the syntax check and the scanner of
    [json.Unmarshal].  Strings are taken to hold well-formed UTF-8, whose
    bytes above 127 both directions copy unchanged. *)

Definition hexchar (n : N) : ascii :=
  ascii_of_N (if (n <? 10)%N then 48 + n else 87 + n).

Definition is_html (c : ascii) : bool :=
  Ascii.eqb c "<" || Ascii.eqb c ">" || Ascii.eqb c "&".

(** One byte of a string, as the writer prints it. *)
Definition escape_char (c : ascii) : string :=
  if Ascii.eqb c dq then String bslash (str dq)
  else if Ascii.eqb c bslash then String bslash (str bslash)
  else if Ascii.eqb c nl then String bslash "n"
  else if Ascii.eqb c cr then String bslash "r"
  else if Ascii.eqb c tab then String bslash "t"
  else if (N_of_ascii c <? 32)%N || is_html c then
    String bslash ("u00" +:+ String (hexchar (N_of_ascii c / 16))
                                (str (hexchar (N_of_ascii c mod 16))))
  else str c.

Fixpoint escape (s : string) : string :=
  match s with
  | EmptyString => EmptyString
  | String c s' => escape_char c +:+ escape s'
  end.

Definition quote (s : string) : string := String dq (escape s +:+ str dq).

Fixpoint spaces (depth : nat) : string :=
  match depth with
  | O => EmptyString
  | S d => "  " +:+ spaces d
  end.

Definition newline (depth : nat) : string := String nl (spaces depth).

(** [json.MarshalIndent(v, "", "  ")], from nesting depth [depth]. *)
Fixpoint render (depth : nat) (v : json) : string :=
  match v with
  | JNull => "null"
  | JBool true => "true"
  | JBool false => "false"
  | JNum n => n
  | JStr s => quote s
  | JArr [] => "[]"
  | JArr (x :: xs) =>
      "[" +:+ newline (S depth) +:+ render (S depth) x +:+
      (fix items (l : list json) : string :=
         match l with
         | [] => newline depth +:+ "]"
         | y :: ys => "," +:+ newline (S depth) +:+ render (S depth) y +:+ items ys
         end) xs
  | JObj [] => "{}"
  | JObj ((k, x) :: xs) =>
      "{" +:+ newline (S depth) +:+ quote k +:+ ": " +:+ render (S depth) x +:+
      (fix members (l : list (string * json)) : string :=
         match l with
         | [] => newline depth +:+ "}"
         | (k', y) :: ys =>
             "," +:+ newline (S depth) +:+ quote k' +:+ ": " +:+
             render (S depth) y +:+ members ys
         end) xs
  end.

Fixpoint render_items (depth : nat) (l : list json) : string :=
  match l with
  | [] => newline depth +:+ "]"
  | y :: ys => "," +:+ newline (S depth) +:+ render (S depth) y +:+ render_items depth ys
  end.

Fixpoint render_members (depth : nat) (l : list (string * json)) : string :=
  match l with
  | [] => newline depth +:+ "}"
  | (k, y) :: ys =>
      "," +:+ newline (S depth) +:+ quote k +:+ ": " +:+ render (S depth) y +:+
      render_members depth ys
  end.

Definition MarshalIndent (v : json) : string := render 0 v.

(** *** The reader *)
Definition is_ws (c : ascii) : bool :=
  Ascii.eqb c " " || Ascii.eqb c tab || Ascii.eqb c nl || Ascii.eqb c cr.

Fixpoint skip_ws (s : string) : string :=
  match s with
  | String c s' => if is_ws c then skip_ws s' else s
  | EmptyString => s
  end.

Definition hexval (c : ascii) : option N :=
  let n := N_of_ascii c in
  if (48 <=? n)%N && (n <=? 57)%N then Some (n - 48)%N
  else if (97 <=? n)%N && (n <=? 102)%N then Some (n - 87)%N
  else if (65 <=? n)%N && (n <=? 70)%N then Some (n - 55)%N
  else None.

Definition hex4 (a b c d : ascii) : option N :=
  match hexval a, hexval b, hexval c, hexval d with
  | Some x, Some y, Some z, Some t => Some (((x * 16 + y) * 16 + z) * 16 + t)%N
  | _, _, _, _ => None
  end.

(** What a string literal is made of: plain bytes and [\uXXXX] units. *)
Inductive unit16 : Type :=
| Raw (c : ascii)
| U16 (n : N).

(** The body of a string literal, after its opening quote, up to and
    including the closing quote. *)
Fixpoint scan_string (s : string) : option (list unit16 * string) :=
  match s with
  | EmptyString => None
  | String c s' =>
      if Ascii.eqb c dq then Some ([], s')
      else if Ascii.eqb c bslash then
        match s' with
        | String e s'' =>
            if Ascii.eqb e "u" then
              match s'' with
              | String h1 (String h2 (String h3 (String h4 r))) =>
                  match hex4 h1 h2 h3 h4, scan_string r with
                  | Some n, Some (us, rest) => Some (U16 n :: us, rest)
                  | _, _ => None
                  end
              | _ => None
              end
            else
              let plain (x : ascii) :=
                match scan_string s'' with
                | Some (us, rest) => Some (Raw x :: us, rest)
                | None => None
                end in
              if Ascii.eqb e dq then plain dq
              else if Ascii.eqb e bslash then plain bslash
              else if Ascii.eqb e "/" then plain "/"%char
              else if Ascii.eqb e "b" then plain "008"%char
              else if Ascii.eqb e "f" then plain "012"%char
              else if Ascii.eqb e "n" then plain nl
              else if Ascii.eqb e "r" then plain cr
              else if Ascii.eqb e "t" then plain tab
              else None
        | EmptyString => None
        end
      else if (N_of_ascii c <? 32)%N then None
      else match scan_string s' with
           | Some (us, rest) => Some (Raw c :: us, rest)
           | None => None
           end
  end.

(** UTF-8 for a code point. *)
Definition utf8 (n : N) : string :=
  if (n <? 128)%N then str (ascii_of_N n)
  else if (n <? 2048)%N then
    String (ascii_of_N (192 + n / 64)) (str (ascii_of_N (128 + n mod 64)))
  else if (n <? 65536)%N then
    String (ascii_of_N (224 + n / 4096))
      (String (ascii_of_N (128 + (n / 64) mod 64)) (str (ascii_of_N (128 + n mod 64))))
  else
    String (ascii_of_N (240 + n / 262144))
      (String (ascii_of_N (128 + (n / 4096) mod 64))
         (String (ascii_of_N (128 + (n / 64) mod 64)) (str (ascii_of_N (128 + n mod 64))))).

Definition is_high (n : N) : bool := (55296 <=? n)%N && (n <? 56320)%N.
Definition is_low (n : N) : bool := (56320 <=? n)%N && (n <? 57344)%N.

(** The bytes a literal stands for: a surrogate pair is one code point, a
    lone surrogate is U+FFFD. *)
Fixpoint unquote (us : list unit16) : string :=
  match us with
  | [] => EmptyString
  | Raw c :: rest => String c (unquote rest)
  | U16 n :: rest =>
      if is_high n then
        match rest with
        | U16 m :: rest' =>
            if is_low m
            then utf8 (65536 + (n - 55296) * 1024 + (m - 56320)) +:+ unquote rest'
            else utf8 65533 +:+ unquote rest
        | _ => utf8 65533 +:+ unquote rest
        end
      else if is_low n then utf8 65533 +:+ unquote rest
      else utf8 n +:+ unquote rest
  end.

Definition is_digit (c : ascii) : bool :=
  (48 <=? N_of_ascii c)%N && (N_of_ascii c <=? 57)%N.

Fixpoint scan_digits (s : string) : string * string :=
  match s with
  | String c s' =>
      if is_digit c then let (ds, rest) := scan_digits s' in (String c ds, rest)
      else (EmptyString, s)
  | EmptyString => (EmptyString, EmptyString)
  end.

(** A number literal: an optional minus, an integer part without a
    leading zero, an optional fraction and an optional exponent. *)
Definition scan_number (s : string) : option (string * string) :=
  let (sign, s1) := match s with
                    | String "-" r => ("-", r)
                    | _ => (EmptyString, s)
                    end in
  let (int, s2) := scan_digits s1 in
  match int with
  | EmptyString => None
  | String d ds =>
      if Ascii.eqb d "0" && negb (String.eqb ds EmptyString) then None else
      let frac :=
        match s2 with
        | String "." r =>
            let (fs, r') := scan_digits r in
            match fs with
            | EmptyString => None
            | _ => Some ("." +:+ fs, r')
            end
        | _ => Some (EmptyString, s2)
        end in
      match frac with
      | None => None
      | Some (f, s3) =>
          let exp :=
            match s3 with
            | String e r =>
                if Ascii.eqb e "e" || Ascii.eqb e "E" then
                  let (sg, r1) := match r with
                                  | String "+" r' => ("+", r')
                                  | String "-" r' => ("-", r')
                                  | _ => (EmptyString, r)
                                  end in
                  let (es, r2) := scan_digits r1 in
                  match es with
                  | EmptyString => None
                  | _ => Some (str e +:+ sg +:+ es, r2)
                  end
                else Some (EmptyString, s3)
            | EmptyString => Some (EmptyString, s3)
            end in
          match exp with
          | None => None
          | Some (x, s4) => Some (sign +:+ int +:+ f +:+ x, s4)
          end
      end
  end.

Fixpoint drop_bytes (n : nat) (s : string) : string :=
  match n, s with
  | S n', String _ s' => drop_bytes n' s'
  | _, _ => s
  end.

(** One value, then the rest of the text.  [fuel] bounds the nesting and
    the number of elements; [None] is a syntax error. *)
Fixpoint parse_value (fuel : nat) (s : string) : option (json * string) :=
  match fuel with
  | O => None
  | S fuel' =>
      match skip_ws s with
      | EmptyString => None
      | String c r =>
          if Ascii.eqb c dq then
            match scan_string r with
            | Some (us, rest) => Some (JStr (unquote us), rest)
            | None => None
            end
          else if Ascii.eqb c "[" then
            match skip_ws r with
            | EmptyString => None
            | String c' rest =>
                if Ascii.eqb c' "]" then Some (JArr [], rest)
                else match parse_elements fuel' r with
                     | Some (l, rest') => Some (JArr l, rest')
                     | None => None
                     end
            end
          else if Ascii.eqb c "{" then
            match skip_ws r with
            | EmptyString => None
            | String c' rest =>
                if Ascii.eqb c' "}" then Some (JObj [], rest)
                else match parse_members fuel' r with
                     | Some (l, rest') => Some (JObj l, rest')
                     | None => None
                     end
            end
          else if HasPrefix (String c r) "null" then Some (JNull, drop_bytes 4 (String c r))
          else if HasPrefix (String c r) "true" then Some (JBool true, drop_bytes 4 (String c r))
          else if HasPrefix (String c r) "false" then Some (JBool false, drop_bytes 5 (String c r))
          else
            match scan_number (String c r) with
            | Some (n, rest) => Some (JNum n, rest)
            | None => None
            end
      end
  end

with parse_elements (fuel : nat) (s : string) : option (list json * string) :=
  match fuel with
  | O => None
  | S fuel' =>
      match parse_value fuel' s with
      | None => None
      | Some (v, s1) =>
          match skip_ws s1 with
          | EmptyString => None
          | String c s2 =>
              if Ascii.eqb c "," then
                match parse_elements fuel' s2 with
                | Some (l, rest) => Some (v :: l, rest)
                | None => None
                end
              else if Ascii.eqb c "]" then Some ([v], s2)
              else None
          end
      end
  end

with parse_members (fuel : nat) (s : string) : option (list (string * json) * string) :=
  match fuel with
  | O => None
  | S fuel' =>
      match skip_ws s with
      | EmptyString => None
      | String c r =>
          if Ascii.eqb c dq then
            match scan_string r with
            | None => None
            | Some (us, s1) =>
                match skip_ws s1 with
                | EmptyString => None
                | String c1 s2 =>
                    if Ascii.eqb c1 ":" then
                      match parse_value fuel' s2 with
                      | None => None
                      | Some (v, s3) =>
                          match skip_ws s3 with
                          | EmptyString => None
                          | String c3 s4 =>
                              if Ascii.eqb c3 "," then
                                match parse_members fuel' s4 with
                                | Some (l, rest) => Some ((unquote us, v) :: l, rest)
                                | None => None
                                end
                              else if Ascii.eqb c3 "}" then Some ([(unquote us, v)], s4)
                              else None
                          end
                      end
                    else None
                end
            end
          else None
      end
  end.

(** A whole text: one value and nothing but white space after it. *)
Definition parse_json (s : string) : result json :=
  match parse_value (S (String.length s)) s with
  | Some (v, rest) =>
      match skip_ws rest with
      | EmptyString => Ok v
      | _ => Err (ErrSyntax "invalid character after top-level value")
      end
  | None => Err (ErrSyntax "invalid JSON text")
  end.

Section Primitives.
Context {C : Type} `{Interface C}.

Definition set_client (c : C) (w : World C) : World C :=
  mkWorld c (calls w) (fs w) (stateFile w) (log w) (clock w) (ticks w)
    (random w) (draws w).
Definition set_calls (cs : list ApiCall) (w : World C) : World C :=
  mkWorld (client w) cs (fs w) (stateFile w) (log w) (clock w) (ticks w)
    (random w) (draws w).
Definition set_fs (f : FS) (w : World C) : World C :=
  mkWorld (client w) (calls w) f (stateFile w) (log w) (clock w) (ticks w)
    (random w) (draws w).
Definition set_log (l : list (Level * string)) (w : World C) : World C :=
  mkWorld (client w) (calls w) (fs w) (stateFile w) l (clock w) (ticks w)
    (random w) (draws w).
Definition set_ticks (n : nat) (w : World C) : World C :=
  mkWorld (client w) (calls w) (fs w) (stateFile w) (log w) (clock w) n
    (random w) (draws w).
Definition set_draws (n : nat) (w : World C) : World C :=
  mkWorld (client w) (calls w) (fs w) (stateFile w) (log w) (clock w) (ticks w)
    (random w) n.

(** *** [utils.Info], [utils.Warn], [utils.Error], [utils.DryRun] *)
Definition logline (l : Level) (msg : string) : M C unit :=
  fun w => (tt, set_log (log w ++ [(l, msg)]) w).
Definition utils_Info : string → M C unit := logline INFO.
Definition utils_Warn : string → M C unit := logline WARN.
Definition utils_Error : string → M C unit := logline ERROR.
Definition utils_DryRun : string → M C unit := logline DRYRUN.

(** *** Requests to the API server: each is recorded, then answered by the
    client. *)
Definition request {A} (call : ApiCall) (f : C → A * C) : M C A :=
  fun w => let (a, c) := f (client w) in
           (a, set_client c (set_calls (calls w ++ [call]) w)).

Definition Pods_List (ns selector : string) : M C (result (list Pod)) :=
  request (CallPodsList ns selector) (PodsList ns selector).
Definition Pods_Get (ns name : string) : M C (result Pod) :=
  request (CallPodsGet ns name) (PodsGet ns name).
Definition Pods_Patch (ns name pt : string) (data : json) (sub : string)
    : M C (option error) :=
  request (CallPodsPatch ns name pt data sub) (PodsPatch ns name pt data sub).
Definition Pods_Delete (ns name : string) : M C (option error) :=
  request (CallPodsDelete ns name) (PodsDelete ns name).
Definition Services_Get (ns name : string) : M C (result Service) :=
  request (CallServicesGet ns name) (ServicesGet ns name).
Definition Endpoints_Get (ns name : string) : M C (result Endpoints) :=
  request (CallEndpointsGet ns name) (EndpointsGet ns name).
Definition Endpoints_Update (ns : string) (e : Endpoints) : M C (option error) :=
  request (CallEndpointsUpdate ns e) (EndpointsUpdate ns e).

(** *** [time.Now] and [math/rand] *)
Definition Now : M C Time :=
  fun w => (clock w (ticks w), set_ticks (S (ticks w)) w).

(** [rand.Seed(time.Now().UnixNano())]: the clock is read; which numbers
    follow is left to [random]. *)
Definition Seed : M C unit := let! _ := Now in ret tt.

(** [rand.Intn(n)] for [n > 0]. *)
Definition Intn (n : Z) : M C Z :=
  fun w => (random w (draws w) mod n, set_draws (S (draws w)) w).

(** *** [os] *)
Definition UserHomeDir : M C (result string) :=
  fun w => match home (fs w) with
           | Some h => (Ok h, w)
           | None => (Err (ErrOS "$HOME is not defined"), w)
           end.

Definition MkdirAll (path : string) : M C (option error) :=
  fun w => if readonly (fs w)
           then (Some (ErrOS ("mkdir " +:+ path +:+ ": read-only file system")), w)
           else (None, w).

Definition WriteFile (path data : string) : M C (option error) :=
  fun w => if readonly (fs w)
           then (Some (ErrOS ("open " +:+ path +:+ ": read-only file system")), w)
           else (None, set_fs (mkFS (<[path := data]> (files (fs w)))
                                    (home (fs w)) (readonly (fs w))) w).

Definition ReadFile (path : string) : M C (result string) :=
  fun w => match files (fs w) !! path with
           | Some data => (Ok data, w)
           | None => (Err (ErrOS ("open " +:+ path +:+ ": no such file or directory")), w)
           end.

(** [_, err := os.Stat(path); os.IsNotExist(err)] *)
Definition NotExist (path : string) : M C bool :=
  fun w => (bool_decide (files (fs w) !! path = None), w).

Definition Remove (path : string) : M C (option error) :=
  fun w => match files (fs w) !! path with
           | None => (Some (ErrOS ("remove " +:+ path +:+ ": no such file or directory")), w)
           | Some _ =>
               if readonly (fs w)
               then (Some (ErrOS ("remove " +:+ path +:+ ": read-only file system")), w)
               else (None, set_fs (mkFS (delete path (files (fs w)))
                                        (home (fs w)) (readonly (fs w))) w)
           end.

(** [filepath.Join] on clean path elements. *)
Definition Join (elems : list string) : string :=
  match elems with
  | [] => ""
  | e :: es => fold_left (fun acc x => acc +:+ "/" +:+ x) es e
  end.

(** [for _, x := range xs { body }] *)
Fixpoint for_each {A} (xs : list A) (body : A → M C unit) : M C unit :=
  match xs with
  | [] => ret tt
  | x :: rest => do! body x ;; for_each rest body
  end.

End Primitives.

(** ** The action ledger ([internal/state]) *)

(** *** The JSON form of [[]ChaosAction] *)

(** Map keys are written in byte order. *)
Definition key_le (p q : string * string) : Prop := String.leb p.1 q.1 = true.

Global Instance key_le_dec p q : Decision (key_le p q).
Proof. unfold key_le. apply _. Defined.

Definition sorted_entries (m : gmap string string) : list (string * string) :=
  merge_sort key_le (map_to_list m).

(** The nil map is written [null], any other as an object. *)
Definition metadata_json (m : option (gmap string string)) : json :=
  match m with
  | None => JNull
  | Some m => JObj (map (fun p : string * string => (p.1, JStr p.2)) (sorted_entries m))
  end.

Definition action_json (a : ChaosAction) : json :=
  JObj [("type", JStr (Type_ a));
        ("targetPod", JStr (TargetPod a));
        ("namespace", JStr (Namespace a));
        ("timestamp", JStr (Timestamp a));
        ("metadata", metadata_json (Metadata a))].

Definition actions_json (l : list ChaosAction) : json := JArr (map action_json l).

(** [json.MarshalIndent(actions, "", "  ")] *)
Definition MarshalActions (l : list ChaosAction) : string :=
  MarshalIndent (actions_json l).

(** Field names match without regard to letter case. *)
Definition lower (c : ascii) : ascii :=
  let n := N_of_ascii c in
  if (65 <=? n)%N && (n <=? 90)%N then ascii_of_N (n + 32) else c.

Fixpoint to_lower (s : string) : string :=
  match s with
  | EmptyString => EmptyString
  | String c s' => String (lower c) (to_lower s')
  end.

Definition EqualFold (a b : string) : bool := String.eqb (to_lower a) (to_lower b).

Definition zeroAction : ChaosAction := mkAction "" "" "" "" None.

(** A JSON value into a [string] field: [null] leaves the field alone. *)
Definition into_string (v : json) (old : string) : result string :=
  match v with
  | JStr s => Ok s
  | JNull => Ok old
  | _ => Err (ErrType "json: cannot unmarshal value into Go value of type string")
  end.

(** A JSON value into a [map[string]string] field: an object adds its
    members to the map, which is made first if it was nil; [null] sets
    the field to nil. *)
Fixpoint into_entries (l : list (string * json)) (m : gmap string string)
    : result (gmap string string) :=
  match l with
  | [] => Ok m
  | (k, v) :: rest =>
      match into_string v "" with
      | Ok s => into_entries rest (<[k := s]> m)
      | Err e => Err e
      end
  end.

Definition into_map (v : json) (old : option (gmap string string))
    : result (option (gmap string string)) :=
  match v with
  | JObj l =>
      match into_entries l (default ∅ old) with
      | Ok m => Ok (Some m)
      | Err e => Err e
      end
  | JNull => Ok None
  | _ => Err (ErrType "json: cannot unmarshal value into Go value of type map[string]string")
  end.

Definition set_field (k : string) (v : json) (a : ChaosAction) : result ChaosAction :=
  if EqualFold k "type" then
    match into_string v (Type_ a) with
    | Ok s => Ok (mkAction s (TargetPod a) (Namespace a) (Timestamp a) (Metadata a))
    | Err e => Err e
    end
  else if EqualFold k "targetPod" then
    match into_string v (TargetPod a) with
    | Ok s => Ok (mkAction (Type_ a) s (Namespace a) (Timestamp a) (Metadata a))
    | Err e => Err e
    end
  else if EqualFold k "namespace" then
    match into_string v (Namespace a) with
    | Ok s => Ok (mkAction (Type_ a) (TargetPod a) s (Timestamp a) (Metadata a))
    | Err e => Err e
    end
  else if EqualFold k "timestamp" then
    match into_string v (Timestamp a) with
    | Ok s => Ok (mkAction (Type_ a) (TargetPod a) (Namespace a) s (Metadata a))
    | Err e => Err e
    end
  else if EqualFold k "metadata" then
    match into_map v (Metadata a) with
    | Ok m => Ok (mkAction (Type_ a) (TargetPod a) (Namespace a) (Timestamp a) m)
    | Err e => Err e
    end
  else Ok a.

Fixpoint into_fields (l : list (string * json)) (a : ChaosAction) : result ChaosAction :=
  match l with
  | [] => Ok a
  | (k, v) :: rest =>
      match set_field k v a with
      | Ok a' => into_fields rest a'
      | Err e => Err e
      end
  end.

Definition into_action (v : json) : result ChaosAction :=
  match v with
  | JObj l => into_fields l zeroAction
  | JNull => Ok zeroAction
  | _ => Err (ErrType "json: cannot unmarshal value into Go value of type state.ChaosAction")
  end.

Fixpoint into_actions_list (l : list json) : result (list ChaosAction) :=
  match l with
  | [] => Ok []
  | v :: rest =>
      match into_action v, into_actions_list rest with
      | Ok a, Ok r => Ok (a :: r)
      | Err e, _ => Err e
      | _, Err e => Err e
      end
  end.

(** A JSON value into a [[]ChaosAction] variable: an array gives its
    elements, and [null] sets the slice to nil without any error. *)
Definition into_actions (v : json) : result (list ChaosAction) :=
  match v with
  | JArr l => into_actions_list l
  | JNull => Ok []
  | _ => Err (ErrType "json: cannot unmarshal value into Go value of type []state.ChaosAction")
  end.

(** [json.Unmarshal(data, &actions)] *)
Definition UnmarshalActions (data : string) : result (list ChaosAction) :=
  match parse_json data with
  | Ok v => into_actions v
  | Err e => Err e
  end.

(** [filepath.Dir]: the path up to its last separator. *)
Fixpoint Dir_from (s : string) : option string :=
  match s with
  | EmptyString => None
  | String c s' =>
      match Dir_from s' with
      | Some d => Some (String c d)
      | None => if Ascii.eqb c "/" then Some EmptyString else None
      end
  end.

Definition Dir (path : string) : string :=
  match Dir_from path with
  | Some EmptyString => "/"
  | Some d => d
  | None => "."
  end.

Section State.
Context {C : Type} `{Interface C}.

Definition getStateFile : M C string := fun w => (stateFile w, w).

(** [loadActions] (the mutex that [LoadActions] takes around it has no
    effect in a single thread). *)
Definition loadActions : M C (result (list ChaosAction)) :=
  let! path := getStateFile in
  let! missing := NotExist path in
  if missing then ret (Ok [])
  else
    let! data := ReadFile path in
    match data with
    | Err err => ret (Err (ErrWrap "failed to read state file" err))
    | Ok data =>
        if (String.length data =? 0)%nat then ret (Ok [])
        else match UnmarshalActions data with
             | Err err => ret (Err (ErrWrap "failed to unmarshal state file" err))
             | Ok actions => ret (Ok actions)
             end
    end.

Definition LoadActions : M C (result (list ChaosAction)) := loadActions.

(** The tail shared by the writers: create the directory, marshal,
    write. *)
Definition writeActions (actions : list ChaosAction) (what : string)
    : M C (option error) :=
  let! path := getStateFile in
  let! err := MkdirAll (Dir path) in
  match err with
  | Some e => ret (Some (ErrWrap "failed to create state directory" e))
  | None =>
      let! err := WriteFile path (MarshalActions actions) in
      match err with
      | Some e => ret (Some (ErrWrap what e))
      | None => ret None
      end
  end.

Definition SaveAction (action : ChaosAction) : M C (option error) :=
  let! action :=
    (if String.eqb (Timestamp action) "" then
       let! t := Now in
       ret (mkAction (Type_ action) (TargetPod action) (Namespace action)
              (FormatRFC3339 t) (Metadata action))
     else ret action) in
  let! actions := loadActions in
  match actions with
  | Err err => ret (Some (ErrWrap "failed to load existing actions" err))
  | Ok actions => writeActions (actions ++ [action]) "failed to write state file"
  end.

Definition ClearActions : M C (option error) :=
  writeActions [] "failed to write empty state file".

(** Modelled from the spec: [state.DeleteAction], which the rollback
    engine calls and the tests exercise, is missing from the sources.
    Following the spec, and the shape of [SaveAction] beside it, it loads
    the ledger, removes the first entry equal to [action] in every field
    (type, target pod, namespace, timestamp and the whole metadata map),
    and writes the ledger back; without such an entry it fails with a
    not-found error and writes nothing. *)
Fixpoint remove_first (action : ChaosAction) (actions : list ChaosAction)
    : option (list ChaosAction) :=
  match actions with
  | [] => None
  | a :: rest =>
      if decide (a = action) then Some rest
      else match remove_first action rest with
           | Some rest' => Some (a :: rest')
           | None => None
           end
  end.

Definition ErrNotFound : error := ErrNew "action not found in state".

Definition DeleteAction (action : ChaosAction) : M C (option error) :=
  let! actions := loadActions in
  match actions with
  | Err err => ret (Some (ErrWrap "failed to load existing actions" err))
  | Ok actions =>
      match remove_first action actions with
      | None => ret (Some ErrNotFound)
      | Some actions' => writeActions actions' "failed to write state file"
      end
  end.

End State.

Section Kill.
Context {C : Type} `{Interface C}.

(** ** [chaos.KillPods] (internal/chaos/kill.go) *)

(** [items[index].Name] *)
Definition zeroPod : Pod :=
  {| pod_Name := ""; pod_Namespace := ""; pod_UID := ""; pod_Phase := "";
     pod_PodIP := ""; pod_Conditions := []; pod_EphemeralContainers := [] |}.

Definition name_at (items : list Pod) (index : Z) : string :=
  pod_Name (nth (Z.to_nat index) items zeroPod).

(** The selection loop [for len(selectedPods) < podsToKill].  It runs
    until enough distinct indices were drawn; [fuel] bounds the number of
    times its condition is evaluated, and [None] means that it was still
    looping. *)
Fixpoint selectPods (fuel : nat) (items : list Pod) (podsToKill : Z)
    (selectedPods : list string) (usedIndices : gmap Z bool)
    : M C (option (list string)) :=
  match fuel with
  | O => ret None
  | S fuel' =>
      if Z.of_nat (length selectedPods) <? podsToKill then
        let! index := Intn (Z.of_nat (length items)) in
        if negb (default false (usedIndices !! index)) then
          selectPods fuel' items podsToKill
            (selectedPods ++ [name_at items index])
            (<[index := true]> usedIndices)
        else selectPods fuel' items podsToKill selectedPods usedIndices
      else ret (Some selectedPods)
  end.

(** The body of the deletion loop: one pod, failures logged and skipped. *)
Definition deletePod (namespace podName : string) : M C unit :=
  do! utils_Info ("  Deleting pod: " +:+ podName) ;;
  let! err := Pods_Delete namespace podName in
  match err with
  | Some e => utils_Error ("Failed to delete pod '" +:+ podName +:+
                           "': " +:+ Error e)
  | None => utils_Info ("  Successfully deleted pod: " +:+ podName)
  end.

Definition KillPods (fuel : nat) (namespace selector : string) (count : Z)
    (dryRun : bool) : M C (option (option error)) :=
  do! utils_Info ("Searching for pods with selector '" +:+ selector +:+
                  "' in namespace '" +:+ namespace +:+ "'") ;;
  let! pods := Pods_List namespace selector in
  match pods with
  | Err err => ret (Some (Some (ErrWrap "failed to list pods" err)))
  | Ok items =>
    let len := Z.of_nat (length items) in
    if len =? 0 then
      do! utils_Warn ("No pods found matching selector '" +:+ selector +:+
                      "' in namespace '" +:+ namespace +:+ "'") ;;
      ret (Some None)
    else
      do! utils_Info ("Found " +:+ itoa len +:+ " pod(s) matching selector") ;;
      let! podsToKill :=
        (if count <=? 0 then
           do! utils_Warn ("Invalid count " +:+ itoa count +:+
                           ", no pods will be deleted") ;;
           ret 0
         else if len <? count then
           do! utils_Warn ("Only " +:+ itoa len +:+
                           " pods available, limiting kill count to " +:+ itoa len) ;;
           ret len
         else ret count) in
      do! Seed ;;
      let! selected := selectPods fuel items podsToKill [] ∅ in
      match selected with
      | None => ret None
      | Some selectedPods =>
        let n := itoa (Z.of_nat (length selectedPods)) in
        if dryRun then
          do! utils_DryRun ("Would delete " +:+ n +:+ " pod(s):") ;;
          do! for_each selectedPods (fun podName =>
                utils_DryRun ("  - " +:+ podName)) ;;
          ret (Some None)
        else
          do! utils_Info ("Deleting " +:+ n +:+ " pod(s):") ;;
          do! for_each selectedPods (deletePod namespace) ;;
          ret (Some None)
      end
  end.

End Kill.

(** ** Fault injection ([internal/chaos]: latency, packet loss, CPU stress) *)

Fixpoint tabs (n : nat) : string :=
  match n with
  | O => EmptyString
  | S n' => String tab (tabs n')
  end.

Definition line (n : nat) (text : string) : string := tabs n +:+ text +:+ str nl.

Definition getMainProcessName : string := "nginx".

(** The shell script of the netem containers; [what] is [delay] or
    [loss], [value] what the caller asked for. *)
Definition netemScript (about what value : string) (seconds : Z) : string :=
  str nl +:+
  line 5 "# Find the main container's PID" +:+
  line 5 ("MAIN_PID=$(ps -o pid= -C " +:+ getMainProcessName +:+ " 2>/dev/null | head -1)") +:+
  line 5 ("if [ -z " +:+ str dq +:+ "$MAIN_PID" +:+ str dq +:+ " ]; then") +:+
  line 6 "# Fallback: find any process in the container" +:+
  line 6 "MAIN_PID=1" +:+
  line 5 "fi" +:+
  line 5 "" +:+
  line 5 ("# Apply network " +:+ about +:+ " using tc netem") +:+
  line 5 ("nsenter -t $MAIN_PID -n tc qdisc add dev eth0 root netem " +:+ what +:+ " " +:+ value) +:+
  line 5 "" +:+
  line 5 "# Wait for the specified duration" +:+
  line 5 ("sleep " +:+ itoa seconds) +:+
  line 5 "" +:+
  line 5 "# Clean up: remove the netem rule" +:+
  line 5 ("nsenter -t $MAIN_PID -n tc qdisc del dev eth0 root netem " +:+ what +:+ " " +:+ value +:+
          " 2>/dev/null || true") +:+
  tabs 4.

Definition noResources : ResourceRequirements := {| Requests := []; Limits := [] |}.

Definition netemContainer (name script : string) : EphemeralContainer :=
  {| ec_Name := name;
     ec_Image := "ghcr.io/chaos-tools/netem:latest";
     ec_Command := ["sh"; "-c"; script];
     ec_SecurityContext :=
       Some {| Privileged := true; CapabilitiesAdd := ["NET_ADMIN"; "SYS_PTRACE"] |};
     ec_Resources := noResources |}.

(** [marshalEphemeralContainer].  The source writes the JSON text by hand
    with [fmt.Sprintf]; what is kept here is the document that text
    denotes: the name, the image, the three-word command, and a fixed
    security context. *)
Definition marshalEphemeralContainer (container : EphemeralContainer) : json :=
  JObj [("name", JStr (ec_Name container));
        ("image", JStr (ec_Image container));
        ("command", JArr [JStr "sh"; JStr "-c"; JStr (nth 2 (ec_Command container) "")]);
        ("securityContext",
         JObj [("privileged", JBool true);
               ("capabilities",
                JObj [("add", JArr [JStr "NET_ADMIN"; JStr "SYS_PTRACE"])])])].

(** [marshalCPUStressEphemeralContainer]: as above, with the whole command
    and a fixed block of resource requests and limits. *)
Definition marshalCPUStressEphemeralContainer (container : EphemeralContainer) : json :=
  JObj [("name", JStr (ec_Name container));
        ("image", JStr (ec_Image container));
        ("command", JArr (map JStr (ec_Command container)));
        ("resources",
         JObj [("requests", JObj [("cpu", JStr "100m"); ("memory", JStr "64Mi")]);
               ("limits", JObj [("cpu", JStr "500m"); ("memory", JStr "128Mi")])])].

(** The patch body [{"spec":{"ephemeralContainers":[%s]}}]. *)
Definition ephemeralPatch (container : json) : json :=
  JObj [("spec", JObj [("ephemeralContainers", JArr [container])])].

Section Inject.
Context {C : Type} `{Interface C}.

(** The patch request shared by the three injectors, and what follows it.
    (The goroutine started after a successful patch only sleeps and then
    logs; it runs detached from the command and is left out.) *)
Definition patchEphemeral (namespace podName : string) (body : json)
    : M C (option error) :=
  let! err := Pods_Patch namespace podName StrategicMergePatchType body
                "ephemeralContainers" in
  match err with
  | Some e => ret (Some (ErrWrap "failed to add ephemeral container" e))
  | None =>
      do! utils_Info ("Successfully added ephemeral container to pod '" +:+
                      podName +:+ "'") ;;
      ret None
  end.

Definition injectLatencyToPod (namespace podName delay : string)
    (duration : Duration) (dryRun : bool) : M C (option error) :=
  do! utils_Info ("Injecting latency to pod '" +:+ podName +:+ "' with delay '" +:+
                  delay +:+ "' for duration '" +:+ DurationString duration +:+ "'") ;;
  if dryRun then
    do! utils_DryRun ("Would inject latency to pod '" +:+ podName +:+ "':") ;;
    do! utils_DryRun "  - Add ephemeral container with image: ghcr.io/chaos-tools/netem:latest" ;;
    do! utils_DryRun ("  - Command: nsenter -t <pid> -n tc qdisc add dev eth0 root netem delay "
                      +:+ delay) ;;
    do! utils_DryRun ("  - Duration: " +:+ DurationString duration) ;;
    ret None
  else
    let! now := Now in
    let ephemeralContainer :=
      netemContainer ("latency-injector-" +:+ itoa (Unix now))
        (netemScript "delay" "delay" delay (Seconds duration)) in
    patchEphemeral namespace podName
      (ephemeralPatch (marshalEphemeralContainer ephemeralContainer)).

Definition injectPacketLossToPod (namespace podName loss : string)
    (duration : Duration) (dryRun : bool) : M C (option error) :=
  do! utils_Info ("Injecting packet loss to pod '" +:+ podName +:+ "' with loss '" +:+
                  loss +:+ "' for duration '" +:+ DurationString duration +:+ "'") ;;
  if dryRun then
    do! utils_DryRun ("Would inject packet loss to pod '" +:+ podName +:+ "':") ;;
    do! utils_DryRun "  - Add ephemeral container with image: ghcr.io/chaos-tools/netem:latest" ;;
    do! utils_DryRun ("  - Command: nsenter -t <pid> -n tc qdisc add dev eth0 root netem loss "
                      +:+ loss) ;;
    do! utils_DryRun ("  - Duration: " +:+ DurationString duration) ;;
    ret None
  else
    let! now := Now in
    let ephemeralContainer :=
      netemContainer ("packetloss-injector-" +:+ itoa (Unix now))
        (netemScript "packet loss" "loss" loss (Seconds duration)) in
    patchEphemeral namespace podName
      (ephemeralPatch (marshalEphemeralContainer ephemeralContainer)).

(** [strings.Join(command, " ")] *)
Fixpoint JoinWords (l : list string) : string :=
  match l with
  | [] => EmptyString
  | [x] => x
  | x :: rest => x +:+ " " +:+ JoinWords rest
  end.

Definition cpuResources : ResourceRequirements :=
  {| Requests := [("cpu", "100m"); ("memory", "64Mi")];
     Limits := [("cpu", "500m"); ("memory", "128Mi")] |}.

(** Image and command by method; [roundedSeconds] is [%.0f] of the
    duration in seconds. *)
Definition cpuStressMethod (method : string) (duration : Duration)
    : option (string * list string) :=
  if String.eqb method "stress-ng" then
    Some ("ghcr.io/chaos-tools/stress-ng:latest",
          ["stress-ng"; "--cpu"; "1"; "--timeout";
           itoa ((Nanoseconds duration + 500000000) / 1000000000) +:+ "s"])
  else if String.eqb method "yes" then
    Some ("alpine",
          ["sh"; "-c"; "yes > /dev/null & sleep " +:+ itoa (Seconds duration)])
  else None.

Definition injectCPUStressToPod (namespace podName method : string)
    (duration : Duration) (dryRun : bool) : M C (option error) :=
  do! utils_Info ("Injecting CPU stress to pod '" +:+ podName +:+ "' using method '" +:+
                  method +:+ "' for duration '" +:+ DurationString duration +:+ "'") ;;
  match cpuStressMethod method duration with
  | None => ret (Some (ErrNew ("unsupported method: " +:+ method)))
  | Some (image, command) =>
      if dryRun then
        do! utils_DryRun ("Would inject CPU stress to pod '" +:+ podName +:+ "':") ;;
        do! utils_DryRun ("  - Add ephemeral container with image: " +:+ image) ;;
        do! utils_DryRun ("  - Command: " +:+ JoinWords command) ;;
        do! utils_DryRun ("  - Duration: " +:+ DurationString duration) ;;
        ret None
      else
        let! now := Now in
        let ephemeralContainer :=
          {| ec_Name := "tipsy-cpu-stress-" +:+ itoa (Unix now);
             ec_Image := image;
             ec_Command := command;
             ec_SecurityContext := None;
             ec_Resources := cpuResources |} in
        patchEphemeral namespace podName
          (ephemeralPatch (marshalCPUStressEphemeralContainer ephemeralContainer))
  end.

(** The loop shared by [InjectLatency], [InjectPacketLoss] and
    [InjectCPUStress]: list the pods, skip those that are not running,
    inject into the others, log a failure and go on. *)
Definition injectInto (what : string) (toPod : string → M C (option error))
    (pod : Pod) : M C unit :=
  if negb (String.eqb (pod_Phase pod) PodRunning) then
    utils_Warn ("Skipping pod '" +:+ pod_Name pod +:+
                "' - not in Running state (current: " +:+ pod_Phase pod +:+ ")")
  else
    let! err := toPod (pod_Name pod) in
    match err with
    | Some e => utils_Error ("Failed to inject " +:+ what +:+ " to pod '" +:+
                             pod_Name pod +:+ "': " +:+ Error e)
    | None => ret tt
    end.

Definition injectAll (what : string) (namespace selector : string)
    (toPod : string → M C (option error)) : M C (option error) :=
  do! utils_Info ("Searching for pods with selector '" +:+ selector +:+
                  "' in namespace '" +:+ namespace +:+ "'") ;;
  let! pods := Pods_List namespace selector in
  match pods with
  | Err err => ret (Some (ErrWrap "failed to list pods" err))
  | Ok items =>
      if (length items =? 0)%nat then
        do! utils_Warn ("No pods found matching selector '" +:+ selector +:+
                        "' in namespace '" +:+ namespace +:+ "'") ;;
        ret None
      else
        do! utils_Info ("Found " +:+ itoa (Z.of_nat (length items)) +:+
                        " pod(s) matching selector") ;;
        do! for_each items (injectInto what toPod) ;;
        ret None
  end.

Definition InjectLatency (namespace selector delay : string) (duration : Duration)
    (dryRun : bool) : M C (option error) :=
  injectAll "latency" namespace selector
    (fun podName => injectLatencyToPod namespace podName delay duration dryRun).

Definition InjectPacketLoss (namespace selector loss : string) (duration : Duration)
    (dryRun : bool) : M C (option error) :=
  injectAll "packet loss" namespace selector
    (fun podName => injectPacketLossToPod namespace podName loss duration dryRun).

Definition InjectCPUStress (namespace selector method : string) (duration : Duration)
    (dryRun : bool) : M C (option error) :=
  injectAll "CPU stress" namespace selector
    (fun podName => injectCPUStressToPod namespace podName method duration dryRun).

End Inject.

(** ** Endpoint misrouting ([internal/chaos/misroute.go]) *)

(** *** The JSON form of [corev1.Endpoints] (the fields kept here) *)
Definition field_unless_empty (k : string) (l : list json) : list (string * json) :=
  match l with
  | [] => []
  | _ => [(k, JArr l)]
  end.

Definition string_unless_empty (k s : string) : list (string * json) :=
  if String.eqb s "" then [] else [(k, JStr s)].

Definition reference_json (r : ObjectReference) : json :=
  JObj (string_unless_empty "kind" (ref_Kind r) ++
        string_unless_empty "namespace" (ref_Namespace r) ++
        string_unless_empty "name" (ref_Name r) ++
        string_unless_empty "uid" (ref_UID r)).

Definition address_json (a : EndpointAddress) : json :=
  JObj (("ip", JStr (addr_IP a)) ::
        match addr_TargetRef a with
        | Some r => [("targetRef", reference_json r)]
        | None => []
        end).

Definition port_json (p : EndpointPort) : json :=
  JObj (string_unless_empty "name" (port_Name p) ++
        [("port", JNum (itoa (port_Port p)))] ++
        string_unless_empty "protocol" (port_Protocol p)).

Definition subset_json (s : EndpointSubset) : json :=
  JObj (field_unless_empty "addresses" (map address_json (Addresses s)) ++
        field_unless_empty "notReadyAddresses" (map address_json (NotReadyAddresses s)) ++
        field_unless_empty "ports" (map port_json (Ports s))).

Definition endpoints_json (e : Endpoints) : json :=
  JObj (("metadata", JObj (string_unless_empty "name" (ep_Name e) ++
                           string_unless_empty "namespace" (ep_Namespace e))) ::
        field_unless_empty "subsets" (map subset_json (Subsets e))).

(** [json.MarshalIndent(endpoints, "", "  ")] *)
Definition MarshalEndpoints (e : Endpoints) : string := MarshalIndent (endpoints_json e).

(** Reading it back.  A member is looked up by name; a member that is
    absent or [null] leaves the zero value. *)
Fixpoint member (k : string) (l : list (string * json)) : json :=
  match l with
  | [] => JNull
  | (k', v) :: rest =>
      match member k rest with
      | JNull => if EqualFold k' k then v else JNull
      | later => later
      end
  end.

Definition as_string (v : json) : result string := into_string v "".

Fixpoint digits_value (s : string) (acc : Z) : option Z :=
  match s with
  | EmptyString => Some acc
  | String c s' =>
      if is_digit c then digits_value s' (acc * 10 + Z.of_N (N_of_ascii c) - 48)
      else None
  end.

Definition as_int (v : json) : result Z :=
  match v with
  | JNull => Ok 0
  | JNum (String "-" ds) =>
      match digits_value ds 0 with
      | Some n => Ok (- n)
      | None => Err (ErrType "json: cannot unmarshal number into Go value of type int32")
      end
  | JNum ds =>
      match digits_value ds 0 with
      | Some n => Ok n
      | None => Err (ErrType "json: cannot unmarshal number into Go value of type int32")
      end
  | _ => Err (ErrType "json: cannot unmarshal value into Go value of type int32")
  end.

Definition as_members (what : string) (v : json) : result (list (string * json)) :=
  match v with
  | JObj l => Ok l
  | JNull => Ok []
  | _ => Err (ErrType ("json: cannot unmarshal value into Go value of type " +:+ what))
  end.

Fixpoint as_list {A} (what : string) (f : json → result A) (l : list json)
    : result (list A) :=
  match l with
  | [] => Ok []
  | v :: rest =>
      match f v, as_list what f rest with
      | Ok a, Ok r => Ok (a :: r)
      | Err e, _ => Err e
      | _, Err e => Err e
      end
  end.

Definition as_array {A} (what : string) (f : json → result A) (v : json)
    : result (list A) :=
  match v with
  | JArr l => as_list what f l
  | JNull => Ok []
  | _ => Err (ErrType ("json: cannot unmarshal value into Go value of type " +:+ what))
  end.

Definition rbind {A B} (r : result A) (k : A → result B) : result B :=
  match r with
  | Ok a => k a
  | Err e => Err e
  end.

Definition into_reference (v : json) : result (option ObjectReference) :=
  match v with
  | JNull => Ok None
  | _ =>
      rbind (as_members "v1.ObjectReference" v) (fun l =>
      rbind (as_string (member "kind" l)) (fun kind =>
      rbind (as_string (member "namespace" l)) (fun ns =>
      rbind (as_string (member "name" l)) (fun name =>
      rbind (as_string (member "uid" l)) (fun uid =>
      Ok (Some {| ref_Kind := kind; ref_Namespace := ns;
                  ref_Name := name; ref_UID := uid |}))))))
  end.

Definition into_address (v : json) : result EndpointAddress :=
  rbind (as_members "v1.EndpointAddress" v) (fun l =>
  rbind (as_string (member "ip" l)) (fun ip =>
  rbind (into_reference (member "targetRef" l)) (fun r =>
  Ok {| addr_IP := ip; addr_TargetRef := r |}))).

Definition into_port (v : json) : result EndpointPort :=
  rbind (as_members "v1.EndpointPort" v) (fun l =>
  rbind (as_string (member "name" l)) (fun name =>
  rbind (as_int (member "port" l)) (fun port =>
  rbind (as_string (member "protocol" l)) (fun proto =>
  Ok {| port_Name := name; port_Port := port; port_Protocol := proto |})))).

Definition into_subset (v : json) : result EndpointSubset :=
  rbind (as_members "v1.EndpointSubset" v) (fun l =>
  rbind (as_array "[]v1.EndpointAddress" into_address (member "addresses" l)) (fun rs =>
  rbind (as_array "[]v1.EndpointAddress" into_address (member "notReadyAddresses" l)) (fun ns =>
  rbind (as_array "[]v1.EndpointPort" into_port (member "ports" l)) (fun ps =>
  Ok {| Addresses := rs; NotReadyAddresses := ns; Ports := ps |})))).

Definition into_endpoints (v : json) : result Endpoints :=
  rbind (as_members "v1.Endpoints" v) (fun l =>
  rbind (as_members "v1.ObjectMeta" (member "metadata" l)) (fun meta =>
  rbind (as_string (member "name" meta)) (fun name =>
  rbind (as_string (member "namespace" meta)) (fun ns =>
  rbind (as_array "[]v1.EndpointSubset" into_subset (member "subsets" l)) (fun ss =>
  Ok {| ep_Name := name; ep_Namespace := ns; Subsets := ss |}))))).

(** [json.Unmarshal(backupData, &backupEndpoints)] *)
Definition UnmarshalEndpoints (data : string) : result Endpoints :=
  rbind (parse_json data) into_endpoints.

(** *** [buildEndpointSubsetsFromPods] *)

(** The readiness scan: some condition is [Ready] with status [True]. *)
Fixpoint isReady (conditions : list PodCondition) : bool :=
  match conditions with
  | [] => false
  | condition :: rest =>
      if String.eqb (cond_Type condition) PodReady
         && String.eqb (cond_Status condition) ConditionTrue
      then true
      else isReady rest
  end.

Definition podAddress (pod : Pod) : EndpointAddress :=
  {| addr_IP := pod_PodIP pod;
     addr_TargetRef := Some {| ref_Kind := "Pod"; ref_Namespace := pod_Namespace pod;
                               ref_Name := pod_Name pod; ref_UID := pod_UID pod |} |}.

(** The grouping loop, with its two accumulators. *)
Fixpoint groupPods (pods : list Pod) (readyAddresses notReadyAddresses : list EndpointAddress)
    : list EndpointAddress * list EndpointAddress :=
  match pods with
  | [] => (readyAddresses, notReadyAddresses)
  | pod :: rest =>
      if negb (String.eqb (pod_Phase pod) PodRunning) || String.eqb (pod_PodIP pod) ""
      then groupPods rest readyAddresses notReadyAddresses
      else if isReady (pod_Conditions pod)
      then groupPods rest (readyAddresses ++ [podAddress pod]) notReadyAddresses
      else groupPods rest readyAddresses (notReadyAddresses ++ [podAddress pod])
  end.

Definition servicePort (sp : ServicePort) : EndpointPort :=
  {| port_Name := sp_Name sp; port_Port := sp_Port sp; port_Protocol := sp_Protocol sp |}.

Definition buildEndpointSubsetsFromPods (pods : list Pod) (servicePorts : list ServicePort)
    : result (list EndpointSubset) :=
  if (length servicePorts =? 0)%nat then Ok []
  else
    let (readyAddresses, notReadyAddresses) := groupPods pods [] [] in
    let ports := map servicePort servicePorts in
    let subsets := [] in
    let subsets :=
      if (0 <? length readyAddresses)%nat
      then subsets ++ [{| Addresses := readyAddresses; NotReadyAddresses := [];
                          Ports := ports |}]
      else subsets in
    let subsets :=
      if (0 <? length notReadyAddresses)%nat
      then subsets ++ [{| Addresses := []; NotReadyAddresses := notReadyAddresses;
                          Ports := ports |}]
      else subsets in
    Ok subsets.

(** [%d] of [len(l)]. *)
Definition len {A} (l : list A) : string := itoa (Z.of_nat (length l)).

Section Misroute.
Context {C : Type} `{Interface C}.

Definition backupPath (homeDir svcName namespace : string) : string :=
  Join [Join [homeDir; ".tipsy"; "rollback"]; svcName +:+ "_" +:+ namespace +:+ ".json"].

Definition saveOriginalEndpoints (endpoints : Endpoints) (svcName namespace : string)
    : M C (option error) :=
  let! homeDir := UserHomeDir in
  match homeDir with
  | Err err => ret (Some (ErrWrap "failed to get user home directory" err))
  | Ok homeDir =>
      let rollbackDir := Join [homeDir; ".tipsy"; "rollback"] in
      let! err := MkdirAll rollbackDir in
      match err with
      | Some e => ret (Some (ErrWrap "failed to create rollback directory" e))
      | None =>
          let filename := svcName +:+ "_" +:+ namespace +:+ ".json" in
          let filepath := Join [rollbackDir; filename] in
          let data := MarshalEndpoints endpoints in
          let! err := WriteFile filepath data in
          match err with
          | Some e => ret (Some (ErrWrap "failed to write endpoints to file" e))
          | None =>
              do! utils_Info ("Saved original endpoints to " +:+ filepath +:+
                              " for rollback") ;;
              ret None
          end
      end
  end.

Definition withSubsets (e : Endpoints) (subsets : list EndpointSubset) : Endpoints :=
  {| ep_Name := ep_Name e; ep_Namespace := ep_Namespace e; Subsets := subsets |}.

(** The dry-run report on the subsets that would be written. *)
Fixpoint reportSubsets (i : Z) (subsets : list EndpointSubset) : M C unit :=
  match subsets with
  | [] => ret tt
  | subset :: rest =>
      do! utils_DryRun ("    Subset " +:+ itoa (i + 1) +:+ ": " +:+ len (Addresses subset) +:+
                        " addresses, " +:+ len (Ports subset) +:+ " ports") ;;
      reportSubsets (i + 1) rest
  end.

Definition MisrouteService (svcName namespace replaceSelector : string)
    (removeAll dryRun : bool) : M C (option error) :=
  do! utils_Info ("Starting misroute operation for service '" +:+ svcName +:+
                  "' in namespace '" +:+ namespace +:+ "'") ;;
  let! service := Services_Get namespace svcName in
  match service with
  | Err err => ret (Some (ErrWrap ("failed to get service '" +:+ svcName +:+ "'") err))
  | Ok service =>
    do! utils_Info ("Found service '" +:+ svcName +:+ "' with " +:+
                    len (svc_Ports service) +:+ " ports") ;;
    let! endpoints := Endpoints_Get namespace svcName in
    match endpoints with
    | Err err =>
        ret (Some (ErrWrap ("failed to get endpoints for service '" +:+ svcName +:+ "'") err))
    | Ok endpoints =>
      do! (if negb dryRun then
             let! err := saveOriginalEndpoints endpoints svcName namespace in
             match err with
             | Some e => utils_Warn ("Failed to save original endpoints for rollback: " +:+
                                     Error e)
             | None => ret tt
             end
           else ret tt) ;;
      let! modified :=
        (if removeAll then
           do! utils_Info "Removing all endpoint subsets" ;;
           ret (Ok (withSubsets endpoints []))
         else if negb (String.eqb replaceSelector "") then
           do! utils_Info ("Replacing endpoints with pods matching selector '" +:+
                           replaceSelector +:+ "'") ;;
           let! pods := Pods_List namespace replaceSelector in
           match pods with
           | Err err =>
               ret (Err (ErrWrap ("failed to list pods with selector '" +:+
                                  replaceSelector +:+ "'") err))
           | Ok items =>
               if (length items =? 0)%nat then
                 do! utils_Warn ("No pods found matching selector '" +:+ replaceSelector +:+
                                 "' in namespace '" +:+ namespace +:+ "'") ;;
                 ret (Ok (withSubsets endpoints []))
               else
                 do! utils_Info ("Found " +:+ len items +:+ " pod(s) matching selector") ;;
                 match buildEndpointSubsetsFromPods items (svc_Ports service) with
                 | Err err =>
                     ret (Err (ErrWrap "failed to build endpoint subsets from pods" err))
                 | Ok newSubsets => ret (Ok (withSubsets endpoints newSubsets))
                 end
           end
         else ret (Ok endpoints)) in
      match modified with
      | Err err => ret (Some err)
      | Ok modifiedEndpoints =>
        if dryRun then
          do! utils_DryRun ("Would update endpoints for service '" +:+ svcName +:+ "':") ;;
          do! (if (length (Subsets modifiedEndpoints) =? 0)%nat then
                 utils_DryRun "  - Remove all endpoint subsets (no traffic routing)"
               else
                 do! utils_DryRun ("  - Replace with " +:+ len (Subsets modifiedEndpoints) +:+
                                   " endpoint subset(s)") ;;
                 reportSubsets 0 (Subsets modifiedEndpoints)) ;;
          ret None
        else
          let! err := Endpoints_Update namespace modifiedEndpoints in
          match err with
          | Some e => ret (Some (ErrWrap "failed to update endpoints" e))
          | None =>
              do! utils_Info "Successfully updated service endpoints" ;;
              ret None
          end
      end
    end
  end.

End Misroute.

(** ** [rollback.filterActions] *)
Fixpoint filterActions_from (filtered actions : list ChaosAction)
    (filterType filterPod : string) : list ChaosAction :=
  match actions with
  | [] => filtered
  | action :: rest =>
      if negb (String.eqb filterType "") && negb (String.eqb (Type_ action) filterType)
      then filterActions_from filtered rest filterType filterPod
      else if negb (String.eqb filterPod "") && negb (String.eqb (TargetPod action) filterPod)
      then filterActions_from filtered rest filterType filterPod
      else filterActions_from (filtered ++ [action]) rest filterType filterPod
  end.

Definition filterActions (actions : list ChaosAction)
    (filterType filterPod : string) : list ChaosAction :=
  filterActions_from [] actions filterType filterPod.


(** ** The rollback engine ([internal/rollback/rollback.go]) *)

(** [json.Marshal] of ephemeral containers, for the fields kept here; a
    nil slice is written [null]. *)
Definition resources_json (r : ResourceRequirements) : json :=
  let entries (l : list (string * string)) :=
    map (fun p : string * string => (p.1, JStr p.2)) l in
  JObj (match Limits r with [] => [] | l => [("limits", JObj (entries l))] end ++
        match Requests r with [] => [] | l => [("requests", JObj (entries l))] end).

Definition container_json (c : EphemeralContainer) : json :=
  JObj ([("name", JStr (ec_Name c))] ++
        string_unless_empty "image" (ec_Image c) ++
        field_unless_empty "command" (map JStr (ec_Command c)) ++
        [("resources", resources_json (ec_Resources c))] ++
        match ec_SecurityContext c with
        | Some sc =>
            [("securityContext",
              JObj (match CapabilitiesAdd sc with
                    | [] => []
                    | caps => [("capabilities", JObj [("add", JArr (map JStr caps))])]
                    end ++ [("privileged", JBool (Privileged sc))]))]
        | None => []
        end).

Definition containers_json (l : list EphemeralContainer) : json :=
  match l with
  | [] => JNull
  | _ => JArr (map container_json l)
  end.

Definition removalPatch (l : list EphemeralContainer) : json :=
  JObj [("spec", JObj [("ephemeralContainers", containers_json l)])].

(** The names [RevertTC] looks for, and those [RemoveEphemeral] looks for. *)
Definition isNetemContainer (name : string) : bool :=
  Contains name "latency-injector" || Contains name "packetloss-injector"
  || Contains name "tipsy-".

Definition isStressContainer (name : string) : bool :=
  Contains name "tipsy-cpu-stress" || Contains name "tipsy-".

Section Rollback.
Context {C : Type} `{Interface C}.

Definition removeEphemeralContainer (namespace podName containerName : string)
    : M C (option error) :=
  let! pod := Pods_Get namespace podName in
  match pod with
  | Err err => ret (Some (ErrWrap "failed to get pod" err))
  | Ok pod =>
      let newEphemeralContainers :=
        List.filter (fun c => negb (String.eqb (ec_Name c) containerName))
          (pod_EphemeralContainers pod) in
      let! err := Pods_Patch namespace podName StrategicMergePatchType
                    (removalPatch newEphemeralContainers) "ephemeralContainers" in
      match err with
      | Some e => ret (Some (ErrWrap "failed to remove ephemeral container" e))
      | None =>
          do! utils_Info ("Successfully removed ephemeral container '" +:+ containerName +:+
                          "' from pod '" +:+ podName +:+ "'") ;;
          ret None
      end
  end.

(** The body of the removal loops: a failure is a warning, nothing more. *)
Definition removeOrWarn (namespace podName containerName : string) : M C unit :=
  let! err := removeEphemeralContainer namespace podName containerName in
  match err with
  | Some e => utils_Warn ("Failed to remove ephemeral container '" +:+ containerName +:+
                          "': " +:+ Error e)
  | None => ret tt
  end.

(** What [RevertTC] and [RemoveEphemeral] do once past the dry-run test:
    fetch the pod, collect the matching container names, remove each. *)
Definition removeMatching (isOurs : string → bool) (action : ChaosAction) (done_ : string)
    : M C (option error) :=
  let! pod := Pods_Get (Namespace action) (TargetPod action) in
  match pod with
  | Err err => ret (Some (ErrWrap "failed to get pod" err))
  | Ok pod =>
      let containersToRemove :=
        List.filter isOurs (map ec_Name (pod_EphemeralContainers pod)) in
      if (length containersToRemove =? 0)%nat then
        do! utils_Info "No ephemeral containers found to remove" ;;
        ret None
      else
        do! for_each containersToRemove
              (removeOrWarn (Namespace action) (TargetPod action)) ;;
        do! utils_Info done_ ;;
        ret None
  end.

Definition RevertTC (action : ChaosAction) (dryRun : bool) : M C (option error) :=
  do! utils_Info ("Reverting tc netem for pod '" +:+ TargetPod action +:+
                  "' in namespace '" +:+ Namespace action +:+ "'") ;;
  if dryRun then
    do! utils_DryRun ("Would remove ephemeral containers from pod '" +:+ TargetPod action +:+
                      "' to revert tc netem") ;;
    ret None
  else
    removeMatching isNetemContainer action
      ("Successfully reverted tc netem for pod '" +:+ TargetPod action +:+ "'").

Definition RemoveEphemeral (action : ChaosAction) (dryRun : bool) : M C (option error) :=
  do! utils_Info ("Removing ephemeral containers from pod '" +:+ TargetPod action +:+
                  "' in namespace '" +:+ Namespace action +:+ "'") ;;
  if dryRun then
    do! utils_DryRun ("Would remove ephemeral containers from pod '" +:+ TargetPod action +:+
                      "'") ;;
    ret None
  else
    removeMatching isStressContainer action
      ("Successfully removed ephemeral containers from pod '" +:+ TargetPod action +:+ "'").

Definition RestoreEndpoints (action : ChaosAction) (dryRun : bool) : M C (option error) :=
  do! utils_Info ("Restoring endpoints for service '" +:+ TargetPod action +:+
                  "' in namespace '" +:+ Namespace action +:+ "'") ;;
  let! path :=
    (match default ∅ (Metadata action) !! "backupPath" with
     | Some p => ret (Ok p)
     | None =>
         let! homeDir := UserHomeDir in
         match homeDir with
         | Err err => ret (Err (ErrWrap "failed to get user home directory" err))
         | Ok homeDir => ret (Ok (backupPath homeDir (TargetPod action) (Namespace action)))
         end
     end) in
  match path with
  | Err err => ret (Some err)
  | Ok backupPath =>
    if dryRun then
      do! utils_DryRun ("Would restore endpoints for service '" +:+ TargetPod action +:+
                        "' from backup: " +:+ backupPath) ;;
      ret None
    else
      let! backupData := ReadFile backupPath in
      match backupData with
      | Err err => ret (Some (ErrWrap ("failed to read backup file " +:+ backupPath) err))
      | Ok backupData =>
        match UnmarshalEndpoints backupData with
        | Err err => ret (Some (ErrWrap "failed to unmarshal backup endpoints" err))
        | Ok backupEndpoints =>
          let! err := Endpoints_Update (Namespace action) backupEndpoints in
          match err with
          | Some e => ret (Some (ErrWrap "failed to restore endpoints" e))
          | None =>
              let! err := Remove backupPath in
              do! (match err with
                   | Some e => utils_Warn ("Failed to remove backup file " +:+ backupPath +:+
                                           ": " +:+ Error e)
                   | None => ret tt
                   end) ;;
              do! utils_Info ("Successfully restored endpoints for service '" +:+
                              TargetPod action +:+ "'") ;;
              ret None
          end
        end
      end
  end.

Definition handleKillAction (action : ChaosAction) (dryRun : bool) : M C (option error) :=
  do! utils_Warn ("Cannot rollback kill action for pod '" +:+ TargetPod action +:+
                  "' in namespace '" +:+ Namespace action +:+
                  "' - pod was permanently deleted") ;;
  do! (if dryRun then
         utils_DryRun ("Would skip kill action for pod '" +:+ TargetPod action +:+
                       "' (cannot be rolled back)")
       else ret tt) ;;
  ret None.

Definition rollbackAction (action : ChaosAction) (dryRun : bool) : M C (option error) :=
  if String.eqb (Type_ action) "latency" || String.eqb (Type_ action) "packetloss"
  then RevertTC action dryRun
  else if String.eqb (Type_ action) "cpustress" then RemoveEphemeral action dryRun
  else if String.eqb (Type_ action) "misroute" then RestoreEndpoints action dryRun
  else if String.eqb (Type_ action) "kill" then handleKillAction action dryRun
  else ret (Some (ErrNew ("unknown action type: " +:+ Type_ action))).

(** The counters of the loop in [RollbackAll]. *)
Record Tally : Type := mkTally {
  successCount : Z;
  failureCount : Z;
  failedActions : list ChaosAction
}.

(** One turn of the loop. *)
Definition rollbackOne (dryRun : bool) (action : ChaosAction) (t : Tally) : M C Tally :=
  do! utils_Info ("Rolling back " +:+ Type_ action +:+ " action for pod '" +:+
                  TargetPod action +:+ "' in namespace '" +:+ Namespace action +:+ "'") ;;
  let! err := rollbackAction action dryRun in
  match err with
  | Some e =>
      do! utils_Error ("Failed to rollback action: " +:+ Error e) ;;
      ret (mkTally (successCount t) (failureCount t + 1) (failedActions t ++ [action]))
  | None =>
      do! (if negb dryRun then
             let! err := DeleteAction action in
             match err with
             | Some e => utils_Warn ("Failed to remove action from state: " +:+ Error e)
             | None => ret tt
             end
           else ret tt) ;;
      ret (mkTally (successCount t + 1) (failureCount t) (failedActions t))
  end.

Fixpoint rollbackEach (dryRun : bool) (actions : list ChaosAction) (t : Tally)
    : M C Tally :=
  match actions with
  | [] => ret t
  | action :: rest =>
      let! t' := rollbackOne dryRun action t in
      rollbackEach dryRun rest t'
  end.

Definition RollbackAll (dryRun : bool) (filterType filterPod : string)
    : M C (option error) :=
  do! utils_Info "Starting rollback operation" ;;
  let! actions := LoadActions in
  match actions with
  | Err err => ret (Some (ErrWrap "failed to load actions from state" err))
  | Ok actions =>
    if (length actions =? 0)%nat then
      do! utils_Info "No actions found to rollback" ;;
      ret None
    else
      let filteredActions := filterActions actions filterType filterPod in
      if (length filteredActions =? 0)%nat then
        do! utils_Info "No actions match the specified filters" ;;
        ret None
      else
        do! utils_Info ("Found " +:+ len filteredActions +:+ " action(s) to rollback") ;;
        let! t := rollbackEach dryRun filteredActions (mkTally 0 0 []) in
        do! (if dryRun then
               utils_Info ("Dry run completed: " +:+ len filteredActions +:+
                           " action(s) would be rolled back")
             else
               do! utils_Info ("Rollback completed: " +:+ itoa (successCount t) +:+
                               " successful, " +:+ itoa (failureCount t) +:+ " failed") ;;
               if (0 <? length (failedActions t))%nat then
                 utils_Warn ("Failed to rollback " +:+ len (failedActions t) +:+ " action(s)")
               else ret tt) ;;
        ret None
  end.

End Rollback.

(** ** A fake cluster

    A small in-memory stand-in for the API server, in the manner of
    client-go's fake clientset: it holds pods, services and endpoints,
    and can be told to refuse patches, deletions or updates.  Every pod of
    a namespace matches every selector. *)
Record Fake : Type := mkFake {
  fake_pods : list Pod;
  fake_services : list Service;
  fake_endpoints : list Endpoints;
  refuse_patch : bool;
  refuse_delete : bool;
  refuse_update : bool
}.

Definition same_pod (ns name : string) (p : Pod) : bool :=
  String.eqb (pod_Namespace p) ns && String.eqb (pod_Name p) name.

Definition fake_find {A} (f : A → bool) (l : list A) (what : string) : result A :=
  match List.find f l with
  | Some x => Ok x
  | None => Err (ErrApi (what +:+ " not found"))
  end.

Global Instance Fake_Interface : Interface Fake := {
  PodsList ns _ c :=
    (Ok (List.filter (fun p => String.eqb (pod_Namespace p) ns) (fake_pods c)), c);
  PodsGet ns name c := (fake_find (same_pod ns name) (fake_pods c) "pod", c);
  PodsPatch ns name _ _ _ c :=
    if refuse_patch c then (Some (ErrApi "patch refused"), c)
    else match List.find (same_pod ns name) (fake_pods c) with
         | Some _ => (None, c)
         | None => (Some (ErrApi "pod not found"), c)
         end;
  PodsDelete ns name c :=
    if refuse_delete c then (Some (ErrApi "delete refused"), c)
    else match List.find (same_pod ns name) (fake_pods c) with
         | Some _ =>
             (None, mkFake (List.filter (fun p => negb (same_pod ns name p)) (fake_pods c))
                      (fake_services c) (fake_endpoints c)
                      (refuse_patch c) (refuse_delete c) (refuse_update c))
         | None => (Some (ErrApi "pod not found"), c)
         end;
  ServicesGet ns name c :=
    (fake_find (fun s => String.eqb (svc_Namespace s) ns && String.eqb (svc_Name s) name)
       (fake_services c) "service", c);
  EndpointsGet ns name c :=
    (fake_find (fun e => String.eqb (ep_Namespace e) ns && String.eqb (ep_Name e) name)
       (fake_endpoints c) "endpoints", c);
  EndpointsUpdate ns e c :=
    if refuse_update c then (Some (ErrApi "update refused"), c)
    else (None, mkFake (fake_pods c) (fake_services c)
                  (e :: List.filter (fun e' => negb (String.eqb (ep_Namespace e') ns
                                                    && String.eqb (ep_Name e') (ep_Name e)))
                          (fake_endpoints c))
                  (refuse_patch c) (refuse_delete c) (refuse_update c))
}.

Definition simplePod (ns name phase ip : string) : Pod :=
  {| pod_Name := name; pod_Namespace := ns; pod_UID := name +:+ "-uid";
     pod_Phase := phase; pod_PodIP := ip; pod_Conditions := [];
     pod_EphemeralContainers := [] |}.

Definition midnight : Time := mkTime 2023 1 1 0 0 0 eq_refl.

(** A world for examples: the given cluster and files, a clock stuck at
    2023-01-01T00:00:00Z, and a generator that counts 0, 1, 2, ... *)
Definition exampleWorld (c : Fake) (f : FS) : World Fake :=
  mkWorld c [] f "/home/u/.tipsy/state.json" [] (fun _ => midnight) O
    (fun n => Z.of_nat n) O.

Definition emptyFS : FS := mkFS ∅ (Some "/home/u") false.


(** A cluster that cannot be reached: every request fails. *)
Inductive Unreachable : Type := unreachable.

Definition refused : error := ErrApi "connection refused".

Global Instance Unreachable_Interface : Interface Unreachable := {
  PodsList _ _ c := (Err refused, c);
  PodsGet _ _ c := (Err refused, c);
  PodsPatch _ _ _ _ _ c := (Some refused, c);
  PodsDelete _ _ c := (Some refused, c);
  ServicesGet _ _ c := (Err refused, c);
  EndpointsGet _ _ c := (Err refused, c);
  EndpointsUpdate _ _ c := (Some refused, c)
}.

(** * Notions used in the statements *)

(** The predicate the two filters stand for: an empty filter accepts
    everything on its axis. *)
Definition matches (filterType filterPod : string) (a : ChaosAction) : Prop :=
  (filterType = "" ∨ Type_ a = filterType) ∧
  (filterPod = "" ∨ TargetPod a = filterPod).

Global Instance matches_dec ft fp a : Decision (matches ft fp a).
Proof. unfold matches. apply _. Defined.

(** The draws that follow position [d] hit every index below [n] within
    the first [fuel - 1] of them. *)
Definition covers (rnd : nat → Z) (d : nat) (n : Z) (fuel : nat) : Prop :=
  ∀ i, 0 ≤ i < n → ∃ j : nat, (S j < fuel)%nat ∧ rnd (d + j)%nat mod n = i.

(** What the selection loop keeps true: the names picked so far are those
    at the distinct, in-range indices [idxs], which are exactly the keys
    of [usedIndices]. *)
Definition selecting (items : list Pod) (idxs : list Z)
    (selectedPods : list string) (usedIndices : gmap Z bool) : Prop :=
  selectedPods = map (name_at items) idxs ∧
  NoDup idxs ∧
  Forall (λ i, 0 ≤ i < Z.of_nat (length items)) idxs ∧
  (∀ i, default false (usedIndices !! i) = true ↔ i ∈ idxs).

(** Reading a patch body: the list under [spec.ephemeralContainers], and
    whether an object has a member. *)
Definition patchedContainers (body : json) : option (list json) :=
  match body with
  | JObj l =>
      match member "spec" l with
      | JObj l' =>
          match member "ephemeralContainers" l' with
          | JArr cs => Some cs
          | _ => None
          end
      | _ => None
      end
  | _ => None
  end.

Definition hasMember (k : string) (v : json) : bool :=
  match v with
  | JObj l => existsb (fun p : string * json => String.eqb p.1 k) l
  | _ => false
  end.

(** The one request of an injector. *)
Definition injection (ns podName : string) (container : json) : ApiCall :=
  CallPodsPatch ns podName StrategicMergePatchType (ephemeralPatch container)
    "ephemeralContainers".

(** The container each injector builds, from the reading of the clock. *)
Definition latencyContainer (delay : string) (duration : Duration) (now : Time) : json :=
  marshalEphemeralContainer
    (netemContainer ("latency-injector-" +:+ itoa (Unix now))
       (netemScript "delay" "delay" delay (Seconds duration))).

Definition packetLossContainer (loss : string) (duration : Duration) (now : Time) : json :=
  marshalEphemeralContainer
    (netemContainer ("packetloss-injector-" +:+ itoa (Unix now))
       (netemScript "packet loss" "loss" loss (Seconds duration))).

Definition cpuStressContainer (image : string) (command : list string) (now : Time) : json :=
  marshalCPUStressEphemeralContainer
    {| ec_Name := "tipsy-cpu-stress-" +:+ itoa (Unix now);
       ec_Image := image; ec_Command := command;
       ec_SecurityContext := None; ec_Resources := cpuResources |}.

Definition skipLine (pod : Pod) : Level * string :=
  (WARN, "Skipping pod '" +:+ pod_Name pod +:+
         "' - not in Running state (current: " +:+ pod_Phase pod +:+ ")").

(** A request that patches the pod [name] of namespace [ns]. *)
Definition patches (ns name : string) (c : ApiCall) : Prop :=
  ∃ pt data sub, c = CallPodsPatch ns name pt data sub.

(** The two address lists of [buildEndpointSubsetsFromPods]: pods that are
    running and have an IP, split by readiness. *)
Definition routable (pod : Pod) : Prop :=
  pod_Phase pod = PodRunning ∧ pod_PodIP pod ≠ "".

Global Instance routable_dec pod : Decision (routable pod).
Proof. unfold routable. apply _. Defined.

(** What the reader sees of one written byte. *)
Definition unit_of (c : ascii) : unit16 :=
  if Ascii.eqb c dq || Ascii.eqb c bslash || Ascii.eqb c nl || Ascii.eqb c cr
     || Ascii.eqb c tab then Raw c
  else if (N_of_ascii c <? 32)%N || is_html c then U16 (N_of_ascii c)
  else Raw c.

Fixpoint units (s : string) : list unit16 :=
  match s with
  | EmptyString => []
  | String c s' => unit_of c :: units s'
  end.

(** Documents without numbers: nulls, booleans, strings, and arrays and
    objects of such. *)
Fixpoint textual (v : json) : bool :=
  match v with
  | JNull | JBool _ | JStr _ => true
  | JNum _ => false
  | JArr l => forallb textual l
  | JObj l => forallb (fun p : string * json => textual p.2) l
  end.

(** Fuel that is enough to read a document back. *)
Fixpoint weight (v : json) : nat :=
  match v with
  | JArr l => S (list_sum (map (fun x => S (weight x)) l))
  | JObj l => S (list_sum (map (fun p : string * json => S (weight p.2)) l))
  | _ => 1
  end.

(** Decimal integers as [%d] and [json.Marshal] write them: an optional
    minus, then digits without a leading zero. *)
Fixpoint all_digits (s : string) : bool :=
  match s with
  | EmptyString => true
  | String c s' => is_digit c && all_digits s'
  end.

Definition canonical (ds : string) : bool :=
  match ds with
  | EmptyString => false
  | String d r => all_digits ds && negb (Ascii.eqb d "0" && negb (String.eqb r ""))
  end.

Definition integer_text (n : string) : bool :=
  match n with
  | EmptyString => false
  | String c r => if Ascii.eqb c "-" then canonical r else canonical n
  end.

(** A text before which a number literal ends. *)
Definition stops (rest : string) : bool :=
  match rest with
  | EmptyString => true
  | String c _ =>
      negb (is_digit c || Ascii.eqb c "." || Ascii.eqb c "e" || Ascii.eqb c "E")
  end.

(** Documents whose numbers are integers. *)
Fixpoint integral (v : json) : bool :=
  match v with
  | JNull | JBool _ | JStr _ => true
  | JNum n => integer_text n
  | JArr l => forallb integral l
  | JObj l => forallb (fun p : string * json => integral p.2) l
  end.

Definition put (m : gmap string string) (p : string * string) : gmap string string :=
  <[p.1 := p.2]> m.

(** The action as [SaveAction] stores it: with the time of saving when it
    came without a timestamp. *)
Definition stamped (action : ChaosAction) (now : Time) : ChaosAction :=
  if String.eqb (Timestamp action) "" then
    mkAction (Type_ action) (TargetPod action) (Namespace action)
      (FormatRFC3339 now) (Metadata action)
  else action.

(** The types [rollbackAction] has a case for. *)
Definition knownTypes : list string :=
  ["latency"; "packetloss"; "cpustress"; "misroute"; "kill"].

Section Notions.
Context {C : Type} `{Interface C}.

(** [w'] is [w] after the requests [cs], with nothing taken from the log. *)
Definition after (w : World C) (cs : list ApiCall) (w' : World C) : Prop :=
  calls w' = calls w ++ cs ∧ (∀ e, e ∈ log w → e ∈ log w') ∧ fs w' = fs w.

(** An injector for one pod: whatever it does, it issues nothing but
    patches of that pod and removes nothing from the log. *)
Definition patchesOnly (ns : string) (toPod : string → M C (option error)) : Prop :=
  ∀ name (w : World C), ∃ cs,
    calls (snd (toPod name w)) = calls w ++ cs ∧
    Forall (patches ns name) cs ∧
    (∀ e, e ∈ log w → e ∈ log (snd (toPod name w))).

(** What the ledger file holds, if there is one. *)
Definition ledgerFile (w : World C) : option string := files (fs w) !! stateFile w.

(** The world [w'] is [w] with more lines printed, and nothing else. *)
Definition onlyLogged (w w' : World C) : Prop :=
  ∃ lines, w' = set_log (log w ++ lines) w.

(** The world in which [rollbackOne] calls [rollbackAction]: the line
    that announces the action has been printed. *)
Definition announced (action : ChaosAction) (w : World C) : World C :=
  set_log (log w ++ [(INFO, "Rolling back " +:+ Type_ action +:+ " action for pod '" +:+
                            TargetPod action +:+ "' in namespace '" +:+
                            Namespace action +:+ "'")]) w.

(** The files and the path of the ledger are those of [w]. *)
Definition sameFiles (w w' : World C) : Prop :=
  fs w' = fs w ∧ stateFile w' = stateFile w.

(** A computation that does nothing but print. *)
Definition quiet {A} (m : M C A) : Prop := ∀ w, onlyLogged w (snd (m w)).

(** A computation that leaves the file system as it is. *)
Definition keepsFiles {A} (m : M C A) : Prop := ∀ w, fs (snd (m w)) = fs w.

End Notions.

(** * Clusters, files and actions for the examples *)

Definition threePods : Fake :=
  mkFake [simplePod "default" "a" "Running" "10.0.0.1";
          simplePod "default" "b" "Pending" "10.0.0.2";
          simplePod "default" "c" "Running" "10.0.0.3"] [] [] false false false.

Definition debugContainer : EphemeralContainer :=
  {| ec_Name := "debugger"; ec_Image := "busybox"; ec_Command := ["sh"];
     ec_SecurityContext := None; ec_Resources := noResources |}.

Definition debuggedPod : Pod :=
  {| pod_Name := "pod-1"; pod_Namespace := "default"; pod_UID := "pod-1-uid";
     pod_Phase := PodRunning; pod_PodIP := "10.0.0.1"; pod_Conditions := [];
     pod_EphemeralContainers := [debugContainer] |}.

Definition thirtySeconds : Duration :=
  {| Nanoseconds := 30000000000; DurationString := "30s" |}.

Definition httpPort : ServicePort :=
  {| sp_Name := "http"; sp_Port := 80; sp_Protocol := "TCP" |}.

Definition readyPod (phase : string) : Pod :=
  {| pod_Name := "pod-2"; pod_Namespace := "default"; pod_UID := "pod-2-uid";
     pod_Phase := phase; pod_PodIP := "10.0.0.2";
     pod_Conditions := [{| cond_Type := PodReady; cond_Status := ConditionTrue |}];
     pod_EphemeralContainers := [] |}.

Definition webService : Service :=
  {| svc_Name := "web"; svc_Namespace := "default"; svc_Ports := [httpPort] |}.

Definition webEndpoints : Endpoints :=
  {| ep_Name := "web"; ep_Namespace := "default";
     Subsets := [{| Addresses := [{| addr_IP := "10.0.0.9"; addr_TargetRef := None |}];
                    NotReadyAddresses := [];
                    Ports := [servicePort httpPort] |}] |}.

Definition webCluster : Fake := mkFake [] [webService] [webEndpoints] false false false.

Definition readonlyFS : FS := mkFS ∅ (Some "/home/u") true.

Definition noCluster : Fake := mkFake [] [] [] false false false.

Definition nullLedger : FS :=
  mkFS {[ "/home/u/.tipsy/state.json" := "null" ]} (Some "/home/u") false.

Definition brokenLedger : FS :=
  mkFS {[ "/home/u/.tipsy/state.json" := "invalid json content" ]} (Some "/home/u") false.

Definition latencyAction : ChaosAction :=
  mkAction "latency" "pod-1" "default" "" (Some {[ "delay" := "200ms" ]}).

Definition earlier : ChaosAction :=
  mkAction "latency" "pod-1" "default" "2023-01-01T00:00:00Z" (Some {[ "delay" := "200ms" ]}).

Definition later : ChaosAction :=
  mkAction "latency" "pod-1" "default" "2023-01-01T00:00:05Z" (Some {[ "delay" := "200ms" ]}).

Definition ledgerOf (l : list ChaosAction) : FS :=
  mkFS {[ "/home/u/.tipsy/state.json" := MarshalActions l ]} (Some "/home/u") false.

Definition killed : ChaosAction :=
  mkAction "kill" "pod-0" "default" "2023-01-01T00:00:00Z" None.

Definition bogus : ChaosAction :=
  mkAction "reboot" "pod-1" "default" "2023-01-01T00:00:01Z" None.

Definition stuckPod : Pod :=
  {| pod_Name := "pod-1"; pod_Namespace := "default"; pod_UID := "pod-1-uid";
     pod_Phase := PodRunning; pod_PodIP := "10.0.0.1"; pod_Conditions := [];
     pod_EphemeralContainers :=
       [{| ec_Name := "latency-injector-1672531200"; ec_Image := "nicolaka/netshoot";
           ec_Command := ["sh"]; ec_SecurityContext := None;
           ec_Resources := noResources |}] |}.

(** A cluster that refuses every patch. *)
Definition stuckCluster : Fake := mkFake [stuckPod] [] [] true false false.

(** A recorded misrouting of the web service, without a backup path. *)
Definition misrouted : ChaosAction :=
  mkAction "misroute" "web" "default" "2023-01-01T00:00:02Z" None.

(** A file system that holds the backup of the web service's endpoints. *)
Definition backedUp : FS :=
  mkFS {[ "/home/u/.tipsy/rollback/web_default.json" := MarshalEndpoints webEndpoints ]}
    (Some "/home/u") false.

(** The web service with its endpoints emptied, and one ready pod. *)
Definition misroutedCluster : Fake :=
  mkFake [readyPod "Running"] [webService] [withSubsets webEndpoints []] false false false.

(** The world of the examples, in front of a cluster that is down. *)
Definition offline : World Unreachable :=
  mkWorld unreachable [] emptyFS "/home/u/.tipsy/state.json" [] (fun _ => midnight) O
    (fun n => Z.of_nat n) O.
(** * Facts about [filterActions] *)

Lemma filterActions_from_filter filtered actions ft fp :
  filterActions_from filtered actions ft fp
  = filtered ++ filter (matches ft fp) actions.
Proof.
  revert filtered. induction actions as [|a rest IH]; intros filtered; simpl.
  - by rewrite app_nil_r.
  - rewrite filter_cons.
    destruct (String.eqb_spec ft ""), (String.eqb_spec (Type_ a) ft),
             (String.eqb_spec fp ""), (String.eqb_spec (TargetPod a) fp);
      simpl; rewrite IH; unfold matches;
      case_decide; try (by rewrite <- ?app_assoc); intuition congruence.
Qed.

Lemma filterActions_filter actions ft fp :
  filterActions actions ft fp = filter (matches ft fp) actions.
Proof. unfold filterActions. by rewrite filterActions_from_filter. Qed.

Lemma filter_all {A} (P : A → Prop) `{∀ x, Decision (P x)} (l : list A) :
  (∀ x, P x) → filter P l = l.
Proof.
  intros HP. induction l as [|x l IH]; [done|].
  rewrite filter_cons_True by apply HP. by rewrite IH.
Qed.

(** C6.  Filtering a list of actions by (type, pod): with both filters
    empty every action is returned, in order; otherwise the result is,
    in the original order, exactly the actions whose type equals a
    non-empty type filter and whose target pod equals a non-empty pod
    filter; with both filters set it is the intersection of the two
    single-axis results. *)
Theorem filterActions_spec (actions : list ChaosAction) (filterType filterPod : string) :
  filterActions actions "" "" = actions ∧
  filterActions actions filterType filterPod
    = filter (matches filterType filterPod) actions ∧
  filterActions actions filterType filterPod `sublist_of` actions ∧
  (∀ a, a ∈ filterActions actions filterType filterPod ↔
        a ∈ actions ∧ (filterType = "" ∨ Type_ a = filterType)
                    ∧ (filterPod = "" ∨ TargetPod a = filterPod)) ∧
  (filterType ≠ "" → ∀ a, a ∈ filterActions actions filterType "" ↔
        a ∈ actions ∧ Type_ a = filterType) ∧
  (filterPod ≠ "" → ∀ a, a ∈ filterActions actions "" filterPod ↔
        a ∈ actions ∧ TargetPod a = filterPod) ∧
  filterActions actions filterType filterPod
    = filterActions (filterActions actions filterType "") "" filterPod.
Proof.
  rewrite !filterActions_filter. split_and!.
  - apply filter_all. intros a; split; by left.
  - done.
  - apply sublist_filter.
  - intros a. rewrite list_elem_of_filter. unfold matches. tauto.
  - intros Hne a. rewrite list_elem_of_filter. unfold matches. intuition congruence.
  - intros Hne a. rewrite list_elem_of_filter. unfold matches. intuition congruence.
  - rewrite list_filter_filter. apply list_filter_iff.
    intros a. unfold matches. tauto.
Qed.

(** * Facts about [KillPods] *)

Section KillFacts.
Context {C : Type} `{Interface C}.

(** Unfolding of the monad and of the primitive operations. *)
Ltac munfold :=
  unfold bind, ret, utils_Info, utils_Warn, utils_Error, utils_DryRun, logline,
    Pods_List, Pods_Get, Pods_Patch, Pods_Delete, Services_Get, Endpoints_Get,
    Endpoints_Update, request, Seed, Now, Intn in *.

Lemma all_indices_bound (n : Z) (idxs : list Z) :
  0 ≤ n → NoDup idxs → (∀ i, 0 ≤ i < n → i ∈ idxs) →
  n ≤ Z.of_nat (length idxs).
Proof.
  intros Hn Hnd Hall.
  assert (seqZ 0 n ⊆+ idxs) as Hsub.
  { apply NoDup_submseteq; [apply NoDup_seqZ|].
    intros i Hi. apply elem_of_seqZ in Hi. apply Hall. lia. }
  apply submseteq_length in Hsub. rewrite length_seqZ in Hsub. lia.
Qed.

Lemma selectPods_returns (items : list Pod) (k : Z) (fuel : nat) :
  ∀ (w : World C) idxs selectedPods usedIndices,
    0 < Z.of_nat (length items) →
    k ≤ Z.of_nat (length items) →
    selecting items idxs selectedPods usedIndices →
    Z.of_nat (length idxs) ≤ k ∨ k < 0 →
    (0 < fuel)%nat →
    (Z.of_nat (length idxs) < k →
     ∀ i, 0 ≤ i < Z.of_nat (length items) →
       i ∈ idxs ∨ ∃ j : nat, (S j < fuel)%nat ∧
         random w (draws w + j)%nat mod Z.of_nat (length items) = i) →
    ∃ idxs' d',
      selectPods fuel items k selectedPods usedIndices w
        = (Some (map (name_at items) idxs'), set_draws d' w) ∧
      NoDup idxs' ∧
      Forall (λ i, 0 ≤ i < Z.of_nat (length items)) idxs' ∧
      Z.of_nat (length idxs') = Z.max k (Z.of_nat (length idxs)) ∧
      (k ≤ 0 → idxs' = idxs).
Proof.
  induction fuel as [|fuel IH]; intros w idxs sel used Hn Hk Hinv Hlen Hfuel Hcov;
    [lia|].
  destruct Hinv as (Hsel & Hnd & Hrange & Hused).
  subst sel. simpl. rewrite length_map.
  destruct (Z.ltb_spec (Z.of_nat (length idxs)) k) as [Hlt|Hge].
  - specialize (Hcov Hlt).
    munfold. simpl.
    set (index := random w (draws w) mod Z.of_nat (length items)).
    assert (0 ≤ index < Z.of_nat (length items)) as Hidx
      by (apply Z.mod_pos_bound; lia).
    assert (0 < fuel)%nat as Hfuel'.
    { destruct fuel; [|lia]. exfalso.
      assert (Z.of_nat (length items) ≤ Z.of_nat (length idxs)); [|lia].
      apply all_indices_bound; [lia|done|].
      intros i Hi. destruct (Hcov i Hi) as [?|(j & Hj & _)]; [done|lia]. }
    destruct (default false (used !! index)) eqn:Hu; simpl.
    + (* the index was drawn before: try again *)
      assert (index ∈ idxs) as Hold by (by apply Hused).
      destruct (IH (set_draws (S (draws w)) w) idxs (map (name_at items) idxs) used)
        as (idxs' & d' & Hrun & Hrest).
      * done.
      * done.
      * done.
      * left; lia.
      * done.
      * intros _ i Hi. destruct (Hcov i Hi) as [?|(j & Hj & Hij)]; [by left|].
        destruct j as [|j].
        -- left. rewrite Nat.add_0_r in Hij. by rewrite <- Hij.
        -- right. exists j. split; [lia|]. simpl.
           rewrite <- Hij. do 2 f_equal. lia.
      * exists idxs', d'. by rewrite Hrun.
    + (* a new index *)
      assert (index ∉ idxs) as Hnew.
      { intros Hin. apply Hused in Hin. congruence. }
      destruct (IH (set_draws (S (draws w)) w) (idxs ++ [index])
                  (map (name_at items) idxs ++ [name_at items index])
                  (<[index := true]> used))
        as (idxs' & d' & Hrun & Hnd' & Hr' & Hl' & Hk0).
      * done.
      * done.
      * split_and!.
        -- by rewrite map_app.
        -- apply NoDup_app. split_and!; [done| |apply NoDup_singleton].
           intros x Hx Hx'. apply list_elem_of_singleton in Hx'. by subst.
        -- apply Forall_app. split; [done|]. by apply Forall_singleton.
        -- intros i. rewrite elem_of_app, list_elem_of_singleton.
           destruct (decide (i = index)) as [->|Hne].
           ++ rewrite lookup_insert_eq. simpl. tauto.
           ++ rewrite lookup_insert_ne by done. rewrite Hused. tauto.
      * left. rewrite length_app. simpl. lia.
      * done.
      * intros _ i Hi. rewrite elem_of_app, list_elem_of_singleton.
        destruct (Hcov i Hi) as [?|(j & Hj & Hij)]; [by left; left|].
        destruct j as [|j].
        -- left. right. rewrite Nat.add_0_r in Hij. by rewrite <- Hij.
        -- right. exists j. split; [lia|]. simpl.
           rewrite <- Hij. do 2 f_equal. lia.
      * exists idxs', d'. rewrite Hrun. split_and!; try done.
        -- rewrite Hl', length_app. simpl. lia.
        -- lia.
  - exists idxs, (draws w). split_and!; try done.
    + munfold. by destruct w.
    + lia.
Qed.



Lemma for_each_log (l : Level) (f : string → string) (xs : list string) (w : World C) :
  for_each xs (fun x => logline l (f x)) w
  = (tt, set_log (log w ++ map (fun x => (l, f x)) xs) w).
Proof.
  revert w. induction xs as [|x xs IH]; intros w; simpl.
  - unfold ret. rewrite app_nil_r. by destruct w.
  - unfold bind, logline at 1. rewrite IH. simpl.
    by rewrite <- app_assoc.
Qed.

Lemma deletePod_calls (ns x : string) (w : World C) :
  ∃ w', deletePod ns x w = (tt, w') ∧
        calls w' = calls w ++ [CallPodsDelete ns x] ∧
        (∀ e, e ∈ log w → e ∈ log w').
Proof.
  unfold deletePod. munfold. simpl.
  destruct (PodsDelete ns x (client w)) as [[e|] c']; simpl;
    eexists; (split_and!; [reflexivity|done|]);
    intros e' He'; simpl; rewrite !elem_of_app; auto.
Qed.

Lemma deletePods_calls (ns : string) (names : list string) (w : World C) :
  ∃ w', for_each names (deletePod ns) w = (tt, w') ∧
        calls w' = calls w ++ map (CallPodsDelete ns) names ∧
        (∀ e, e ∈ log w → e ∈ log w').
Proof.
  revert w. induction names as [|x xs IH]; intros w; simpl.
  - exists w. split_and!; [done|by rewrite app_nil_r|done].
  - unfold bind.
    destruct (deletePod_calls ns x w) as (w1 & -> & Hc1 & Hl1).
    destruct (IH w1) as (w' & -> & Hc & Hl).
    exists w'. split_and!; [done| |by auto].
    rewrite Hc, Hc1. by rewrite <- app_assoc.
Qed.

Lemma names_distinct (items : list Pod) (idxs : list Z) :
  NoDup (map pod_Name items) → NoDup idxs →
  Forall (λ i, 0 ≤ i < Z.of_nat (length items)) idxs →
  NoDup (map (name_at items) idxs).
Proof.
  intros Hnames Hnd Hrange.
  apply (NoDup_fmap_2_strong (name_at items)); [|done].
  intros i j Hi Hj Heq.
  rewrite Forall_forall in Hrange.
  pose proof (Hrange i Hi). pose proof (Hrange j Hj).
  unfold name_at in Heq.
  rewrite <- !(map_nth pod_Name) in Heq.
  apply NoDup_ListNoDup in Hnames.
  apply (proj1 (List.NoDup_nth _ _) Hnames) in Heq;
    rewrite ?length_map; lia.
Qed.

(** C3.  With [P] the pods the selector matches: the kill executor picks
    [min (max c 0) |P|] pairwise distinct pods, issues one delete request
    for each of them outside dry run and none in dry run (the cluster is
    then left as the listing found it); [c <= 0] changes nothing and
    warns, and an empty [P] is a successful no-op.  The selection loop
    retries until it has drawn enough distinct indices, so it is run here
    on draws that reach every index. *)
Theorem KillPods_spec (fuel : nat) (ns sel : string) (count : Z) (dryRun : bool)
    (w : World C) (items : list Pod) (c1 : C) :
  PodsList ns sel (client w) = (Ok items, c1) →
  (0 < fuel)%nat →
  (0 < count → covers (random w) (draws w) (Z.of_nat (length items)) fuel) →
  ∃ (idxs : list Z) (w' : World C),
    KillPods fuel ns sel count dryRun w = (Some None, w') ∧
    NoDup idxs ∧
    Forall (λ i, 0 ≤ i < Z.of_nat (length items)) idxs ∧
    Z.of_nat (length idxs) = Z.min (Z.max count 0) (Z.of_nat (length items)) ∧
    (NoDup (map pod_Name items) → NoDup (map (name_at items) idxs)) ∧
    calls w' = calls w ++ CallPodsList ns sel ::
      (if dryRun then [] else map (CallPodsDelete ns) (map (name_at items) idxs)) ∧
    (dryRun = true → client w' = c1) ∧
    (count ≤ 0 → idxs = []) ∧
    (count ≤ 0 → items ≠ [] →
       (WARN, "Invalid count " +:+ itoa count +:+ ", no pods will be deleted") ∈ log w') ∧
    (items = [] → idxs = [] ∧
       (WARN, "No pods found matching selector '" +:+ sel +:+
              "' in namespace '" +:+ ns +:+ "'") ∈ log w').
Proof.
  intros Hlist Hfuel Hcov.
  destruct (KillPods fuel ns sel count dryRun w) as [r w'] eqn:E.
  set (k := Z.min (Z.max count 0) (Z.of_nat (length items))).
  enough (r = Some None ∧ ∃ idxs : list Z,
    NoDup idxs ∧
    Forall (λ i, 0 ≤ i < Z.of_nat (length items)) idxs ∧
    Z.of_nat (length idxs) = k ∧
    calls w' = calls w ++ CallPodsList ns sel ::
      (if dryRun then [] else map (CallPodsDelete ns) (map (name_at items) idxs)) ∧
    (dryRun = true → client w' = c1) ∧
    (count ≤ 0 → idxs = []) ∧
    (count ≤ 0 → items ≠ [] →
       (WARN, "Invalid count " +:+ itoa count +:+ ", no pods will be deleted") ∈ log w') ∧
    (items = [] → idxs = [] ∧
       (WARN, "No pods found matching selector '" +:+ sel +:+
              "' in namespace '" +:+ ns +:+ "'") ∈ log w'))
    as (-> & idxs & ? & ? & ? & ? & ? & ? & ? & ?).
  { exists idxs, w'. split_and!; try done. intros ?. by apply names_distinct. }
  unfold KillPods in E. unfold bind at 1 in E. unfold utils_Info at 1, logline in E.
  unfold bind at 1 in E. unfold Pods_List, request in E. simpl in E. rewrite Hlist in E.
  destruct (Z.eqb_spec (Z.of_nat (length items)) 0) as [Hz|Hnz].
  { (* no pod matches *)
    munfold. simpl in E. injection E as <- <-. split; [done|]. exists []. simpl.
    split_and!; try done.
    - constructor.
    - subst k. lia.
    - by destruct dryRun.
    - intros _ ?. destruct items; simpl in *; [done|lia].
    - intros _. split; [done|]. rewrite !elem_of_app, !list_elem_of_singleton. auto. }
  assert (items ≠ []) as Hne by (intros ->; simpl in *; lia).
  unfold bind at 1 in E. unfold utils_Info at 1, logline in E. simpl in E.
  unfold bind at 1 in E.
  match type of E with (let (_, _) := ?m ?w0 in _) = _ =>
    assert (∃ l1, m w0 = (k, set_log (log w0 ++ l1) w0) ∧
      (count ≤ 0 → l1 = [(WARN, "Invalid count " +:+ itoa count +:+
                                ", no pods will be deleted")]))
      as (l1 & Hclamp & Hwarn)
  end.
  { subst k. destruct (Z.leb_spec count 0);
      [|destruct (Z.ltb_spec (Z.of_nat (length items)) count)].
    - eexists. munfold. simpl. split; [|done]. f_equal. lia.
    - eexists. munfold. simpl. split; [|lia]. f_equal. lia.
    - exists []. munfold. simpl. rewrite app_nil_r. split; [|lia].
      f_equal. lia. }
  rewrite Hclamp in E. clear Hclamp.
  unfold bind at 1 in E. unfold Seed, Now in E. unfold bind at 1, ret at 1 in E.
  simpl in E. unfold bind at 1 in E.
  match type of E with context [selectPods fuel items k [] ∅ ?w0] =>
    destruct (selectPods_returns items k fuel w0 [] [] ∅)
      as (idxs & d' & Hrun & Hnd & Hr & Hl & Hk0)
  end.
  { lia. }
  { subst k. lia. }
  { split_and!; [done|constructor|constructor|].
    intros i. rewrite lookup_empty. simpl. split; [done|]. by intros ?%elem_of_nil. }
  { left. simpl. subst k. lia. }
  { done. }
  { intros Hk i Hi. right. simpl in Hk.
    destruct (Hcov ltac:(subst k; lia) i Hi) as (j & Hj & Hij). by exists j. }
  rewrite Hrun in E. simpl in Hl.
  destruct dryRun.
  - unfold bind at 1 in E. unfold utils_DryRun at 1, logline in E.
    unfold bind at 1 in E. unfold utils_DryRun in E. rewrite for_each_log in E.
    unfold ret in E. injection E as <- <-. split; [done|]. exists idxs.
    simpl. split_and!; try done.
    + subst k. lia.
    + intros Hc. apply Hk0. subst k. lia.
    + intros Hc _. rewrite (Hwarn Hc). rewrite !elem_of_app, !list_elem_of_singleton. auto.
  - unfold bind at 1 in E. unfold utils_Info at 1, logline in E.
    unfold bind at 1 in E.
    match type of E with context [for_each _ _ ?w0] =>
      destruct (deletePods_calls ns (map (name_at items) idxs) w0)
        as (w2 & Hdel & Hcalls & Hlog) end.
    rewrite Hdel in E. unfold ret in E. injection E as <- <-. split; [done|].
    exists idxs. split_and!; try done.
    + subst k. lia.
    + rewrite Hcalls. simpl. by rewrite <- app_assoc.
    + intros Hc. apply Hk0. subst k. lia.
    + intros Hc _. apply Hlog. simpl. rewrite (Hwarn Hc).
      rewrite !elem_of_app, !list_elem_of_singleton. auto.
Qed.

End KillFacts.

Lemma counting_draws_cover : covers (fun n => Z.of_nat n) 0 3 10.
Proof.
  intros i Hi. exists (Z.to_nat i). split; [lia|].
  assert (i = 0 ∨ i = 1 ∨ i = 2) as [->|[->| ->]] by lia; reflexivity.
Defined.

(** Killing two of three pods: two distinct pods are chosen and exactly
    those two are deleted. *)
Lemma KillPods_spec_witness :
  (PodsList "default" "app=x" (client (exampleWorld threePods emptyFS))
     = (Ok (fake_pods threePods), threePods) ∧
   (0 < 10)%nat ∧
   (0 < 2 → covers (fun n => Z.of_nat n) 0 3 10)) ∧
  ∃ (idxs : list Z) (w' : World Fake),
    KillPods 10 "default" "app=x" 2 false (exampleWorld threePods emptyFS)
      = (Some None, w') ∧
    NoDup idxs ∧ Z.of_nat (length idxs) = 2 ∧
    calls w' = CallPodsList "default" "app=x" ::
               map (CallPodsDelete "default") (map (name_at (fake_pods threePods)) idxs).
Proof.
  split; [split_and!; [reflexivity|lia|intros _; apply counting_draws_cover]|].
  destruct (KillPods_spec 10 "default" "app=x" 2 false
              (exampleWorld threePods emptyFS) (fake_pods threePods) threePods)
    as (idxs & w' & Hrun & Hnd & _ & Hlen & _ & Hcalls & _).
  - reflexivity.
  - lia.
  - intros _. apply counting_draws_cover.
  - exists idxs, w'. split_and!; [exact Hrun|exact Hnd|exact Hlen|exact Hcalls].
Defined.

(** In dry run the same command deletes nothing: the three pods are still
    there, and only the listing was issued. *)
Example KillPods_dry_run_keeps_pods :
  let r := KillPods 10 "default" "app=x" 2 true (exampleWorld threePods emptyFS) in
  fst r = Some None ∧
  fake_pods (client (snd r)) = fake_pods threePods ∧
  calls (snd r) = [CallPodsList "default" "app=x"].
Proof. vm_compute. done. Qed.

(** A generator that keeps returning the same number never completes a
    selection of two pods: the loop is still running whatever the fuel
    (checked here for 200 rounds). *)
Example KillPods_stuck_generator :
  fst (KillPods 200 "default" "app=x" 2 false
         (mkWorld threePods [] emptyFS "" [] (fun _ => midnight) O (fun _ => 0) O))
  = None.
Proof. vm_compute. done. Qed.

(** * Facts about fault injection *)

Section InjectFacts.
Context {C : Type} `{Interface C}.

Ltac munfold :=
  unfold bind, ret, utils_Info, utils_Warn, utils_Error, utils_DryRun, logline,
    Pods_List, Pods_Get, Pods_Patch, Pods_Delete, Services_Get, Endpoints_Get,
    Endpoints_Update, request, Seed, Now, Intn in *.

Lemma after_refl (w : World C) : after w [] w.
Proof. split_and!; [by rewrite app_nil_r|done|done]. Qed.

Lemma after_trans (w1 w2 w3 : World C) cs1 cs2 :
  after w1 cs1 w2 → after w2 cs2 w3 → after w1 (cs1 ++ cs2) w3.
Proof.
  intros (Hc1 & Hl1 & Hf1) (Hc2 & Hl2 & Hf2). split_and!.
  - by rewrite Hc2, Hc1, app_assoc.
  - auto.
  - congruence.
Qed.

Lemma after_log (w : World C) l msg : after w [] (set_log (log w ++ [(l, msg)]) w).
Proof.
  split_and!; simpl; [by rewrite app_nil_r| |done].
  intros e He. apply elem_of_app. by left.
Qed.

Lemma patchEphemeral_after ns podName container (w : World C) :
  after w [injection ns podName container]
    (snd (patchEphemeral ns podName (ephemeralPatch container) w)).
Proof.
  unfold patchEphemeral. munfold. simpl.
  destruct (PodsPatch _ _ _ _ _ _) as [[e|] c']; simpl.
  - split_and!; done.
  - split_and!; simpl; [done| |done]. intros e He. apply elem_of_app. by left.
Qed.

Lemma injectLatencyToPod_calls ns podName delay duration (w : World C) :
  calls (snd (injectLatencyToPod ns podName delay duration false w))
  = calls w ++ [injection ns podName (latencyContainer delay duration (clock w (ticks w)))].
Proof.
  unfold injectLatencyToPod. unfold bind at 1, utils_Info at 1, logline. simpl.
  unfold bind at 1, Now. simpl.
  match goal with |- context [patchEphemeral _ _ _ ?w0] =>
    destruct (patchEphemeral_after ns podName
                (latencyContainer delay duration (clock w (ticks w))) w0) as (Hc & _)
  end.
  exact Hc.
Qed.

Lemma injectPacketLossToPod_calls ns podName loss duration (w : World C) :
  calls (snd (injectPacketLossToPod ns podName loss duration false w))
  = calls w ++ [injection ns podName (packetLossContainer loss duration (clock w (ticks w)))].
Proof.
  unfold injectPacketLossToPod. unfold bind at 1, utils_Info at 1, logline. simpl.
  unfold bind at 1, Now. simpl.
  match goal with |- context [patchEphemeral _ _ _ ?w0] =>
    destruct (patchEphemeral_after ns podName
                (packetLossContainer loss duration (clock w (ticks w))) w0) as (Hc & _)
  end.
  exact Hc.
Qed.

Lemma injectCPUStressToPod_calls ns podName method duration image command (w : World C) :
  cpuStressMethod method duration = Some (image, command) →
  calls (snd (injectCPUStressToPod ns podName method duration false w))
  = calls w ++ [injection ns podName (cpuStressContainer image command (clock w (ticks w)))].
Proof.
  intros Hm.
  unfold injectCPUStressToPod. unfold bind at 1, utils_Info at 1, logline. simpl.
  rewrite Hm. unfold bind at 1, Now. simpl.
  match goal with |- context [patchEphemeral _ _ _ ?w0] =>
    destruct (patchEphemeral_after ns podName
                (cpuStressContainer image command (clock w (ticks w))) w0) as (Hc & _)
  end.
  exact Hc.
Qed.


End InjectFacts.



(** * Pod phase and eligibility *)

Section PhaseFacts.
Context {C : Type} `{Interface C}.

Ltac munfold :=
  unfold bind, ret, utils_Info, utils_Warn, utils_Error, utils_DryRun, logline,
    Pods_List, Pods_Get, Pods_Patch, Pods_Delete, Services_Get, Endpoints_Get,
    Endpoints_Update, request, Seed, Now, Intn in *.

(** A pod that is not running is skipped: a warning, and nothing else. *)
Lemma injectInto_not_running what (toPod : string → M C (option error)) pod (w : World C) :
  pod_Phase pod ≠ PodRunning →
  injectInto what toPod pod w = (tt, set_log (log w ++ [skipLine pod]) w).
Proof.
  intros Hph. unfold injectInto.
  destruct (String.eqb_spec (pod_Phase pod) PodRunning); [done|]. reflexivity.
Qed.

Lemma injectInto_all_skipped what (toPod : string → M C (option error)) items (w : World C) :
  Forall (λ pod, pod_Phase pod ≠ PodRunning) items →
  for_each items (injectInto what toPod) w
  = (tt, set_log (log w ++ map skipLine items) w).
Proof.
  revert w. induction items as [|pod items IH]; intros w Hall; simpl.
  - unfold ret. rewrite app_nil_r. by destruct w.
  - inversion Hall as [|? ? Hpod Hrest]; subst.
    unfold bind. rewrite injectInto_not_running by done.
    rewrite IH by done. simpl. by rewrite <- app_assoc.
Qed.

(** With only pods that are not running, an injector lists the pods,
    warns once per pod, issues no other request and succeeds. *)
Lemma injectAll_all_skipped what ns sel (toPod : string → M C (option error))
    items c1 (w : World C) :
  PodsList ns sel (client w) = (Ok items, c1) →
  items ≠ [] →
  Forall (λ pod, pod_Phase pod ≠ PodRunning) items →
  ∃ w', injectAll what ns sel toPod w = (None, w') ∧
        calls w' = calls w ++ [CallPodsList ns sel] ∧
        client w' = c1 ∧
        (∀ pod, pod ∈ items → skipLine pod ∈ log w') ∧
        (∀ msg, (ERROR, msg) ∈ log w' → (ERROR, msg) ∈ log w).
Proof.
  intros Hlist Hne Hall. unfold injectAll.
  unfold bind at 1, utils_Info at 1, logline. simpl.
  unfold bind at 1, Pods_List, request. simpl. rewrite Hlist.
  destruct (Nat.eqb_spec (length items) 0) as [Hz|_].
  { destruct items; simpl in *; [done|lia]. }
  unfold bind at 1, utils_Info at 1, logline. simpl.
  unfold bind at 1. rewrite injectInto_all_skipped by done. unfold ret.
  eexists. split; [reflexivity|]. simpl. split_and!; try done.
  - intros pod Hpod. rewrite !elem_of_app. right.
    apply list_elem_of_fmap. by exists pod.
  - intros msg. rewrite !elem_of_app, !list_elem_of_singleton, list_elem_of_fmap.
    intros [[[?|?]|?]|Hin]; try done.
    destruct Hin as (pod & Heq & _). discriminate.
Qed.

Lemma patchEphemeral_patchesOnly ns name body (w : World C) :
  calls (snd (patchEphemeral ns name body w))
    = calls w ++ [CallPodsPatch ns name StrategicMergePatchType body "ephemeralContainers"] ∧
  (∀ e, e ∈ log w → e ∈ log (snd (patchEphemeral ns name body w))).
Proof.
  unfold patchEphemeral. munfold. simpl.
  destruct (PodsPatch _ _ _ _ _ _) as [[e|] c']; simpl; (split; [done|]); [done|].
  intros e He. apply elem_of_app. by left.
Qed.

Ltac log_grows :=
  intros ? ?; simpl; rewrite ?elem_of_app; auto 10.

Lemma injectLatencyToPod_patchesOnly ns delay duration dryRun :
  patchesOnly ns (fun name => injectLatencyToPod ns name delay duration dryRun).
Proof.
  intros name w. unfold injectLatencyToPod.
  unfold bind at 1, utils_Info at 1, logline. simpl. destruct dryRun.
  - exists []. munfold. simpl. split_and!; [by rewrite app_nil_r|constructor|log_grows].
  - unfold bind at 1, Now. simpl.
    match goal with |- context [patchEphemeral _ _ ?b ?w0] =>
      destruct (patchEphemeral_patchesOnly ns name b w0) as (Hc & Hl) end.
    eexists. split_and!; [exact Hc| |].
    + apply Forall_singleton. by eexists _, _, _.
    + intros e He. apply Hl. simpl. apply elem_of_app. by left.
Qed.

Lemma injectPacketLossToPod_patchesOnly ns loss duration dryRun :
  patchesOnly ns (fun name => injectPacketLossToPod ns name loss duration dryRun).
Proof.
  intros name w. unfold injectPacketLossToPod.
  unfold bind at 1, utils_Info at 1, logline. simpl. destruct dryRun.
  - exists []. munfold. simpl. split_and!; [by rewrite app_nil_r|constructor|log_grows].
  - unfold bind at 1, Now. simpl.
    match goal with |- context [patchEphemeral _ _ ?b ?w0] =>
      destruct (patchEphemeral_patchesOnly ns name b w0) as (Hc & Hl) end.
    eexists. split_and!; [exact Hc| |].
    + apply Forall_singleton. by eexists _, _, _.
    + intros e He. apply Hl. simpl. apply elem_of_app. by left.
Qed.

Lemma injectCPUStressToPod_patchesOnly ns method duration dryRun :
  patchesOnly ns (fun name => injectCPUStressToPod ns name method duration dryRun).
Proof.
  intros name w. unfold injectCPUStressToPod.
  unfold bind at 1, utils_Info at 1, logline. simpl.
  destruct (cpuStressMethod method duration) as [[image command]|].
  2: { exists []. unfold ret. simpl. split_and!; [by rewrite app_nil_r|constructor|log_grows]. }
  destruct dryRun.
  - exists []. munfold. simpl. split_and!; [by rewrite app_nil_r|constructor|log_grows].
  - unfold bind at 1, Now. simpl.
    match goal with |- context [patchEphemeral _ _ ?b ?w0] =>
      destruct (patchEphemeral_patchesOnly ns name b w0) as (Hc & Hl) end.
    eexists. split_and!; [exact Hc| |].
    + apply Forall_singleton. by eexists _, _, _.
    + intros e He. apply Hl. simpl. apply elem_of_app. by left.
Qed.

(** What the loop over the listed pods issues: patches of running pods
    only; and every pod that is not running gets its warning. *)
Lemma injectInto_loop what ns (toPod : string → M C (option error)) items (w : World C) :
  patchesOnly ns toPod →
  ∃ cs w', for_each items (injectInto what toPod) w = (tt, w') ∧
    calls w' = calls w ++ cs ∧
    Forall (λ c, ∃ pod, pod ∈ items ∧ pod_Phase pod = PodRunning ∧
                        patches ns (pod_Name pod) c) cs ∧
    (∀ pod, pod ∈ items → pod_Phase pod ≠ PodRunning → skipLine pod ∈ log w') ∧
    (∀ e, e ∈ log w → e ∈ log w').
Proof.
  intros Hto. revert w. induction items as [|pod items IH]; intros w; simpl.
  - exists [], w. unfold ret. split_and!; try done.
    + by rewrite app_nil_r.
    + intros pod Hpod. by apply elem_of_nil in Hpod.
  - unfold bind.
    destruct (injectInto what toPod pod w) as [[] w1] eqn:E1.
    assert (∃ cs1, calls w1 = calls w ++ cs1 ∧
              Forall (λ c, pod_Phase pod = PodRunning ∧ patches ns (pod_Name pod) c) cs1 ∧
              (pod_Phase pod ≠ PodRunning → skipLine pod ∈ log w1) ∧
              (∀ e, e ∈ log w → e ∈ log w1)) as (cs1 & Hc1 & Hf1 & Hs1 & Hl1).
    { destruct (decide (pod_Phase pod = PodRunning)) as [Hrun|Hrun].
      - unfold injectInto in E1. rewrite Hrun in E1. simpl in E1.
        unfold bind in E1.
        destruct (Hto (pod_Name pod) w) as (cs1 & Hc & Hf & Hl).
        destruct (toPod (pod_Name pod) w) as [[e|] w2]; simpl in *.
        + unfold utils_Error, logline in E1. injection E1 as <-.
          exists cs1. split_and!; simpl; try done.
          * eapply Forall_impl; [exact Hf|]. by intros c Hc'.
          * intros e' He'. apply elem_of_app. left. by apply Hl.
        + unfold ret in E1. injection E1 as <-.
          exists cs1. split_and!; try done.
          eapply Forall_impl; [exact Hf|]. by intros c Hc'.
      - rewrite injectInto_not_running in E1 by done. injection E1 as <-.
        exists []. split_and!; simpl.
        + by rewrite app_nil_r.
        + constructor.
        + intros _. apply elem_of_app. right. apply list_elem_of_singleton. done.
        + intros e He. apply elem_of_app. by left. }
    destruct (IH w1) as (cs2 & w' & Hrun2 & Hc2 & Hf2 & Hs2 & Hl2).
    exists (cs1 ++ cs2), w'. split_and!.
    + done.
    + by rewrite Hc2, Hc1, app_assoc.
    + apply Forall_app. split.
      * eapply Forall_impl; [exact Hf1|]. intros c [? ?]. exists pod.
        split_and!; [apply list_elem_of_here|done|done].
      * eapply Forall_impl; [exact Hf2|]. intros c (p & ? & ? & ?). exists p.
        split_and!; [by apply list_elem_of_further|done|done].
    + intros p Hp Hph. apply elem_of_cons in Hp as [->|Hp]; [apply Hl2; auto|auto].
    + auto.
Qed.

Lemma injectAll_running_only what ns sel (toPod : string → M C (option error))
    items c1 (w : World C) :
  patchesOnly ns toPod →
  PodsList ns sel (client w) = (Ok items, c1) →
  ∃ cs w', injectAll what ns sel toPod w = (None, w') ∧
    calls w' = calls w ++ CallPodsList ns sel :: cs ∧
    Forall (λ c, ∃ pod, pod ∈ items ∧ pod_Phase pod = PodRunning ∧
                        patches ns (pod_Name pod) c) cs ∧
    (∀ pod, pod ∈ items → pod_Phase pod ≠ PodRunning → skipLine pod ∈ log w').
Proof.
  intros Hto Hlist. unfold injectAll.
  unfold bind at 1, utils_Info at 1, logline. simpl.
  unfold bind at 1, Pods_List, request. simpl. rewrite Hlist.
  destruct (Nat.eqb_spec (length items) 0) as [Hz|_].
  { destruct items; [|simpl in Hz; lia]. munfold. simpl. exists []. eexists.
    split_and!; [reflexivity|done|constructor|].
    intros pod Hpod. by apply elem_of_nil in Hpod. }
  unfold bind at 1, utils_Info at 1, logline. simpl. unfold bind at 1.
  match goal with |- context [for_each _ _ ?w0] =>
    destruct (injectInto_loop what ns toPod items w0 Hto)
      as (cs & w' & Hrun & Hc & Hf & Hs & _) end.
  rewrite Hrun. unfold ret. exists cs, w'. split_and!; try done.
  rewrite Hc. simpl. by rewrite <- app_assoc.
Qed.

(** The kill executor draws among all the listed pods: whichever pod the
    first draw points at is the one deleted. *)
Lemma KillPods_any_pod ns sel items c1 (i : Z) (w : World C) :
  PodsList ns sel (client w) = (Ok items, c1) →
  0 ≤ i < Z.of_nat (length items) →
  random w (draws w) mod Z.of_nat (length items) = i →
  ∃ w', KillPods 2 ns sel 1 false w = (Some None, w') ∧
        calls w' = calls w ++ [CallPodsList ns sel; CallPodsDelete ns (name_at items i)].
Proof.
  intros Hlist Hi Hdraw.
  destruct (KillPods 2 ns sel 1 false w) as [r w'] eqn:E.
  exists w'. revert E.
  unfold KillPods. unfold bind at 1, utils_Info at 1, logline. simpl.
  unfold bind at 1, Pods_List, request. simpl. rewrite Hlist.
  destruct (Z.eqb_spec (Z.of_nat (length items)) 0) as [?|_]; [lia|].
  unfold bind at 1, utils_Info at 1, logline. simpl.
  destruct (Z.ltb_spec (Z.of_nat (length items)) 1) as [?|_]; [lia|].
  unfold bind at 1, ret at 1. unfold bind at 1, Seed, Now. unfold bind at 1, ret at 1.
  simpl. unfold bind at 1. unfold bind at 1, Intn. simpl.
  rewrite Hdraw. rewrite lookup_empty. simpl.
  unfold ret at 1. unfold bind at 1, utils_Info at 1, logline. simpl.
  unfold bind at 1. unfold bind at 1.
  match goal with |- context [deletePod ns ?x ?w0] =>
    destruct (deletePod_calls ns x w0) as (w1 & Hrun & Hc & _) end.
  rewrite Hrun. unfold ret. simpl. intros [= <- <-]. split; [done|].
  rewrite Hc. simpl. by rewrite <- app_assoc.
Qed.


End PhaseFacts.

Lemma groupPods_filter pods ready notReady :
  groupPods pods ready notReady
  = (ready ++ map podAddress
       (filter (λ pod, routable pod ∧ isReady (pod_Conditions pod) = true) pods),
     notReady ++ map podAddress
       (filter (λ pod, routable pod ∧ isReady (pod_Conditions pod) = false) pods)).
Proof.
  revert ready notReady. induction pods as [|pod pods IH]; intros ready notReady; simpl.
  - by rewrite !app_nil_r.
  - rewrite !filter_cons. unfold routable.
    destruct (String.eqb_spec (pod_Phase pod) PodRunning) as [Hp|Hp];
      destruct (String.eqb_spec (pod_PodIP pod) "") as [Hi|Hi]; simpl;
      try (rewrite IH; repeat case_decide; try done; intuition congruence).
    destruct (isReady (pod_Conditions pod)) eqn:Hr; rewrite IH;
      repeat case_decide; simpl; rewrite <- ?app_assoc; try done;
      intuition congruence.
Qed.

(** The addresses that reach the endpoints are those of the pods that are
    running and have an IP; a pod in any other phase contributes none. *)
Lemma buildEndpointSubsetsFromPods_addresses pods servicePorts subsets :
  buildEndpointSubsetsFromPods pods servicePorts = Ok subsets →
  ∀ addr, (∃ s, s ∈ subsets ∧ (addr ∈ Addresses s ∨ addr ∈ NotReadyAddresses s)) ↔
          servicePorts ≠ [] ∧ ∃ pod, pod ∈ pods ∧ routable pod ∧ addr = podAddress pod.
Proof.
  unfold buildEndpointSubsetsFromPods.
  destruct servicePorts as [|sp sps].
  { simpl. intros [= <-] addr. split.
    - intros (s & Hs & _). by apply elem_of_nil in Hs.
    - by intros [? _]. }
  change (length (sp :: sps) =? 0)%nat with false. cbv iota.
  rewrite groupPods_filter. simpl.
  set (rs := map podAddress
    (filter (λ pod, routable pod ∧ isReady (pod_Conditions pod) = true) pods)).
  set (ns := map podAddress
    (filter (λ pod, routable pod ∧ isReady (pod_Conditions pod) = false) pods)).
  intros Hsub addr.
  assert (∀ a, a ∈ rs ∨ a ∈ ns ↔ ∃ pod, pod ∈ pods ∧ routable pod ∧ a = podAddress pod)
    as Hchar.
  { intros a. subst rs ns. rewrite !list_elem_of_fmap. split.
    - intros [(pod & -> & Hin)|(pod & -> & Hin)];
        apply list_elem_of_filter in Hin as [[? ?] ?]; by exists pod.
    - intros (pod & Hin & Hr & ->).
      destruct (isReady (pod_Conditions pod)) eqn:Hrd; [left|right];
        exists pod; (split; [done|]); by apply list_elem_of_filter. }
  rewrite <- Hchar. clear Hchar.
  assert (∀ l : list EndpointAddress, (0 <? length l)%nat = false → l = []) as Hnil.
  { intros [|? ?]; [done|]. simpl. discriminate. }
  split.
  - intros (s & Hs & Haddr). split; [done|].
    destruct (0 <? length rs)%nat eqn:Hr, (0 <? length ns)%nat eqn:Hn;
      injection Hsub as <-; simpl in Hs;
      repeat (apply elem_of_cons in Hs as [->|Hs]); try (by apply elem_of_nil in Hs);
      simpl in Haddr; destruct Haddr as [Ha|Ha]; try (by apply elem_of_nil in Ha); auto.
  - intros [_ Haddr].
    destruct (0 <? length rs)%nat eqn:Hr, (0 <? length ns)%nat eqn:Hn;
      injection Hsub as <-; simpl;
      try (apply Hnil in Hr; rewrite Hr in Haddr);
      try (apply Hnil in Hn; rewrite Hn in Haddr);
      destruct Haddr as [Ha|Ha]; try (by apply elem_of_nil in Ha).
    all: try (eexists; split; [apply list_elem_of_here|]; simpl; by auto).
    all: try (eexists; split; [apply list_elem_of_further, list_elem_of_here|]; simpl; by auto).
Qed.


Section PhaseTheorem.
Context {C : Type} `{Interface C}.

(** C7, as the code has it.  With [items] the pods the selector matches:
    each of the three injectors succeeds, patches running pods only and
    logs the skip warning for every pod in another phase; the kill
    executor draws among all the pods, so that whichever pod the draw
    points at is deleted, whatever its phase; the selector-based endpoint
    replacement, however, does filter: only pods that are running and
    have an IP contribute an address. *)
Theorem phase_eligibility (ns sel : string) (items : list Pod) (c1 : C) (w : World C) :
  PodsList ns sel (client w) = (Ok items, c1) →
  (∀ inject : M C (option error),
     (∃ delay d dryRun, inject = InjectLatency ns sel delay d dryRun) ∨
     (∃ loss d dryRun, inject = InjectPacketLoss ns sel loss d dryRun) ∨
     (∃ method d dryRun, inject = InjectCPUStress ns sel method d dryRun) →
     ∃ cs w', inject w = (None, w') ∧
       calls w' = calls w ++ CallPodsList ns sel :: cs ∧
       Forall (λ c, ∃ pod, pod ∈ items ∧ pod_Phase pod = PodRunning ∧
                           patches ns (pod_Name pod) c) cs ∧
       (∀ pod, pod ∈ items → pod_Phase pod ≠ PodRunning →
          (WARN, "Skipping pod '" +:+ pod_Name pod +:+
                 "' - not in Running state (current: " +:+ pod_Phase pod +:+ ")")
          ∈ log w')) ∧
  (∀ i, 0 ≤ i < Z.of_nat (length items) →
     random w (draws w) mod Z.of_nat (length items) = i →
     ∃ w', KillPods 2 ns sel 1 false w = (Some None, w') ∧
           calls w' = calls w ++ [CallPodsList ns sel;
                                  CallPodsDelete ns (name_at items i)]) ∧
  (∀ servicePorts subsets,
     buildEndpointSubsetsFromPods items servicePorts = Ok subsets →
     ∀ addr, (∃ s, s ∈ subsets ∧ (addr ∈ Addresses s ∨ addr ∈ NotReadyAddresses s)) ↔
             servicePorts ≠ [] ∧
             ∃ pod, pod ∈ items ∧ pod_Phase pod = PodRunning ∧ pod_PodIP pod ≠ "" ∧
                    addr = podAddress pod).
Proof.
  intros Hlist. split_and!.
  - intros inject [(delay & d & dr & ->)|[(loss & d & dr & ->)|(method & d & dr & ->)]].
    + eapply injectAll_running_only; [apply injectLatencyToPod_patchesOnly|done].
    + eapply injectAll_running_only; [apply injectPacketLossToPod_patchesOnly|done].
    + eapply injectAll_running_only; [apply injectCPUStressToPod_patchesOnly|done].
  - intros i Hi Hdraw. by eapply KillPods_any_pod.
  - intros servicePorts subsets Hbuild addr.
    rewrite (buildEndpointSubsetsFromPods_addresses _ _ _ Hbuild addr).
    unfold routable. split.
    + intros (Hp & pod & Hin & [Hph Hip] & ->). split; [done|]. by exists pod.
    + intros (Hp & pod & Hin & Hph & Hip & ->). split; [done|]. by exists pod.
Qed.

End PhaseTheorem.

(** C7 as stated fails for the endpoint replacement: a pending pod that
    matches the selector and has an IP is left out of the endpoints,
    while the same pod in the running phase is put in. *)
Lemma phase_eligibility_counterexample :
  buildEndpointSubsetsFromPods [readyPod PodPending] [httpPort] = Ok [] ∧
  buildEndpointSubsetsFromPods [readyPod PodRunning] [httpPort]
    = Ok [{| Addresses := [podAddress (readyPod PodRunning)];
             NotReadyAddresses := [];
             Ports := [servicePort httpPort] |}].
Proof. split; reflexivity. Qed.

(** On the three example pods (a and c running, b pending): latency is
    injected into running pods only, and b is skipped with a warning. *)
Lemma phase_eligibility_witness :
  PodsList "default" "app=x" (client (exampleWorld threePods emptyFS))
    = (Ok (fake_pods threePods), threePods) ∧
  ∃ cs w',
    InjectLatency "default" "app=x" "200ms" thirtySeconds false
      (exampleWorld threePods emptyFS) = (None, w') ∧
    calls w' = [] ++ CallPodsList "default" "app=x" :: cs ∧
    Forall (λ c, ∃ pod, pod ∈ fake_pods threePods ∧ pod_Phase pod = PodRunning ∧
                        patches "default" (pod_Name pod) c) cs ∧
    (∀ pod, pod ∈ fake_pods threePods → pod_Phase pod ≠ PodRunning →
       (WARN, "Skipping pod '" +:+ pod_Name pod +:+
              "' - not in Running state (current: " +:+ pod_Phase pod +:+ ")")
       ∈ log w').
Proof.
  split; [reflexivity|].
  destruct (phase_eligibility "default" "app=x" (fake_pods threePods) threePods
              (exampleWorld threePods emptyFS)) as [Hinject _]; [reflexivity|].
  apply Hinject. left. by exists "200ms", thirtySeconds, false.
Defined.

(** * Facts about [MisrouteService] *)

Section MisrouteFacts.
Context {C : Type} `{Interface C}.

Ltac munfold :=
  unfold bind, ret, utils_Info, utils_Warn, utils_Error, utils_DryRun, logline,
    Pods_List, Pods_Get, Pods_Patch, Pods_Delete, Services_Get, Endpoints_Get,
    Endpoints_Update, request, Seed, Now, Intn, UserHomeDir, MkdirAll, WriteFile in *.

(** On a writable file system with a home directory the backup is
    written, at the path made of the service and the namespace. *)
Lemma saveOriginalEndpoints_written endpoints svcName ns h (w : World C) :
  home (fs w) = Some h → readonly (fs w) = false →
  ∃ w', saveOriginalEndpoints endpoints svcName ns w = (None, w') ∧
        files (fs w') = <[backupPath h svcName ns := MarshalEndpoints endpoints]> (files (fs w)) ∧
        calls w' = calls w ∧ client w' = client w ∧
        (∀ e, e ∈ log w → e ∈ log w').
Proof.
  intros Hh Hro. unfold saveOriginalEndpoints. munfold. rewrite Hh, Hro. simpl.
  rewrite Hro. simpl. eexists. split_and!; try done.
  intros e He. apply elem_of_app. by left.
Qed.

(** Without a home directory, or on a read-only file system, it fails and
    leaves everything as it was. *)
Lemma saveOriginalEndpoints_failed endpoints svcName ns (w : World C) :
  home (fs w) = None ∨ readonly (fs w) = true →
  ∃ e, saveOriginalEndpoints endpoints svcName ns w = (Some e, w).
Proof.
  intros Hbad. unfold saveOriginalEndpoints. munfold.
  destruct (home (fs w)) as [h|] eqn:Hh; [|by eexists].
  destruct Hbad as [?|Hro]; [done|]. rewrite Hro. by eexists.
Qed.


End MisrouteFacts.



(** * The JSON reader inverts the writer *)

Lemma append_cons (x : ascii) (a b : string) : String x a +:+ b = String x (a +:+ b).
Proof. reflexivity. Qed.

Lemma append_nil_l (b : string) : "" +:+ b = b.
Proof. reflexivity. Qed.

Lemma append_assoc (a b c : string) : (a +:+ b) +:+ c = a +:+ (b +:+ c).
Proof.
  induction a as [|x a IH]; [done|]. by rewrite !append_cons, IH.
Qed.

Lemma append_nil_r (a : string) : a +:+ "" = a.
Proof. induction a as [|x a IH]; [done|]. by rewrite append_cons, IH. Qed.

Lemma length_append (a b : string) :
  String.length (a +:+ b) = (String.length a + String.length b)%nat.
Proof.
  induction a as [|x a IH]; [done|]. rewrite append_cons. simpl. by rewrite IH.
Qed.

(** ** String literals *)

Ltac each_byte c :=
  destruct c as [[] [] [] [] [] [] [] []].

Lemma scan_escape_char (c : ascii) (s : string) :
  scan_string (escape_char c +:+ s)
  = match scan_string s with
    | Some (us, rest) => Some (unit_of c :: us, rest)
    | None => None
    end.
Proof. each_byte c; reflexivity. Qed.

Lemma scan_escape (s rest : string) :
  scan_string (escape s +:+ String dq rest) = Some (units s, rest).
Proof.
  induction s as [|c s IH]; [done|].
  cbn [escape units]. by rewrite append_assoc, scan_escape_char, IH.
Qed.

Lemma unquote_unit_of (c : ascii) (us : list unit16) :
  unquote (unit_of c :: us) = String c (unquote us).
Proof. each_byte c; reflexivity. Qed.

Lemma unquote_units (s : string) : unquote (units s) = s.
Proof.
  induction s as [|c s IH]; [done|].
  change (units (String c s)) with (unit_of c :: units s).
  by rewrite unquote_unit_of, IH.
Qed.

Lemma scan_quote (s rest : string) :
  scan_string (escape s +:+ str dq +:+ rest) = Some (units s, rest).
Proof. apply scan_escape. Qed.


(** ** Values *)

Lemma render_arr d x xs :
  render d (JArr (x :: xs))
  = "[" +:+ newline (S d) +:+ render (S d) x +:+ render_items d xs.
Proof.
  change (render d (JArr (x :: xs))) with
    ("[" +:+ newline (S d) +:+ render (S d) x +:+
     (fix items (l : list json) : string :=
        match l with
        | [] => newline d +:+ "]"
        | y :: ys => "," +:+ newline (S d) +:+ render (S d) y +:+ items ys
        end) xs).
  do 3 f_equal. induction xs as [|y ys IH]; [reflexivity|].
  cbn [render_items]. by rewrite <- IH.
Qed.

Lemma render_obj d k x xs :
  render d (JObj ((k, x) :: xs))
  = "{" +:+ newline (S d) +:+ quote k +:+ ": " +:+ render (S d) x +:+ render_members d xs.
Proof.
  change (render d (JObj ((k, x) :: xs))) with
    ("{" +:+ newline (S d) +:+ quote k +:+ ": " +:+ render (S d) x +:+
     (fix members (l : list (string * json)) : string :=
        match l with
        | [] => newline d +:+ "}"
        | (k', y) :: ys =>
            "," +:+ newline (S d) +:+ quote k' +:+ ": " +:+
            render (S d) y +:+ members ys
        end) xs).
  do 5 f_equal. induction xs as [|[k' y] ys IH]; [reflexivity|].
  cbn [render_members]. by rewrite <- IH.
Qed.

Lemma skip_ws_spaces d s : skip_ws (spaces d +:+ s) = skip_ws s.
Proof. induction d as [|d IH]; [done|]. cbn [spaces]. by rewrite append_assoc. Qed.

Lemma skip_ws_newline d s : skip_ws (newline d +:+ s) = skip_ws s.
Proof. unfold newline. rewrite append_cons. apply skip_ws_spaces. Qed.

Lemma skip_ws_space s : skip_ws (String " " s) = skip_ws s.
Proof. reflexivity. Qed.

Lemma skip_ws_head c s : is_ws c = false → skip_ws (String c s) = String c s.
Proof. intros Hc. simpl. by rewrite Hc. Qed.

Lemma parse_value_ws fuel a b :
  skip_ws a = skip_ws b → parse_value fuel a = parse_value fuel b.
Proof. intros Hab. destruct fuel; [done|]. simpl. by rewrite Hab. Qed.

Lemma parse_elements_ws fuel a b :
  skip_ws a = skip_ws b → parse_elements fuel a = parse_elements fuel b.
Proof.
  intros Hab. destruct fuel; [done|]. simpl.
  by rewrite (parse_value_ws fuel a b Hab).
Qed.

Lemma parse_members_ws fuel a b :
  skip_ws a = skip_ws b → parse_members fuel a = parse_members fuel b.
Proof. intros Hab. destruct fuel; [done|]. simpl. by rewrite Hab. Qed.

(** A written document starts with a character that is neither white
    space nor a closing bracket. *)
Lemma render_head d v tail :
  textual v = true →
  ∃ c s, render d v +:+ tail = String c s ∧ is_ws c = false ∧
         Ascii.eqb c "]" = false ∧ Ascii.eqb c "}" = false.
Proof.
  intros Ht. destruct v as [|[]|n|s0|[|x xs]|[|[k x] xs]]; try done.
  all: eexists _, _; split; [reflexivity|done].
Qed.

Lemma skip_ws_render d v tail :
  textual v = true → skip_ws (render d v +:+ tail) = render d v +:+ tail.
Proof.
  intros Ht. destruct (render_head d v tail Ht) as (c & s & -> & Hc & _).
  by apply skip_ws_head.
Qed.

Lemma parse_string_value fuel s rest :
  parse_value (S fuel) (quote s +:+ rest) = Some (JStr s, rest).
Proof.
  unfold quote. rewrite append_cons, append_assoc. simpl.
  change (str dq +:+ rest) with (String dq rest).
  by rewrite scan_escape, unquote_units.
Qed.

Section ParseRender.
(** The documents read back so far: those of weight at most [n]. *)
Variable n : nat.
Hypothesis IH : ∀ v, (weight v ≤ n)%nat → textual v = true →
  ∀ d fuel rest, (weight v ≤ fuel)%nat →
    parse_value fuel (render d v +:+ rest) = Some (v, rest).

Lemma parse_render_items d xs :
  ∀ x fuel rest,
    (weight x ≤ n)%nat → Forall (λ y, (weight y ≤ n)%nat) xs →
    textual x = true → forallb textual xs = true →
    (S (weight x) + list_sum (map (fun y => S (weight y)) xs) ≤ fuel)%nat →
    parse_elements fuel (newline (S d) +:+ render (S d) x +:+ render_items d xs +:+ rest)
    = Some (x :: xs, rest).
Proof.
  induction xs as [|y ys IHxs]; intros x fuel rest Hx Hxs Tx Txs Hfuel.
  - destruct fuel as [|fuel]; [simpl in Hfuel; lia|]. simpl in Hfuel.
    cbn [parse_elements].
    rewrite (parse_value_ws fuel _ (render (S d) x +:+ render_items d [] +:+ rest))
      by apply skip_ws_newline.
    rewrite IH by (done || lia).
    cbn [render_items]. rewrite append_assoc, skip_ws_newline. reflexivity.
  - destruct fuel as [|fuel]; [simpl in Hfuel; lia|]. simpl in Hfuel.
    cbn [parse_elements].
    rewrite (parse_value_ws fuel _ (render (S d) x +:+ render_items d (y :: ys) +:+ rest))
      by apply skip_ws_newline.
    rewrite IH by (done || lia).
    cbn [render_items]. rewrite !append_assoc.
    change ("," +:+ ?s) with (String "," s). simpl skip_ws. cbv iota.
    change (Ascii.eqb "," ",") with true. cbv iota.
    inversion Hxs; subst. simpl in Txs. apply andb_true_iff in Txs as [Ty Tys].
    rewrite IHxs by (done || lia). reflexivity.
Qed.

Lemma parse_render_members d xs :
  ∀ k x fuel rest,
    (weight x ≤ n)%nat → Forall (λ p : string * json, (weight p.2 ≤ n)%nat) xs →
    textual x = true → forallb (fun p : string * json => textual p.2) xs = true →
    (S (weight x) + list_sum (map (fun p : string * json => S (weight p.2)) xs) ≤ fuel)%nat →
    parse_members fuel (newline (S d) +:+ quote k +:+ ": " +:+ render (S d) x +:+
                        render_members d xs +:+ rest)
    = Some ((k, x) :: xs, rest).
Proof.
  induction xs as [|[k' y] ys IHxs]; intros k x fuel rest Hx Hxs Tx Txs Hfuel.
  - destruct fuel as [|fuel]; [simpl in Hfuel; lia|]. simpl in Hfuel.
    cbn [parse_members]. rewrite skip_ws_newline.
    unfold quote at 1. rewrite append_cons. simpl skip_ws. cbv iota.
    change (Ascii.eqb dq dq) with true. cbv iota.
    rewrite !append_assoc. change (str dq +:+ ?s) with (String dq s).
    rewrite scan_escape, unquote_units.
    change (": " +:+ ?s) with (String ":" (String " " s)). simpl skip_ws. cbv iota.
    change (Ascii.eqb ":" ":") with true. cbv iota.
    rewrite (parse_value_ws _ _ _ (skip_ws_space _)).
    rewrite IH by (done || lia).
    cbn [render_members]. rewrite ?append_assoc, skip_ws_newline. reflexivity.
  - destruct fuel as [|fuel]; [simpl in Hfuel; lia|]. simpl in Hfuel.
    cbn [parse_members]. rewrite skip_ws_newline.
    unfold quote at 1. rewrite append_cons. simpl skip_ws. cbv iota.
    change (Ascii.eqb dq dq) with true. cbv iota.
    rewrite !append_assoc. change (str dq +:+ ?s) with (String dq s).
    rewrite scan_escape, unquote_units.
    change (": " +:+ ?s) with (String ":" (String " " s)). simpl skip_ws. cbv iota.
    change (Ascii.eqb ":" ":") with true. cbv iota.
    rewrite (parse_value_ws _ _ _ (skip_ws_space _)).
    rewrite IH by (done || lia).
    cbn [render_members]. rewrite ?append_assoc.
    change ("," +:+ ?s) with (String "," s). simpl skip_ws. cbv iota.
    change (Ascii.eqb "," ",") with true. cbv iota.
    inversion Hxs; subst. simpl in Txs. apply andb_true_iff in Txs as [Ty Tys].
    rewrite <- !append_assoc. rewrite !append_assoc.
    rewrite IHxs by (done || simpl in *; lia). reflexivity.
Qed.

End ParseRender.


Lemma list_sum_bound {A} (f : A → nat) (l : list A) (m : nat) :
  (list_sum (map f l) ≤ m)%nat → Forall (λ y, (f y ≤ m)%nat) l.
Proof.
  revert m. induction l as [|y l IHl]; intros m Hm; [constructor|].
  simpl in Hm. constructor; [lia|]. apply IHl. lia.
Qed.

(** Reading a written document gives the document back. *)
Lemma parse_render (n : nat) :
  ∀ v, (weight v ≤ n)%nat → textual v = true →
  ∀ d fuel rest, (weight v ≤ fuel)%nat →
    parse_value fuel (render d v +:+ rest) = Some (v, rest).
Proof.
  induction n as [|n IHn]; intros v Hw Ht d fuel rest Hfuel.
  { destruct v; simpl in Hw; lia. }
  destruct fuel as [|fuel]; [destruct v; simpl in Hfuel; lia|].
  destruct v as [|[]|num|s0|[|x xs]|[|[k x] xs]]; try done; try reflexivity.
  - apply parse_string_value.
  - (* a non-empty array *)
    simpl in Hw, Hfuel, Ht. apply andb_true_iff in Ht as [Tx Txs].
    rewrite render_arr, !append_assoc.
    change ("[" +:+ ?s) with (String "[" s). cbn [parse_value].
    simpl skip_ws at 1. cbv iota. change (Ascii.eqb "[" dq) with false.
    change (Ascii.eqb "[" "[") with true. cbv iota.
    destruct (render_head (S d) x (render_items d xs +:+ rest) Tx)
      as (c & s & Heq & Hws & Hb & _).
    assert (skip_ws (newline (S d) +:+ render (S d) x +:+ render_items d xs +:+ rest)
            = String c s) as ->.
    { by rewrite skip_ws_newline, Heq, skip_ws_head. }
    rewrite Hb.
    rewrite (parse_render_items n IHn d xs x fuel rest); try done; try lia.
    apply (Forall_impl (λ y, (S (weight y) ≤ n)%nat)); [|intros; lia].
    apply list_sum_bound. lia.
  - (* a non-empty object *)
    simpl in Hw, Hfuel, Ht. apply andb_true_iff in Ht as [Tx Txs].
    rewrite render_obj, !append_assoc.
    change ("{" +:+ ?s) with (String "{" s). cbn [parse_value].
    simpl skip_ws at 1. cbv iota. change (Ascii.eqb "{" dq) with false.
    change (Ascii.eqb "{" "[") with false. change (Ascii.eqb "{" "{") with true.
    cbv iota.
    assert (skip_ws (newline (S d) +:+ quote k +:+ ": " +:+ render (S d) x +:+
                     render_members d xs +:+ rest)
            = quote k +:+ ": " +:+ render (S d) x +:+ render_members d xs +:+ rest) as Hsk.
    { by rewrite skip_ws_newline. }
    rewrite Hsk at 1. unfold quote at 1. rewrite append_cons.
    change (Ascii.eqb dq "}") with false. cbv iota.
    rewrite (parse_render_members n IHn d xs k x fuel rest); try done; try lia.
    apply (Forall_impl (λ p : string * json, (S (weight p.2) ≤ n)%nat)); [|intros; lia].
    apply list_sum_bound. lia.
Qed.

(** The text of a document is at least as long as its weight. *)
Lemma length_newline d : (1 ≤ String.length (newline d))%nat.
Proof. unfold newline. simpl. lia. Qed.

Lemma weight_le_length (n : nat) :
  ∀ v, (weight v ≤ n)%nat → textual v = true →
  ∀ d, (weight v ≤ String.length (render d v))%nat.
Proof.
  induction n as [|n IHn]; intros v Hw Ht d.
  { destruct v; simpl in Hw; lia. }
  destruct v as [|[]|num|s0|[|x xs]|[|[k x] xs]]; try done; try (simpl; lia).
  - simpl in Hw, Ht. apply andb_true_iff in Ht as [Tx Txs].
    rewrite render_arr, !length_append.
    pose proof (length_newline (S d)).
    pose proof (IHn x ltac:(lia) Tx (S d)).
    assert (list_sum (map (fun y => S (weight y)) xs) ≤ String.length (render_items d xs))%nat;
      [|simpl; lia].
    assert (Forall (λ y, (S (weight y) ≤ n)%nat) xs) as Hall by (apply list_sum_bound; lia).
    clear Hw. induction xs as [|y ys IHys]; [simpl; lia|].
    inversion Hall; subst. simpl in Txs. apply andb_true_iff in Txs as [Ty Tys].
    cbn [render_items map list_sum]. rewrite !length_append.
    pose proof (IHn y ltac:(lia) Ty (S d)). specialize (IHys Tys ltac:(done)).
    simpl. lia.
  - simpl in Hw, Ht. apply andb_true_iff in Ht as [Tx Txs].
    rewrite render_obj, !length_append.
    pose proof (length_newline (S d)).
    pose proof (IHn x ltac:(lia) Tx (S d)).
    assert (list_sum (map (fun p : string * json => S (weight p.2)) xs)
            ≤ String.length (render_members d xs))%nat; [|simpl; lia].
    assert (Forall (λ p : string * json, (S (weight p.2) ≤ n)%nat) xs) as Hall
      by (apply list_sum_bound; lia).
    clear Hw. induction xs as [|[k' y] ys IHys]; [simpl; lia|].
    inversion Hall; subst. simpl in Txs. apply andb_true_iff in Txs as [Ty Tys].
    cbn [render_members map list_sum]. rewrite !length_append.
    pose proof (IHn y ltac:(simpl in *; lia) Ty (S d)). specialize (IHys Tys ltac:(done)).
    simpl in *. lia.
Qed.

Theorem parse_json_MarshalIndent (v : json) :
  textual v = true → parse_json (MarshalIndent v) = Ok v.
Proof.
  intros Ht. unfold parse_json, MarshalIndent.
  rewrite <- (append_nil_r (render 0 v)) at 2.
  rewrite (parse_render (weight v)); try done.
  pose proof (weight_le_length (weight v) v ltac:(done) Ht 0). lia.
Qed.

(** ** The ledger *)

Lemma textual_action a : textual (action_json a) = true.
Proof.
  unfold action_json, metadata_json. simpl.
  destruct (Metadata a) as [m|]; [|done]. simpl.
  rewrite !andb_true_r. induction (sorted_entries m); [done|]. done.
Qed.

Lemma textual_actions l : textual (actions_json l) = true.
Proof.
  unfold actions_json. simpl. induction l as [|a l IHl]; [done|].
  cbn [map forallb]. by rewrite textual_action, IHl.
Qed.

Lemma into_entries_strings (l : list (string * string)) (m0 : gmap string string) :
  into_entries (map (fun p : string * string => (p.1, JStr p.2)) l) m0
  = Ok (foldl put m0 l).
Proof.
  revert m0. induction l as [|[k v] l IHl]; intros m0; [done|].
  simpl. by rewrite IHl.
Qed.

Lemma foldl_put (l : list (string * string)) (m0 : gmap string string) :
  NoDup l.*1 → (∀ k, k ∈ l.*1 → m0 !! k = None) →
  foldl put m0 l = list_to_map l ∪ m0.
Proof.
  revert m0. induction l as [|[k v] l IHl]; intros m0 Hnd Hfresh.
  - simpl. by rewrite (left_id_L ∅ (∪)).
  - rewrite fmap_cons in Hnd, Hfresh. apply NoDup_cons in Hnd as [Hk Hnd].
    cbn [foldl]. rewrite IHl; [|done|].
    + rewrite list_to_map_cons. unfold put. cbn [fst snd].
      rewrite <- insert_union_l. symmetry.
      apply insert_union_r. by apply not_elem_of_list_to_map_1.
    + intros k' Hk'. unfold put. cbn [fst snd]. rewrite lookup_insert_ne.
      * apply Hfresh. by apply list_elem_of_further.
      * intros ->. done.
Qed.

Lemma into_map_metadata (m : option (gmap string string)) :
  into_map (metadata_json m) None = Ok m.
Proof.
  destruct m as [m|]; [|done].
  cbn [metadata_json into_map default]. rewrite into_entries_strings. do 2 f_equal.
  assert (sorted_entries m ≡ₚ map_to_list m) as Hperm by apply merge_sort_Permutation.
  rewrite foldl_put.
  - rewrite (right_id_L ∅ (∪)).
    rewrite (list_to_map_proper _ (map_to_list m)); [apply list_to_map_to_list| |done].
    rewrite Hperm. apply NoDup_fst_map_to_list.
  - rewrite Hperm. apply NoDup_fst_map_to_list.
  - intros k _. apply lookup_empty.
Qed.

Lemma into_action_json a : into_action (action_json a) = Ok a.
Proof.
  destruct a as [t p n ts m]. unfold action_json, into_action.
  cbn [into_fields Type_ TargetPod Namespace Timestamp Metadata].
  change (set_field "type" (JStr t) zeroAction) with (Ok (mkAction t "" "" "" None)).
  cbv iota.
  change (set_field "targetPod" (JStr p) (mkAction t "" "" "" None))
    with (Ok (mkAction t p "" "" None)).
  cbv iota.
  change (set_field "namespace" (JStr n) (mkAction t p "" "" None))
    with (Ok (mkAction t p n "" None)).
  cbv iota.
  change (set_field "timestamp" (JStr ts) (mkAction t p n "" None))
    with (Ok (mkAction t p n ts None)).
  cbv iota.
  change (set_field "metadata" (metadata_json m) (mkAction t p n ts None))
    with (match into_map (metadata_json m) None with
          | Ok m' => Ok (mkAction t p n ts m')
          | Err e => Err e
          end).
  by rewrite into_map_metadata.
Qed.

Lemma into_actions_json l : into_actions (actions_json l) = Ok l.
Proof.
  unfold actions_json, into_actions. induction l as [|a l IHl]; [done|].
  cbn [map into_actions_list]. by rewrite into_action_json, IHl.
Qed.

(** What [SaveAction] writes, [loadActions] reads back. *)
Theorem UnmarshalActions_MarshalActions (l : list ChaosAction) :
  UnmarshalActions (MarshalActions l) = Ok l.
Proof.
  unfold UnmarshalActions, MarshalActions.
  rewrite parse_json_MarshalIndent by apply textual_actions.
  apply into_actions_json.
Qed.

Lemma MarshalActions_not_empty (l : list ChaosAction) :
  (String.length (MarshalActions l) =? 0)%nat = false.
Proof. destruct l; reflexivity. Qed.

(** * Facts about the ledger *)

(** ** Timestamps *)
Lemma digit_value_digit (n : Z) : digit_value (digit n) = Some (n mod 10).
Proof.
  unfold digit.
  assert (0 ≤ n mod 10 < 10) as Hr by (apply Z.mod_pos_bound; lia).
  assert (n mod 10 = 0 ∨ n mod 10 = 1 ∨ n mod 10 = 2 ∨ n mod 10 = 3 ∨ n mod 10 = 4 ∨
          n mod 10 = 5 ∨ n mod 10 = 6 ∨ n mod 10 = 7 ∨ n mod 10 = 8 ∨ n mod 10 = 9)
    as Hcases by lia.
  destruct Hcases as [-> | [-> | [-> | [-> | [-> | [-> | [-> | [-> | [-> | ->]]]]]]]]];
    reflexivity.
Qed.

Lemma number2_digits (n : Z) :
  0 ≤ n < 100 → number2 (digit (n / 10)) (digit n) = Some n.
Proof.
  intros Hn. unfold number2. rewrite !digit_value_digit. f_equal.
  Z.div_mod_to_equations. lia.
Qed.

Lemma number4_digits (n : Z) :
  0 ≤ n < 10000 →
  number4 (digit (n / 10 / 10 / 10)) (digit (n / 10 / 10)) (digit (n / 10)) (digit n)
  = Some n.
Proof.
  intros Hn. unfold number4, number2. rewrite !digit_value_digit. f_equal.
  Z.div_mod_to_equations. lia.
Qed.

Lemma daysIn_le (y m : Z) : daysIn y m ≤ 31.
Proof. unfold daysIn. repeat case_match; lia. Qed.

(** A formatted time parses, to the fields it was formatted from. *)
Theorem ParseRFC3339_Format (t : Time) :
  ParseRFC3339 (FormatRFC3339 t)
  = Some (Year t, Month t, Day t, Hour t, Minute t, Second t).
Proof.
  destruct t as [y m d h n s Hok]. unfold FormatRFC3339. cbn [Year Month Day Hour Minute Second].
  pose proof Hok as Hok'. unfold time_fields_ok in Hok'.
  repeat (apply andb_true_iff in Hok' as [Hok' ?]).
  pose proof (daysIn_le y m).
  cbn [pad]. rewrite !append_cons, !append_nil_l. cbn [ParseRFC3339].
  change (Ascii.eqb "-" "-") with true. change (Ascii.eqb "T" "T") with true.
  change (Ascii.eqb ":" ":") with true. change (Ascii.eqb "Z" "Z") with true.
  cbn [andb].
  rewrite number4_digits by lia.
  rewrite !number2_digits by lia.
  by rewrite Hok.
Qed.

Lemma FormatRFC3339_not_empty (t : Time) : FormatRFC3339 t ≠ "".
Proof. unfold FormatRFC3339. cbn [pad]. rewrite !append_cons. discriminate. Qed.

Section StateFacts.
Context {C : Type} `{Interface C}.

Ltac sunfold :=
  unfold loadActions, LoadActions, writeActions, getStateFile, NotExist, ReadFile,
    MkdirAll, WriteFile, bind, ret in *.

Lemma loadActions_world (w : World C) : snd (loadActions w) = w.
Proof.
  sunfold. simpl. case_bool_decide as Hm; [done|].
  destruct (files (fs w) !! stateFile w) as [data|]; [|done].
  destruct (String.length data =? 0)%nat; [done|].
  by destruct (UnmarshalActions data).
Qed.

Lemma loadActions_absent (w : World C) :
  ledgerFile w = None → loadActions w = (Ok [], w).
Proof. unfold ledgerFile. intros Hf. sunfold. simpl. by rewrite bool_decide_eq_true_2. Qed.

Lemma loadActions_data (w : World C) (data : string) :
  ledgerFile w = Some data →
  loadActions w
  = (if (String.length data =? 0)%nat then Ok []
     else match UnmarshalActions data with
          | Ok actions => Ok actions
          | Err err => Err (ErrWrap "failed to unmarshal state file" err)
          end, w).
Proof.
  unfold ledgerFile. intros Hf. sunfold. simpl.
  rewrite bool_decide_eq_false_2 by congruence. rewrite Hf.
  destruct (String.length data =? 0)%nat; [done|].
  by destruct (UnmarshalActions data).
Qed.

Lemma loadActions_marshalled (w : World C) (l : list ChaosAction) :
  ledgerFile w = Some (MarshalActions l) → loadActions w = (Ok l, w).
Proof.
  intros Hf. rewrite (loadActions_data w _ Hf).
  by rewrite MarshalActions_not_empty, UnmarshalActions_MarshalActions.
Qed.

(** Writing the ledger on a writable file system. *)
Lemma writeActions_written (l : list ChaosAction) (what : string) (w : World C) :
  readonly (fs w) = false →
  ∃ w', writeActions l what w = (None, w') ∧
        ledgerFile w' = Some (MarshalActions l) ∧
        stateFile w' = stateFile w ∧ client w' = client w ∧ calls w' = calls w ∧
        log w' = log w ∧ ticks w' = ticks w ∧ readonly (fs w') = false ∧
        home (fs w') = home (fs w) ∧
        (∀ p, p ≠ stateFile w → files (fs w') !! p = files (fs w) !! p).
Proof.
  intros Hro. sunfold. simpl. rewrite Hro. simpl. rewrite Hro.
  eexists. split; [reflexivity|]. unfold ledgerFile. simpl.
  split_and!; try done.
  - apply lookup_insert_eq.
  - intros p Hp. by rewrite lookup_insert_ne.
Qed.

Lemma writeActions_refused (l : list ChaosAction) (what : string) (w : World C) :
  readonly (fs w) = true →
  ∃ e, writeActions l what w = (Some e, w).
Proof. intros Hro. sunfold. simpl. rewrite Hro. by eexists. Qed.


(** Loading looks at the ledger file only. *)
Lemma loadActions_same_file (w w' : World C) :
  ledgerFile w' = ledgerFile w → fst (loadActions w') = fst (loadActions w).
Proof.
  intros Hf. destruct (ledgerFile w) as [data|] eqn:Hd.
  - by rewrite (loadActions_data w data Hd), (loadActions_data w' data) by congruence.
  - by rewrite (loadActions_absent w Hd), (loadActions_absent w') by congruence.
Qed.

(** [SaveAction] stamps the action if need be, then loads and writes. *)
Lemma SaveAction_stamped (action : ChaosAction) (w : World C) :
  ∃ w0 : World C,
    SaveAction action w
    = (let! actions := loadActions in
       match actions with
       | Err err => ret (Some (ErrWrap "failed to load existing actions" err))
       | Ok actions =>
           writeActions (actions ++ [stamped action (clock w (ticks w))])
             "failed to write state file"
       end) w0 ∧
    ledgerFile w0 = ledgerFile w ∧ readonly (fs w0) = readonly (fs w).
Proof.
  unfold SaveAction, stamped. unfold bind at 1.
  destruct (String.eqb (Timestamp action) "").
  - unfold bind at 1, Now, ret. eexists. split; [reflexivity|done].
  - unfold ret at 1. eexists. split; [reflexivity|done].
Qed.

(** On a writable file system, with a ledger that loads, saving succeeds. *)
Lemma SaveAction_succeeds (action : ChaosAction) (l : list ChaosAction) (w : World C) :
  fst (LoadActions w) = Ok l → readonly (fs w) = false →
  ∃ w1, SaveAction action w = (None, w1).
Proof.
  unfold LoadActions. intros Hl Hro.
  destruct (SaveAction_stamped action w) as (w0 & -> & Hf0 & Hro0).
  unfold bind.
  pose proof (loadActions_world w0) as Hw0.
  pose proof (loadActions_same_file w w0 Hf0) as Hl0.
  destruct (loadActions w0) as [r w0'] eqn:Hload. cbn [fst snd] in Hw0, Hl0. subst w0'.
  rewrite Hl in Hl0. subst r. rewrite <- Hro0 in Hro.
  destruct (writeActions_written (l ++ [stamped action (clock w (ticks w))])
              "failed to write state file" w0 Hro) as (w1 & Hwr & _).
  by exists w1.
Qed.


(** ** Deleting *)
Lemma remove_first_None (a : ChaosAction) (l : list ChaosAction) :
  remove_first a l = None ↔ a ∉ l.
Proof.
  induction l as [|x l IHl]; simpl.
  - split; [intros _; apply not_elem_of_nil|done].
  - rewrite not_elem_of_cons. destruct (decide (x = a)) as [->|Hne].
    + split; [done|]. by intros [? _].
    + destruct (remove_first a l) eqn:Hr.
      * split; [done|]. intros [_ Hn]. by apply IHl in Hn.
      * split; [|done]. intros _. split; [done|]. by apply IHl.
Qed.

Lemma remove_first_Some (a : ChaosAction) (l r : list ChaosAction) :
  remove_first a l = Some r →
  ∃ l1 l2, l = l1 ++ (a :: l2) ∧ (a ∉ l1) ∧ r = l1 ++ l2.
Proof.
  revert r. induction l as [|x l IHl]; intros r; simpl; [done|].
  destruct (decide (x = a)) as [->|Hne].
  - intros [= <-]. exists [], l. split_and!; [done|apply not_elem_of_nil|done].
  - destruct (remove_first a l) as [r'|] eqn:Hr; [|done].
    intros [= <-]. destruct (IHl r' eq_refl) as (l1 & l2 & -> & Hn & ->).
    exists (x :: l1), l2. split_and!; [done| |done].
    apply not_elem_of_cons. split; [done|done].
Qed.

(** With a writable ledger that loads, [DeleteAction] writes back what
    [remove_first] leaves, and touches nothing but the ledger file. *)
Lemma DeleteAction_rewrites (action : ChaosAction) (l r : list ChaosAction) (w : World C) :
  fst (loadActions w) = Ok l → remove_first action l = Some r →
  readonly (fs w) = false →
  ∃ w1, DeleteAction action w = (None, w1) ∧ fst (loadActions w1) = Ok r ∧
        readonly (fs w1) = false ∧ stateFile w1 = stateFile w ∧
        client w1 = client w ∧ calls w1 = calls w ∧ log w1 = log w.
Proof.
  intros Hl Hr Hro. pose proof (loadActions_world w) as Hw.
  destruct (loadActions w) as [r0 w0] eqn:Hload. simpl in Hl, Hw. subst r0 w0.
  unfold DeleteAction, bind. rewrite Hload, Hr.
  destruct (writeActions_written r "failed to write state file" w Hro)
    as (w1 & Hwr & Hfile & Hsf & Hcl & Hca & Hlog & _ & Hro1 & _).
  exists w1. split_and!; try done. by rewrite (loadActions_marshalled w1 _ Hfile).
Qed.

Lemma DeleteAction_removes (action : ChaosAction) (l : list ChaosAction) (w : World C) :
  fst (loadActions w) = Ok l → action ∈ l → readonly (fs w) = false →
  ∃ l1 l2 w1, l = l1 ++ (action :: l2) ∧ (action ∉ l1) ∧
    DeleteAction action w = (None, w1) ∧ fst (loadActions w1) = Ok (l1 ++ l2) ∧
    readonly (fs w1) = false ∧ stateFile w1 = stateFile w ∧
    client w1 = client w ∧ calls w1 = calls w ∧ log w1 = log w.
Proof.
  intros Hl Hin Hro. destruct (remove_first action l) as [r|] eqn:Hr.
  - destruct (remove_first_Some _ _ _ Hr) as (l1 & l2 & Hsplit & Hn & ->).
    destruct (DeleteAction_rewrites action l _ w Hl Hr Hro) as (w1 & Hrun & Hrest).
    by exists l1, l2, w1.
  - by apply remove_first_None in Hr.
Qed.

(** C2.  Modelled from the spec.  With [l] the actions in the ledger:
    when no entry equals [action] in every field, [DeleteAction] fails
    with the not-found error and leaves the world as it was; otherwise
    (the ledger being writable) it removes the first such entry and no
    other, so that the ledger then holds [l1 ++ l2] where
    [l = l1 ++ action :: l2] and [action] is not in [l1].  In particular,
    of two saved actions that differ in their timestamps, deleting one
    leaves exactly the other. *)
Theorem DeleteAction_spec (action : ChaosAction) (l : list ChaosAction) (w : World C) :
  fst (LoadActions w) = Ok l →
  (action ∉ l → DeleteAction action w = (Some ErrNotFound, w)) ∧
  (action ∈ l → readonly (fs w) = false →
     ∃ l1 l2 w1, l = l1 ++ (action :: l2) ∧ (action ∉ l1) ∧
       DeleteAction action w = (None, w1) ∧
       fst (LoadActions w1) = Ok (l1 ++ l2)) ∧
  (∀ other, Timestamp other ≠ Timestamp action → readonly (fs w) = false →
     (l = [action; other] ∨ l = [other; action]) →
     ∃ w1, DeleteAction action w = (None, w1) ∧ fst (LoadActions w1) = Ok [other]).
Proof.
  unfold LoadActions. intros Hl. split_and!.
  - intros Hnot. apply remove_first_None in Hnot.
    pose proof (loadActions_world w) as Hw.
    destruct (loadActions w) as [r w0] eqn:Hload. simpl in Hl, Hw. subst r w0.
    unfold DeleteAction, bind. by rewrite Hload, Hnot.
  - intros Hin Hro.
    destruct (DeleteAction_removes action l w Hl Hin Hro)
      as (l1 & l2 & w1 & Hsplit & Hn & Hrun & Hld & _).
    by exists l1, l2, w1.
  - intros other Hts Hro Hshape.
    assert (other ≠ action) as Hne by (intros ->; done).
    assert (remove_first action l = Some [other]) as Hr.
    { destruct Hshape as [-> | ->]; cbn [remove_first].
      - by rewrite decide_True.
      - by rewrite decide_False, decide_True. }
    destruct (DeleteAction_rewrites action l _ w Hl Hr Hro) as (w1 & Hrun & Hld & _).
    by exists w1.
Qed.

End StateFacts.





(** Of two actions that differ in their timestamps only, deleting the
    earlier one leaves the later one. *)
Lemma DeleteAction_spec_witness :
  let w := exampleWorld noCluster (ledgerOf [earlier; later]) in
  fst (LoadActions w) = Ok [earlier; later] ∧
  ∃ w1, DeleteAction earlier w = (None, w1) ∧ fst (LoadActions w1) = Ok [later].
Proof.
  intros w. split; [vm_compute; reflexivity|].
  refine (proj2 (proj2 (DeleteAction_spec earlier [earlier; later] w _)) later _ _ _).
  - vm_compute; reflexivity.
  - discriminate.
  - reflexivity.
  - by left.
Defined.

(** * The rollback loop *)
Section RollbackFacts.
Context {C : Type} `{Interface C}.

Lemma onlyLogged_refl (w : World C) : onlyLogged w w.
Proof. exists []. destruct w. unfold set_log. simpl. by rewrite app_nil_r. Qed.

Lemma onlyLogged_trans (w1 w2 w3 : World C) :
  onlyLogged w1 w2 → onlyLogged w2 w3 → onlyLogged w1 w3.
Proof.
  intros [l1 ->] [l2 ->]. exists (l1 ++ l2). unfold set_log. simpl.
  by rewrite app_assoc.
Qed.

Lemma logline_onlyLogged (lv : Level) (msg : string) (w : World C) :
  onlyLogged w (snd (logline lv msg w)).
Proof. by exists [(lv, msg)]. Qed.

Lemma onlyLogged_loadActions (w w' : World C) :
  onlyLogged w w' → fst (loadActions w') = fst (loadActions w).
Proof. intros [lines ->]. by apply loadActions_same_file. Qed.

Lemma handleKillAction_logs (action : ChaosAction) (dryRun : bool) (w : World C) :
  fst (handleKillAction action dryRun w) = None ∧
  onlyLogged w (snd (handleKillAction action dryRun w)).
Proof.
  unfold handleKillAction, bind, utils_Warn, utils_DryRun, logline, ret.
  destruct dryRun; cbn [fst snd]; (split; [reflexivity|]).
  - eexists [_; _]. unfold set_log. cbn [log client calls fs stateFile clock ticks random draws].
    by rewrite <- app_assoc.
  - by eexists [_].
Qed.

Lemma rollbackAction_kill (action : ChaosAction) (dryRun : bool) :
  Type_ action = "kill" → rollbackAction action dryRun = handleKillAction action dryRun.
Proof. intros Hk. unfold rollbackAction. by rewrite Hk. Qed.

Lemma rollbackAction_unknown (action : ChaosAction) (dryRun : bool) :
  Type_ action ∉ knownTypes →
  rollbackAction action dryRun
  = ret (Some (ErrNew ("unknown action type: " +:+ Type_ action))).
Proof.
  intros Hn. unfold rollbackAction, knownTypes in *.
  rewrite !not_elem_of_cons in Hn. destruct Hn as (H1 & H2 & H3 & H4 & H5 & _).
  apply String.eqb_neq in H1, H2, H3, H4, H5.
  by rewrite H1, H2, H3, H4, H5.
Qed.

(** One turn of the loop, spelled out on the result of [rollbackAction]. *)
Lemma rollbackOne_unfold (dryRun : bool) (action : ChaosAction) (t : Tally) (w : World C) :
  rollbackOne dryRun action t w
  = match rollbackAction action dryRun (announced action w) with
    | (Some e, w1) =>
        (mkTally (successCount t) (failureCount t + 1) (failedActions t ++ [action]),
         snd (utils_Error ("Failed to rollback action: " +:+ Error e) w1))
    | (None, w1) =>
        (mkTally (successCount t + 1) (failureCount t) (failedActions t),
         if dryRun then w1
         else match DeleteAction action w1 with
              | (Some e, w2) =>
                  snd (utils_Warn ("Failed to remove action from state: " +:+ Error e) w2)
              | (None, w2) => w2
              end)
    end.
Proof.
  unfold rollbackOne, bind. unfold utils_Info at 1, logline at 1.
  fold (announced action w).
  destruct (rollbackAction action dryRun (announced action w)) as [[e|] w1]; [done|].
  destruct dryRun; cbn [negb]; [done|].
  by destruct (DeleteAction action w1) as [[e|] w2].
Qed.

Lemma rollbackEach_app (dryRun : bool) (xs ys : list ChaosAction) (t : Tally) (w : World C) :
  rollbackEach dryRun (xs ++ ys) t w
  = let (t1, w1) := rollbackEach dryRun xs t w in rollbackEach dryRun ys t1 w1.
Proof.
  revert t w. induction xs as [|x xs IH]; intros t w; [done|].
  cbn [rollbackEach app]. unfold bind.
  destruct (rollbackOne dryRun x t w) as [t' w']. apply IH.
Qed.

Lemma rollbackOne_counts (dryRun : bool) (action : ChaosAction) (t : Tally) (w : World C) :
  let t' := fst (rollbackOne dryRun action t w) in
  (successCount t' + failureCount t' = successCount t + failureCount t + 1)%Z ∧
  failureCount t' - failureCount t
  = Z.of_nat (length (failedActions t')) - Z.of_nat (length (failedActions t)).
Proof.
  rewrite rollbackOne_unfold.
  destruct (rollbackAction action dryRun (announced action w)) as [[e|] w1];
    cbn [fst successCount failureCount failedActions].
  - rewrite length_app. cbn [length]. lia.
  - lia.
Qed.

Lemma rollbackEach_counts (dryRun : bool) (actions : list ChaosAction) (t : Tally)
    (w : World C) :
  let t' := fst (rollbackEach dryRun actions t w) in
  (successCount t' + failureCount t'
   = successCount t + failureCount t + Z.of_nat (length actions))%Z ∧
  failureCount t' - failureCount t
  = Z.of_nat (length (failedActions t')) - Z.of_nat (length (failedActions t)).
Proof.
  revert t w. induction actions as [|a actions IH]; intros t w.
  - cbn [rollbackEach ret fst length]. lia.
  - cbn [rollbackEach]. unfold bind.
    pose proof (rollbackOne_counts dryRun a t w) as H1.
    destruct (rollbackOne dryRun a t w) as [t1 w1]. cbn [fst] in H1.
    specialize (IH t1 w1). cbn zeta in *. cbn [length]. lia.
Qed.

Lemma filterActions_nil (filterType filterPod : string) :
  filterActions [] filterType filterPod = [].
Proof. reflexivity. Qed.

(** With a ledger that loads and actions that pass the filters,
    [RollbackAll] runs the loop over the filtered actions, prints its
    summary and returns no error. *)
Lemma RollbackAll_runs (dryRun : bool) (filterType filterPod : string)
    (l : list ChaosAction) (w : World C) :
  fst (LoadActions w) = Ok l → filterActions l filterType filterPod ≠ [] →
  ∃ w0 w2, onlyLogged w w0 ∧
    RollbackAll dryRun filterType filterPod w = (None, w2) ∧
    onlyLogged (snd (rollbackEach dryRun (filterActions l filterType filterPod)
                       (mkTally 0 0 []) w0)) w2.
Proof.
  intros Hl Hne. unfold RollbackAll, LoadActions in *. unfold bind.
  unfold utils_Info at 1, logline at 1.
  set (wa := set_log (log w ++ [(INFO, "Starting rollback operation")]) w).
  pose proof (loadActions_world wa) as Hw.
  pose proof (loadActions_same_file w wa eq_refl) as Hf.
  destruct (loadActions wa) as [r wa'] eqn:Hload. simpl in Hw, Hf. subst wa'.
  rewrite Hl in Hf. subst r.
  destruct l as [|a l']; [done|]. cbn [length Nat.eqb].
  destruct (filterActions (a :: l') filterType filterPod) as [|b fl] eqn:Hfl; [done|].
  cbn [length Nat.eqb].
  unfold utils_Info at 1, logline at 1.
  match goal with |- context [rollbackEach dryRun (b :: fl) _ ?x] => set (w0 := x) end.
  exists w0.
  destruct (rollbackEach dryRun (b :: fl) (mkTally 0 0 []) w0) as [t w1] eqn:Heach.
  cbn [snd].
  assert (onlyLogged w w0) as H0.
  { apply (onlyLogged_trans _ wa); by eexists [_]. }
  destruct dryRun.
  - eexists. split; [exact H0|]. split; [reflexivity|]. by eexists [_].
  - destruct (0 <? length (failedActions t))%nat.
    + eexists. split; [exact H0|]. split; [reflexivity|].
      eexists [_; _]. unfold set_log.
      cbn [log client calls fs stateFile clock ticks random draws].
      by rewrite <- app_assoc.
    + eexists. split; [exact H0|]. split; [reflexivity|]. by eexists [_].
Qed.


(** * Removing the injected containers *)

Lemma removeOrWarn_unfold (ns pn name : string) (w : World C) :
  removeOrWarn ns pn name w
  = match removeEphemeralContainer ns pn name w with
    | (Some e, w1) =>
        (tt, set_log (log w1 ++ [(WARN, "Failed to remove ephemeral container '" +:+
                                        name +:+ "': " +:+ Error e)]) w1)
    | (None, w1) => (tt, w1)
    end.
Proof.
  unfold removeOrWarn, bind.
  by destruct (removeEphemeralContainer ns pn name w) as [[e|] w1].
Qed.

Lemma removeEphemeralContainer_files (ns pn name : string) (w : World C) :
  sameFiles w (snd (removeEphemeralContainer ns pn name w)).
Proof.
  unfold removeEphemeralContainer, bind, Pods_Get, Pods_Patch, request.
  destruct (PodsGet ns pn (client w)) as [[pod|e] c]; [|done].
  cbn [client set_client set_calls].
  match goal with |- context [PodsPatch ?a ?b ?c ?d ?e ?f] =>
    destruct (PodsPatch a b c d e f) as [[e'|] c'] end; done.
Qed.

Lemma removeOrWarn_files (ns pn name : string) (w : World C) :
  sameFiles w (snd (removeOrWarn ns pn name w)).
Proof.
  rewrite removeOrWarn_unfold.
  pose proof (removeEphemeralContainer_files ns pn name w) as Hf.
  by destruct (removeEphemeralContainer ns pn name w) as [[e|] w1].
Qed.

Lemma for_each_removeOrWarn_files (ns pn : string) (names : list string) (w : World C) :
  sameFiles w (snd (for_each names (removeOrWarn ns pn) w)).
Proof.
  revert w. induction names as [|name names IH]; intros w; [done|].
  cbn [for_each]. unfold bind.
  pose proof (removeOrWarn_files ns pn name w) as [Hf Hs].
  destruct (removeOrWarn ns pn name w) as [u w1]. cbn [snd] in Hf, Hs.
  destruct (IH w1) as [Hf' Hs']. split; congruence.
Qed.

(** Once the pod has been fetched, nothing makes [removeMatching] fail. *)
Lemma removeMatching_succeeds (isOurs : string → bool) (action : ChaosAction)
    (done_ : string) (pod : Pod) (c : C) (w : World C) :
  PodsGet (Namespace action) (TargetPod action) (client w) = (Ok pod, c) →
  fst (removeMatching isOurs action done_ w) = None ∧
  sameFiles w (snd (removeMatching isOurs action done_ w)).
Proof.
  intros Hget. unfold removeMatching, bind, Pods_Get, request. rewrite Hget.
  destruct (length (List.filter isOurs (map ec_Name (pod_EphemeralContainers pod))) =? 0)%nat.
  - done.
  - match goal with |- context [for_each ?names ?body ?x] =>
      pose proof (for_each_removeOrWarn_files (Namespace action) (TargetPod action) names x)
        as [Hf Hs];
      destruct (for_each names body x) as [u w1] end.
    cbn [snd] in Hf, Hs. done.
Qed.

Lemma rollbackAction_injected (action : ChaosAction) (pod : Pod) (c : C) (w : World C) :
  Type_ action ∈ ["latency"; "packetloss"; "cpustress"] →
  PodsGet (Namespace action) (TargetPod action) (client w) = (Ok pod, c) →
  fst (rollbackAction action false w) = None ∧
  sameFiles w (snd (rollbackAction action false w)).
Proof.
  intros Hty Hget. unfold rollbackAction.
  rewrite !elem_of_cons in Hty. destruct Hty as [-> | [-> | [-> | Hnil]]];
    [| | |by apply elem_of_nil in Hnil]; cbn [String.eqb Ascii.eqb Bool.eqb orb];
    unfold RevertTC, RemoveEphemeral, bind; unfold utils_Info at 1, logline at 1;
    match goal with |- context [removeMatching ?f ?a ?d ?x] =>
      destruct (removeMatching_succeeds f a d pod c x Hget) as (Hr & Hf & Hs) end;
    done.
Qed.


End RollbackFacts.



(** In that run the patch was asked for and refused, the failure was
    printed as a warning, the pod kept its container, and the ledger
    ended empty. *)
Example rollback_with_refused_patch :
  let r := RollbackAll false "" "" (exampleWorld stuckCluster (ledgerOf [earlier])) in
  fst r = None ∧
  fake_pods (client (snd r)) = [stuckPod] ∧
  fst (LoadActions (snd r)) = Ok [] ∧
  (WARN, "Failed to remove ephemeral container 'latency-injector-1672531200': " +:+
         "failed to remove ephemeral container: patch refused") ∈ log (snd r).
Proof.
  vm_compute. split_and!; try reflexivity.
  do 4 apply list_elem_of_further. apply list_elem_of_here.
Qed.

(** * More on the ledger *)
Section LedgerMore.
Context {C : Type} `{Interface C}.



Lemma writeActions_ok (l : list ChaosAction) (what : string) (w : World C) :
  readonly (fs w) = false →
  writeActions l what w
  = (None, set_fs (mkFS (<[stateFile w := MarshalActions l]> (files (fs w)))
                        (home (fs w)) (readonly (fs w))) w).
Proof.
  intros Hro. unfold writeActions, getStateFile, MkdirAll, WriteFile, bind, ret.
  cbn. rewrite Hro. cbn. by rewrite Hro.
Qed.

Lemma writeActions_readonly (l : list ChaosAction) (what : string) (w : World C) :
  readonly (fs w) = true →
  writeActions l what w
  = (Some (ErrWrap "failed to create state directory"
             (ErrOS ("mkdir " +:+ Dir (stateFile w) +:+ ": read-only file system"))), w).
Proof.
  intros Hro. unfold writeActions, getStateFile, MkdirAll, bind, ret.
  by rewrite Hro.
Qed.

(** The world in which [SaveAction] loads and writes: the clock has been
    read if the action came without a timestamp. *)
Lemma SaveAction_run (action : ChaosAction) (w : World C) :
  ∃ w0 : World C,
    SaveAction action w
    = match loadActions w0 with
      | (Err err, w1) => (Some (ErrWrap "failed to load existing actions" err), w1)
      | (Ok actions, w1) =>
          writeActions (actions ++ [stamped action (clock w (ticks w))])
            "failed to write state file" w1
      end ∧
    fs w0 = fs w ∧ stateFile w0 = stateFile w ∧ clock w0 = clock w ∧
    client w0 = client w ∧ calls w0 = calls w ∧ log w0 = log w ∧
    ticks w0 = (if String.eqb (Timestamp action) "" then S (ticks w) else ticks w).
Proof.
  unfold SaveAction, stamped. unfold bind at 1.
  destruct (String.eqb (Timestamp action) "").
  - unfold bind at 1, Now, ret. unfold bind. exists (set_ticks (S (ticks w)) w).
    split; [|done]. by destruct (loadActions _) as [[l|e] w1].
  - unfold ret at 1. unfold bind. exists w. split; [|done].
    by destruct (loadActions w) as [[l|e] w1].
Qed.

(** Saving, on a ledger that loads and can be written. *)
Lemma SaveAction_appends (action : ChaosAction) (olds : list ChaosAction) (w : World C) :
  fst (LoadActions w) = Ok olds → readonly (fs w) = false →
  ∃ w1, SaveAction action w = (None, w1) ∧
        fst (LoadActions w1) = Ok (olds ++ [stamped action (clock w (ticks w))]) ∧
        readonly (fs w1) = false ∧ clock w1 = clock w ∧
        ticks w1 = (if String.eqb (Timestamp action) "" then S (ticks w) else ticks w).
Proof.
  unfold LoadActions. intros Hl Hro.
  destruct (SaveAction_run action w) as (w0 & -> & Hfs & Hsf & Hck & _ & _ & _ & Htk).
  pose proof (loadActions_world w0) as Hw0.
  assert (fst (loadActions w0) = Ok olds) as Hl0.
  { rewrite <- Hl. apply loadActions_same_file. unfold ledgerFile. by rewrite Hfs, Hsf. }
  destruct (loadActions w0) as [r w0'] eqn:Hload. cbn [fst snd] in Hw0, Hl0. subst w0' r.
  rewrite writeActions_ok by (by rewrite Hfs).
  eexists. split; [reflexivity|]. split_and!.
  - erewrite loadActions_marshalled; [done|]. unfold ledgerFile. cbn. apply lookup_insert_eq.
  - cbn. by rewrite Hfs.
  - by cbn.
  - by cbn.
Qed.



End LedgerMore.



(** * More on the rollback engine *)
Section RollbackMore.
Context {C : Type} `{Interface C}.

Lemma quiet_ret {A} (a : A) : quiet (ret (C := C) a).
Proof. intros w. apply onlyLogged_refl. Qed.

Lemma quiet_bind {A B} (m : M C A) (k : A → M C B) :
  quiet m → (∀ a, quiet (k a)) → quiet (bind m k).
Proof.
  intros Hm Hk w. unfold bind. specialize (Hm w).
  destruct (m w) as [a w1]. cbn [snd] in Hm.
  eapply onlyLogged_trans; [exact Hm|apply Hk].
Qed.

Lemma quiet_logline (lv : Level) (msg : string) : quiet (logline (C := C) lv msg).
Proof. intros w. apply logline_onlyLogged. Qed.

Lemma quiet_UserHomeDir : quiet (UserHomeDir (C := C)).
Proof. intros w. unfold UserHomeDir. destruct (home (fs w)); apply onlyLogged_refl. Qed.

Lemma quiet_loadActions : quiet (loadActions (C := C)).
Proof. intros w. rewrite loadActions_world. apply onlyLogged_refl. Qed.

Ltac quiet_step :=
  first [ apply quiet_ret
        | apply quiet_logline
        | apply quiet_UserHomeDir
        | apply quiet_loadActions
        | apply quiet_bind; [|intros ?] ].

Lemma quiet_rollbackAction_dry (action : ChaosAction) : quiet (rollbackAction action true).
Proof.
  unfold rollbackAction.
  destruct (_ || _).
  { unfold RevertTC. repeat quiet_step. }
  destruct (String.eqb (Type_ action) "cpustress").
  { unfold RemoveEphemeral. repeat quiet_step. }
  destruct (String.eqb (Type_ action) "misroute").
  { unfold RestoreEndpoints. quiet_step; [quiet_step|].
    quiet_step.
    - destruct (default ∅ (Metadata action) !! "backupPath"); [quiet_step|].
      quiet_step; [quiet_step|]. destruct a0; quiet_step.
    - destruct a0; repeat quiet_step. }
  destruct (String.eqb (Type_ action) "kill").
  { intros w. apply handleKillAction_logs. }
  quiet_step.
Qed.

Lemma quiet_rollbackEach_dry (actions : list ChaosAction) (t : Tally) :
  quiet (rollbackEach true actions t).
Proof.
  revert t. induction actions as [|a actions IH]; intros t; cbn [rollbackEach].
  - quiet_step.
  - quiet_step; [|apply IH]. unfold rollbackOne.
    quiet_step; [quiet_step|]. quiet_step; [apply quiet_rollbackAction_dry|].
    destruct a1; repeat quiet_step.
Qed.

Lemma quiet_RollbackAll_dry (filterType filterPod : string) :
  quiet (RollbackAll true filterType filterPod).
Proof.
  unfold RollbackAll, LoadActions. quiet_step; [quiet_step|].
  quiet_step; [quiet_step|]. destruct a0 as [actions|e]; [|quiet_step].
  destruct (length actions =? 0)%nat; [repeat quiet_step|].
  destruct (length (filterActions actions filterType filterPod) =? 0)%nat;
    [repeat quiet_step|].
  quiet_step; [quiet_step|]. quiet_step; [apply quiet_rollbackEach_dry|].
  repeat quiet_step.
Qed.

(** X5.  A dry run of the rollback changes nothing: whatever the ledger
    holds and whatever the filters, [RollbackAll] in dry run sends no
    request to the API server, leaves the cluster and every file
    (ledger and backups) as they are, and only prints.  It returns an
    error only when the ledger cannot be loaded. *)
Theorem RollbackAll_dry_run (filterType filterPod : string) (w : World C) :
  let r := RollbackAll true filterType filterPod w in
  calls (snd r) = calls w ∧ client (snd r) = client w ∧ fs (snd r) = fs w ∧
  match fst (LoadActions w) with
  | Ok _ => fst r = None
  | Err e => fst r = Some (ErrWrap "failed to load actions from state" e)
  end.
Proof.
  cbn zeta. destruct (quiet_RollbackAll_dry filterType filterPod w) as [lines Hw].
  rewrite Hw. split_and!; try done.
  clear Hw lines. unfold LoadActions.
  set (wa := set_log (log w ++ [(INFO, "Starting rollback operation")]) w).
  pose proof (loadActions_world wa) as Hwa.
  pose proof (loadActions_same_file w wa eq_refl) as Hf.
  assert (RollbackAll true filterType filterPod w
          = (let! actions := LoadActions in
             match actions with
             | Err err => ret (Some (ErrWrap "failed to load actions from state" err))
             | Ok actions =>
               if (length actions =? 0)%nat then
                 do! utils_Info "No actions found to rollback" ;; ret None
               else
                 let filteredActions := filterActions actions filterType filterPod in
                 if (length filteredActions =? 0)%nat then
                   do! utils_Info "No actions match the specified filters" ;; ret None
                 else
                   do! utils_Info ("Found " +:+ len filteredActions +:+
                                   " action(s) to rollback") ;;
                   let! t := rollbackEach true filteredActions (mkTally 0 0 []) in
                   do! utils_Info ("Dry run completed: " +:+ len filteredActions +:+
                                   " action(s) would be rolled back") ;;
                   ret None
             end) wa) as -> by reflexivity.
  unfold LoadActions, bind.
  destruct (loadActions wa) as [r wa'] eqn:Hload. cbn [fst snd] in Hwa, Hf. subst wa'.
  rewrite <- Hf. destruct r as [actions|e]; [|done].
  destruct (length actions =? 0)%nat; [done|]. cbn zeta.
  destruct (length (filterActions actions filterType filterPod) =? 0)%nat; [done|].
  destruct (utils_Info _ wa) as [u1 w1].
  destruct (rollbackEach true _ _ w1) as [t w2].
  by destruct (utils_Info _ w2) as [u2 w3].
Qed.

(** After its first line [RollbackAll] loads the ledger, which changes
    nothing, and goes on by what it found. *)
Lemma RollbackAll_loaded (dryRun : bool) (filterType filterPod : string) (w : World C) :
  RollbackAll dryRun filterType filterPod w
  = match fst (LoadActions w) with
    | Err err => ret (Some (ErrWrap "failed to load actions from state" err))
    | Ok actions =>
      if (length actions =? 0)%nat then
        do! utils_Info "No actions found to rollback" ;; ret None
      else
        let filteredActions := filterActions actions filterType filterPod in
        if (length filteredActions =? 0)%nat then
          do! utils_Info "No actions match the specified filters" ;; ret None
        else
          do! utils_Info ("Found " +:+ len filteredActions +:+ " action(s) to rollback") ;;
          let! t := rollbackEach dryRun filteredActions (mkTally 0 0 []) in
          do! (if dryRun then
                 utils_Info ("Dry run completed: " +:+ len filteredActions +:+
                             " action(s) would be rolled back")
               else
                 do! utils_Info ("Rollback completed: " +:+ itoa (successCount t) +:+
                                 " successful, " +:+ itoa (failureCount t) +:+ " failed") ;;
                 if (0 <? length (failedActions t))%nat then
                   utils_Warn ("Failed to rollback " +:+ len (failedActions t) +:+
                               " action(s)")
                 else ret tt) ;;
          ret None
    end (set_log (log w ++ [(INFO, "Starting rollback operation")]) w).
Proof.
  unfold LoadActions.
  set (wa := set_log (log w ++ [(INFO, "Starting rollback operation")]) w).
  pose proof (loadActions_world wa) as Hwa.
  pose proof (loadActions_same_file w wa eq_refl) as Hf.
  unfold RollbackAll. unfold bind at 1. unfold utils_Info at 1, logline at 1.
  fold wa. unfold bind at 1. unfold LoadActions.
  destruct (loadActions wa) as [r wa'] eqn:Hload. cbn [fst snd] in Hwa, Hf. subst wa'.
  rewrite <- Hf. by destruct r.
Qed.

(** X6.  With nothing to do [RollbackAll] stops early, in dry run or
    not.  If the ledger cannot be loaded it returns that error, wrapped.
    If the ledger is empty or absent, or no action passes the filters,
    it says so and succeeds.  In each case it prints its first line and
    at most one more, and does nothing else. *)
Theorem RollbackAll_nothing_to_do (dryRun : bool) (filterType filterPod : string)
    (w : World C) :
  (∀ e, fst (LoadActions w) = Err e →
     RollbackAll dryRun filterType filterPod w
     = (Some (ErrWrap "failed to load actions from state" e),
        set_log (log w ++ [(INFO, "Starting rollback operation")]) w)) ∧
  (fst (LoadActions w) = Ok [] →
     RollbackAll dryRun filterType filterPod w
     = (None, set_log (log w ++ [(INFO, "Starting rollback operation");
                                 (INFO, "No actions found to rollback")]) w)) ∧
  (∀ l, fst (LoadActions w) = Ok l → l ≠ [] → filterActions l filterType filterPod = [] →
     RollbackAll dryRun filterType filterPod w
     = (None, set_log (log w ++ [(INFO, "Starting rollback operation");
                                 (INFO, "No actions match the specified filters")]) w)).
Proof.
  split_and!.
  - intros e He. by rewrite RollbackAll_loaded, He.
  - intros Hl. rewrite RollbackAll_loaded, Hl. cbn [length Nat.eqb].
    unfold bind, utils_Info, logline, ret, set_log. cbn. by rewrite <- app_assoc.
  - intros l Hl Hne Hf. rewrite RollbackAll_loaded, Hl.
    destruct l as [|a l]; [done|]. cbn [length Nat.eqb]. cbn zeta. rewrite Hf.
    cbn [length Nat.eqb].
    unfold bind, utils_Info, logline, ret, set_log. cbn. by rewrite <- app_assoc.
Qed.

(** Outside dry run, once the path of the backup is known. *)
Lemma RestoreEndpoints_at (action : ChaosAction) (path : string) (w : World C) :
  (default ∅ (Metadata action) !! "backupPath" = Some path ∨
   default ∅ (Metadata action) !! "backupPath" = None ∧
   ∃ h, home (fs w) = Some h ∧
        path = backupPath h (TargetPod action) (Namespace action)) →
  RestoreEndpoints action false w
  = (let! backupData := ReadFile path in
     match backupData with
     | Err err => ret (Some (ErrWrap ("failed to read backup file " +:+ path) err))
     | Ok backupData =>
       match UnmarshalEndpoints backupData with
       | Err err => ret (Some (ErrWrap "failed to unmarshal backup endpoints" err))
       | Ok backupEndpoints =>
         let! err := Endpoints_Update (Namespace action) backupEndpoints in
         match err with
         | Some e => ret (Some (ErrWrap "failed to restore endpoints" e))
         | None =>
             let! err := Remove path in
             do! (match err with
                  | Some e => utils_Warn ("Failed to remove backup file " +:+ path +:+
                                          ": " +:+ Error e)
                  | None => ret tt
                  end) ;;
             do! utils_Info ("Successfully restored endpoints for service '" +:+
                             TargetPod action +:+ "'") ;;
             ret None
         end
       end
     end)
    (set_log (log w ++ [(INFO, "Restoring endpoints for service '" +:+ TargetPod action +:+
                               "' in namespace '" +:+ Namespace action +:+ "'")]) w).
Proof.
  intros Hpath. unfold RestoreEndpoints. unfold bind at 1.
  unfold utils_Info at 1, logline at 1. unfold bind at 1.
  destruct Hpath as [Hm | (Hm & h & Hh & ->)]; rewrite Hm.
  - reflexivity.
  - unfold bind at 1. unfold UserHomeDir at 1. cbn [fs set_log]. rewrite Hh. reflexivity.
Qed.

(** X7.  Restoring a service's endpoints outside dry run, from the
    backup file named by the action's metadata or else rebuilt from the
    home directory, the service and the namespace.  Without the file, or
    with a file that does not decode, it fails and sends no request.
    Otherwise it sends one update, with the endpoints read from the file;
    if the update fails it returns that error and keeps the backup; if
    it succeeds the backup is deleted (on a read-only file system it
    stays, with a warning) and the action succeeds. *)
Theorem RestoreEndpoints_spec (action : ChaosAction) (path : string) (w : World C) :
  (default ∅ (Metadata action) !! "backupPath" = Some path ∨
   default ∅ (Metadata action) !! "backupPath" = None ∧
   ∃ h, home (fs w) = Some h ∧
        path = backupPath h (TargetPod action) (Namespace action)) →
  let r := RestoreEndpoints action false w in
  (files (fs w) !! path = None →
     fst r = Some (ErrWrap ("failed to read backup file " +:+ path)
                     (ErrOS ("open " +:+ path +:+ ": no such file or directory"))) ∧
     calls (snd r) = calls w ∧ client (snd r) = client w ∧ fs (snd r) = fs w) ∧
  (∀ data e, files (fs w) !! path = Some data → UnmarshalEndpoints data = Err e →
     fst r = Some (ErrWrap "failed to unmarshal backup endpoints" e) ∧
     calls (snd r) = calls w ∧ client (snd r) = client w ∧ fs (snd r) = fs w) ∧
  (∀ data eps, files (fs w) !! path = Some data → UnmarshalEndpoints data = Ok eps →
     calls (snd r) = calls w ++ [CallEndpointsUpdate (Namespace action) eps] ∧
     client (snd r) = snd (EndpointsUpdate (Namespace action) eps (client w)) ∧
     match fst (EndpointsUpdate (Namespace action) eps (client w)) with
     | Some e =>
         fst r = Some (ErrWrap "failed to restore endpoints" e) ∧ fs (snd r) = fs w
     | None =>
         fst r = None ∧
         files (fs (snd r))
         = (if readonly (fs w) then files (fs w) else delete path (files (fs w)))
     end).
Proof.
  intros Hpath. cbn zeta. rewrite (RestoreEndpoints_at action path w Hpath).
  unfold bind, ReadFile, Endpoints_Update, request, Remove, utils_Warn, utils_Info,
    logline, ret.
  change (fs (set_log ?l w)) with (fs w).
  change (client (set_log ?l w)) with (client w).
  change (calls (set_log ?l w)) with (calls w).
  split_and!.
  - intros ->. done.
  - intros data e -> He. by rewrite He.
  - intros data eps Hfile Hd. rewrite Hfile, Hd.
    change (client (set_log ?l w)) with (client w).
    change (calls (set_log ?l w)) with (calls w).
    destruct (EndpointsUpdate (Namespace action) eps (client w)) as [[e|] c1];
      cbn [fst snd]; [done|].
    change (fs (set_client ?c (set_calls ?l (set_log ?l' w)))) with (fs w).
    rewrite Hfile. destruct (readonly (fs w)) eqn:Hro; cbn; done.
Qed.

End RollbackMore.

(** The backup of the web service is sent back and then deleted. *)
Lemma RestoreEndpoints_spec_witness :
  let w := exampleWorld misroutedCluster backedUp in
  let r := RestoreEndpoints misrouted false w in
  (default ∅ (Metadata misrouted) !! "backupPath" = None ∧
   home (fs w) = Some "/home/u") ∧
  fst r = None ∧
  calls (snd r) = [CallEndpointsUpdate "default" webEndpoints] ∧
  files (fs (snd r)) = delete "/home/u/.tipsy/rollback/web_default.json" (files (fs w)).
Proof.
  intros w r. split; [split; reflexivity|].
  destruct (RestoreEndpoints_spec misrouted "/home/u/.tipsy/rollback/web_default.json" w)
    as (_ & _ & H).
  { right. split; [reflexivity|]. exists "/home/u". split; reflexivity. }
  destruct (H (MarshalEndpoints webEndpoints) webEndpoints) as (Hc & _ & Hr).
  { reflexivity. }
  { vm_compute. reflexivity. }
  destruct Hr as [Hr Hf]. split_and!; [exact Hr|exact Hc|exact Hf].
Defined.

(** * Which containers a rollback removes *)

Lemma HasPrefix_append (p s : string) : HasPrefix (p +:+ s) p = true.
Proof.
  induction p as [|c p IH]; [done|]. rewrite append_cons. cbn [HasPrefix].
  by rewrite Ascii.eqb_refl.
Qed.

Lemma HasPrefix_shorter (s p q : string) :
  HasPrefix s (p +:+ q) = true → HasPrefix s p = true.
Proof.
  revert s. induction p as [|c p IH]; intros s; [done|].
  rewrite append_cons. cbn [HasPrefix]. destruct s as [|b s]; [done|].
  destruct (Ascii.eqb c b); [apply IH|done].
Qed.

Lemma Contains_head (s sub : string) : HasPrefix s sub = true → Contains s sub = true.
Proof. intros Hp. destruct s; cbn [Contains]; by rewrite Hp. Qed.

Lemma Contains_shorter (s p q : string) :
  Contains s (p +:+ q) = true → Contains s p = true.
Proof.
  induction s as [|b s IH]; cbn [Contains].
  - destruct (HasPrefix "" (p +:+ q)) eqn:Hp; [|done].
    intros _. by rewrite (HasPrefix_shorter _ _ _ Hp).
  - destruct (HasPrefix (String b s) (p +:+ q)) eqn:Hp.
    + intros _. by rewrite (HasPrefix_shorter _ _ _ Hp).
    + intros Hc. destruct (HasPrefix (String b s) p); [done|]. by apply IH.
Qed.

(** A text without the first character of [sub] does not contain [sub]. *)
Lemma Contains_without (a : ascii) (sub s : string) :
  Forall (λ c, c ≠ a) (list_ascii_of_string s) → Contains s (String a sub) = false.
Proof.
  induction s as [|b s IH]; intros Hall; [done|].
  cbn [list_ascii_of_string] in Hall. apply Forall_cons in Hall as [Hb Hall].
  cbn [Contains HasPrefix]. destruct (Ascii.eqb_spec a b) as [->|_]; [done|].
  by apply IH.
Qed.

(** Decimal numerals are made of digits and at most a sign. *)
Lemma pretty_N_char_digit (x : N) : is_digit (pretty_N_char x) = true.
Proof. unfold pretty_N_char. by repeat case_match. Qed.

Lemma pretty_N_go_chars (P : ascii → Prop) (x : N) (s : string) :
  (∀ c, is_digit c = true → P c) →
  Forall P (list_ascii_of_string s) →
  Forall P (list_ascii_of_string (pretty_N_go x s)).
Proof.
  intros HP. revert s. induction (N.lt_wf_0 x) as [x _ IH]; intros s Hs.
  destruct (decide (x = 0)%N) as [->|Hx]; [by rewrite pretty_N_go_0|].
  rewrite pretty_N_go_step by lia. apply IH.
  - apply N.div_lt; lia.
  - cbn [list_ascii_of_string]. apply Forall_cons. split; [|done].
    apply HP, pretty_N_char_digit.
Qed.

Lemma itoa_chars (P : ascii → Prop) (z : Z) :
  (∀ c, is_digit c = true → P c) → P "-"%char →
  Forall P (list_ascii_of_string (itoa z)).
Proof.
  intros HP Hdash.
  assert (∀ x : N, Forall P (list_ascii_of_string (pretty x))) as HN.
  { intros x. unfold pretty, pretty_N. case_decide.
    - cbn. apply Forall_cons. split; [by apply HP|constructor].
    - apply pretty_N_go_chars; [done|constructor]. }
  destruct z as [|p|p].
  - apply (HN 0%N).
  - apply (HN (N.pos p)).
  - change (Forall P (list_ascii_of_string (String "-" (pretty (N.pos p))))).
    cbn [list_ascii_of_string]. apply Forall_cons. split; [done|]. apply HN.
Qed.

(** X8.  Which ephemeral containers a rollback takes for its own.  The
    names the injectors give (a fixed prefix and the Unix time) are
    recognised: netem containers by the rollback of latency and packet
    loss, stress containers by the rollback of CPU stress.  The test of
    [RemoveEphemeral] comes down to the name containing [tipsy-], so that
    the rollback of a latency or packet loss action removes every
    container the rollback of a CPU stress action would remove, while the
    rollback of a CPU stress action leaves the netem containers in the
    pod. *)
Theorem container_name_tests :
  (∀ name, isStressContainer name = Contains name "tipsy-") ∧
  (∀ name, isStressContainer name = true → isNetemContainer name = true) ∧
  (∀ z, isNetemContainer ("latency-injector-" +:+ itoa z) = true ∧
        isNetemContainer ("packetloss-injector-" +:+ itoa z) = true ∧
        isStressContainer ("tipsy-cpu-stress-" +:+ itoa z) = true ∧
        isNetemContainer ("tipsy-cpu-stress-" +:+ itoa z) = true) ∧
  (∀ z, isStressContainer ("latency-injector-" +:+ itoa z) = false ∧
        isStressContainer ("packetloss-injector-" +:+ itoa z) = false).
Proof.
  assert (∀ name, isStressContainer name = Contains name "tipsy-") as Hstress.
  { intros name. unfold isStressContainer.
    destruct (Contains name "tipsy-cpu-stress") eqn:Hc; [|done].
    symmetry. by apply (Contains_shorter name "tipsy-" "cpu-stress"). }
  assert (∀ z, Forall (λ c, c ≠ "t"%char) (list_ascii_of_string (itoa z))) as Hdigits.
  { intros z. apply itoa_chars; [|done].
    intros c Hc ->. done. }
  split_and!.
  - exact Hstress.
  - intros name. rewrite Hstress. unfold isNetemContainer. intros ->.
    by rewrite !orb_true_r.
  - intros z. unfold isNetemContainer. rewrite !Hstress.
    assert (Contains ("latency-injector-" +:+ itoa z) "latency-injector" = true) as ->.
    { apply Contains_head. exact (HasPrefix_append "latency-injector" ("-" +:+ itoa z)). }
    assert (Contains ("packetloss-injector-" +:+ itoa z) "packetloss-injector" = true)
      as ->.
    { apply Contains_head.
      exact (HasPrefix_append "packetloss-injector" ("-" +:+ itoa z)). }
    assert (Contains ("tipsy-cpu-stress-" +:+ itoa z) "tipsy-" = true) as ->.
    { apply Contains_head. exact (HasPrefix_append "tipsy-" ("cpu-stress-" +:+ itoa z)). }
    by rewrite !orb_true_r.
  - intros z. rewrite !Hstress. specialize (Hdigits z).
    split.
    + rewrite !append_cons, append_nil_l. cbn [Contains HasPrefix Ascii.eqb Bool.eqb].
      by apply Contains_without.
    + rewrite !append_cons, append_nil_l. cbn [Contains HasPrefix Ascii.eqb Bool.eqb].
      by apply Contains_without.
Qed.

Section RemoveContainer.
Context {C : Type} `{Interface C}.

(** X9.  Removing one ephemeral container.  When the pod cannot be
    fetched the removal fails and no patch is sent.  Otherwise one patch
    is sent, failing or not, that lists the pod's ephemeral containers in
    their order without those of the given name, whether or not the pod
    had one of that name; when none is left the patch carries [null] in
    place of the list. *)
Theorem removeEphemeralContainer_spec (ns podName containerName : string) (w : World C) :
  let r := removeEphemeralContainer ns podName containerName w in
  match PodsGet ns podName (client w) with
  | (Err e, c1) =>
      fst r = Some (ErrWrap "failed to get pod" e) ∧
      calls (snd r) = calls w ++ [CallPodsGet ns podName] ∧ client (snd r) = c1
  | (Ok pod, c1) =>
      let kept := List.filter (λ c, negb (String.eqb (ec_Name c) containerName))
                    (pod_EphemeralContainers pod) in
      let body := removalPatch kept in
      fst r = match fst (PodsPatch ns podName StrategicMergePatchType body
                           "ephemeralContainers" c1) with
              | Some e => Some (ErrWrap "failed to remove ephemeral container" e)
              | None => None
              end ∧
      calls (snd r)
      = calls w ++ [CallPodsGet ns podName;
                    CallPodsPatch ns podName StrategicMergePatchType body
                      "ephemeralContainers"] ∧
      (∀ c, c ∈ kept ↔ c ∈ pod_EphemeralContainers pod ∧ ec_Name c ≠ containerName) ∧
      kept `sublist_of` pod_EphemeralContainers pod ∧
      patchedContainers body
      = (if (length kept =? 0)%nat then None else Some (map container_json kept)) ∧
      (kept = [] → body = JObj [("spec", JObj [("ephemeralContainers", JNull)])])
  end.
Proof.
  cbn zeta. unfold removeEphemeralContainer, bind, Pods_Get, Pods_Patch, request.
  destruct (PodsGet ns podName (client w)) as [[pod|e] c1].
  2: { by cbn. }
  change (client (set_client c1 ?x)) with c1.
  set (kept := List.filter _ (pod_EphemeralContainers pod)).
  destruct (PodsPatch ns podName StrategicMergePatchType (removalPatch kept)
              "ephemeralContainers" c1) as [[e|] c2]; cbn [fst snd].
  all: split; [done|]; split; [cbn; by rewrite <- app_assoc|].
  all: split_and!.
  all: try (intros c; unfold kept; rewrite !list_elem_of_In, filter_In,
              negb_true_iff, String.eqb_neq; done).
  all: try (unfold kept; clear; induction (pod_EphemeralContainers pod) as [|c l IH];
              [constructor|]; cbn [List.filter];
              destruct (negb _); [by constructor|by apply sublist_cons]).
  all: try (by destruct kept).
Qed.

End RemoveContainer.

(** * More on misrouting *)

(** Building the subsets never fails. *)
Lemma buildEndpointSubsetsFromPods_ok (pods : list Pod) (servicePorts : list ServicePort) :
  ∃ subsets, buildEndpointSubsetsFromPods pods servicePorts = Ok subsets.
Proof.
  unfold buildEndpointSubsetsFromPods.
  destruct (length servicePorts =? 0)%nat; [by eexists|].
  destruct (groupPods pods [] []) as [ready notReady]. by eexists.
Qed.

(** X10.  The subsets built for the replacement, in closed form.  The
    function never fails.  For a service without ports it builds no
    subset, whatever the pods.  Otherwise it builds at most two: first
    one with the addresses of the ready pods, if there are any, then one
    with the addresses of the pods that are not ready, if there are any,
    in the order of the pods and over the pods that are running and have
    an IP; each subset carries all the ports of the service. *)
Theorem buildEndpointSubsetsFromPods_shape (pods : list Pod) (servicePorts : list ServicePort) :
  let ready := filter (λ pod, routable pod ∧ isReady (pod_Conditions pod) = true) pods in
  let notReady := filter (λ pod, routable pod ∧ isReady (pod_Conditions pod) = false) pods in
  let ports := map servicePort servicePorts in
  buildEndpointSubsetsFromPods pods servicePorts
  = Ok (if decide (servicePorts = []) then []
        else (if decide (ready = []) then []
              else [{| Addresses := map podAddress ready; NotReadyAddresses := [];
                       Ports := ports |}]) ++
             (if decide (notReady = []) then []
              else [{| Addresses := []; NotReadyAddresses := map podAddress notReady;
                       Ports := ports |}])) ∧
  ∀ subsets, buildEndpointSubsetsFromPods pods servicePorts = Ok subsets →
    (length subsets ≤ 2)%nat ∧
    (length (flat_map Addresses subsets) + length (flat_map NotReadyAddresses subsets)
     = if decide (servicePorts = []) then 0 else length (filter routable pods))%nat.
Proof.
  cbn zeta.
  set (ready := filter (λ pod, routable pod ∧ isReady (pod_Conditions pod) = true) pods).
  set (notReady := filter (λ pod, routable pod ∧ isReady (pod_Conditions pod) = false) pods).
  assert (length ready + length notReady = length (filter routable pods))%nat as Hcount.
  { unfold ready, notReady. clear. induction pods as [|pod pods IH]; [done|].
    rewrite !filter_cons. destruct (isReady (pod_Conditions pod)) eqn:Hr;
      repeat case_decide; cbn [length]; try lia; exfalso; intuition congruence. }
  assert (buildEndpointSubsetsFromPods pods servicePorts
          = Ok (if decide (servicePorts = []) then []
                else (if decide (ready = []) then []
                      else [{| Addresses := map podAddress ready; NotReadyAddresses := [];
                               Ports := map servicePort servicePorts |}]) ++
                     (if decide (notReady = []) then []
                      else [{| Addresses := []; NotReadyAddresses := map podAddress notReady;
                               Ports := map servicePort servicePorts |}]))) as Heq.
  { unfold buildEndpointSubsetsFromPods.
    destruct servicePorts as [|sp sps]; [done|].
    change (length (sp :: sps) =? 0)%nat with false. cbv iota.
    rewrite groupPods_filter. cbn [app]. fold ready notReady.
    rewrite decide_False by done.
    destruct ready as [|r rs]; destruct notReady as [|n ns]; reflexivity. }
  split; [exact Heq|].
  intros subsets. rewrite Heq. intros [= <-].
  destruct (decide (servicePorts = [])); [cbn; lia|].
  destruct (decide (ready = [])) as [Hr|Hr]; destruct (decide (notReady = [])) as [Hn|Hn];
    cbn [app length flat_map Addresses NotReadyAddresses];
    rewrite ?app_nil_r, ?length_map; try rewrite Hr in Hcount; try rewrite Hn in Hcount;
    cbn [length] in *; lia.
Qed.

Section MisrouteMore.
Context {C : Type} `{Interface C}.

(** X11.  When the service, or its endpoints, cannot be fetched,
    [MisrouteService] stops with that error, wrapped: it has sent the
    one or two reads and nothing else, and has written no backup. *)
Theorem MisrouteService_fetch_errors (svcName ns sel : string) (removeAll dryRun : bool)
    (w : World C) :
  let r := MisrouteService svcName ns sel removeAll dryRun w in
  match ServicesGet ns svcName (client w) with
  | (Err e, c1) =>
      fst r = Some (ErrWrap ("failed to get service '" +:+ svcName +:+ "'") e) ∧
      calls (snd r) = calls w ++ [CallServicesGet ns svcName] ∧
      client (snd r) = c1 ∧ fs (snd r) = fs w
  | (Ok service, c1) =>
      ∀ e c2, EndpointsGet ns svcName c1 = (Err e, c2) →
        fst r = Some (ErrWrap ("failed to get endpoints for service '" +:+ svcName +:+ "'") e) ∧
        calls (snd r) = calls w ++ [CallServicesGet ns svcName; CallEndpointsGet ns svcName] ∧
        client (snd r) = c2 ∧ fs (snd r) = fs w
  end.
Proof.
  cbn zeta. unfold MisrouteService.
  unfold bind, utils_Info, logline, Services_Get, Endpoints_Get, request.
  cbn [client calls set_log set_client set_calls].
  destruct (ServicesGet ns svcName (client w)) as [[service|e] c1]; [|by cbn].
  intros e c2 Hep. cbn [client calls set_log set_client set_calls]. rewrite Hep.
  cbn. by rewrite <- app_assoc.
Qed.

(** The backup step: it sends no request, and in dry run does nothing. *)
Lemma backup_step (endpoints : Endpoints) (svcName ns : string) (dryRun : bool)
    (w : World C) :
  ∃ w1, (if negb dryRun then
           let! err := saveOriginalEndpoints endpoints svcName ns in
           match err with
           | Some e => utils_Warn ("Failed to save original endpoints for rollback: " +:+
                                   Error e)
           | None => ret tt
           end
         else ret tt) w = (tt, w1) ∧
        calls w1 = calls w ∧ client w1 = client w ∧
        (dryRun = true → fs w1 = fs w).
Proof.
  destruct dryRun; cbn [negb].
  { exists w. by unfold ret. }
  unfold bind.
  destruct (home (fs w)) as [h|] eqn:Hh; [destruct (readonly (fs w)) eqn:Hro|].
  - destruct (saveOriginalEndpoints_failed endpoints svcName ns w) as [e ->]; [by right|].
    eexists. split; [reflexivity|]. done.
  - destruct (saveOriginalEndpoints_written endpoints svcName ns h w Hh Hro)
      as (w1 & -> & _ & Hc & Hcl & _).
    exists w1. by unfold ret.
  - destruct (saveOriginalEndpoints_failed endpoints svcName ns w) as [e ->]; [by left|].
    eexists. split; [reflexivity|]. done.
Qed.

(** Once the service and its endpoints are fetched. *)
Lemma MisrouteService_fetched (svcName ns sel : string) (removeAll dryRun : bool)
    (service : Service) (endpoints : Endpoints) (c1 c2 : C) (w : World C) :
  ServicesGet ns svcName (client w) = (Ok service, c1) →
  EndpointsGet ns svcName c1 = (Ok endpoints, c2) →
  ∃ wg : World C,
    MisrouteService svcName ns sel removeAll dryRun w
    = (do! (if negb dryRun then
              let! err := saveOriginalEndpoints endpoints svcName ns in
              match err with
              | Some e => utils_Warn ("Failed to save original endpoints for rollback: " +:+
                                      Error e)
              | None => ret tt
              end
            else ret tt) ;;
       let! modified :=
         (if removeAll then
            do! utils_Info "Removing all endpoint subsets" ;;
            ret (Ok (withSubsets endpoints []))
          else if negb (String.eqb sel "") then
            do! utils_Info ("Replacing endpoints with pods matching selector '" +:+
                            sel +:+ "'") ;;
            let! pods := Pods_List ns sel in
            match pods with
            | Err err =>
                ret (Err (ErrWrap ("failed to list pods with selector '" +:+
                                   sel +:+ "'") err))
            | Ok items =>
                if (length items =? 0)%nat then
                  do! utils_Warn ("No pods found matching selector '" +:+ sel +:+
                                  "' in namespace '" +:+ ns +:+ "'") ;;
                  ret (Ok (withSubsets endpoints []))
                else
                  do! utils_Info ("Found " +:+ len items +:+ " pod(s) matching selector") ;;
                  match buildEndpointSubsetsFromPods items (svc_Ports service) with
                  | Err err =>
                      ret (Err (ErrWrap "failed to build endpoint subsets from pods" err))
                  | Ok newSubsets => ret (Ok (withSubsets endpoints newSubsets))
                  end
            end
          else ret (Ok endpoints)) in
       match modified with
       | Err err => ret (Some err)
       | Ok modifiedEndpoints =>
         if dryRun then
           do! utils_DryRun ("Would update endpoints for service '" +:+ svcName +:+ "':") ;;
           do! (if (length (Subsets modifiedEndpoints) =? 0)%nat then
                  utils_DryRun "  - Remove all endpoint subsets (no traffic routing)"
                else
                  do! utils_DryRun ("  - Replace with " +:+
                                    len (Subsets modifiedEndpoints) +:+
                                    " endpoint subset(s)") ;;
                  reportSubsets 0 (Subsets modifiedEndpoints)) ;;
           ret None
         else
           let! err := Endpoints_Update ns modifiedEndpoints in
           match err with
           | Some e => ret (Some (ErrWrap "failed to update endpoints" e))
           | None =>
               do! utils_Info "Successfully updated service endpoints" ;;
               ret None
           end
       end) wg ∧
    calls wg = calls w ++ [CallServicesGet ns svcName; CallEndpointsGet ns svcName] ∧
    client wg = c2 ∧ fs wg = fs w.
Proof.
  intros Hsvc Hep. unfold MisrouteService.
  unfold bind at 1, utils_Info at 1, logline at 1.
  unfold bind at 1, Services_Get, request.
  change (client (set_log ?l w)) with (client w). rewrite Hsvc.
  unfold bind at 1, utils_Info at 1, logline at 1.
  unfold bind at 1, Endpoints_Get, request.
  change (client (set_log ?l (set_client c1 ?x))) with c1. rewrite Hep.
  eexists. split; [reflexivity|]. cbn. by rewrite <- app_assoc.
Qed.

Lemma quiet_reportSubsets (i : Z) (subsets : list EndpointSubset) :
  quiet (reportSubsets (C := C) i subsets).
Proof.
  revert i. induction subsets as [|s subsets IH]; intros i; cbn [reportSubsets].
  - apply quiet_ret.
  - apply quiet_bind; [apply quiet_logline|intros _; apply IH].
Qed.

(** The last step: the dry-run report, or the update. *)
Lemma MisrouteService_finish (svcName ns : string) (dryRun : bool)
    (modifiedEndpoints : Endpoints) (w : World C) :
  ∃ w', (if dryRun then
           do! utils_DryRun ("Would update endpoints for service '" +:+ svcName +:+ "':") ;;
           do! (if (length (Subsets modifiedEndpoints) =? 0)%nat then
                  utils_DryRun "  - Remove all endpoint subsets (no traffic routing)"
                else
                  do! utils_DryRun ("  - Replace with " +:+
                                    len (Subsets modifiedEndpoints) +:+
                                    " endpoint subset(s)") ;;
                  reportSubsets 0 (Subsets modifiedEndpoints)) ;;
           ret None
         else
           let! err := Endpoints_Update ns modifiedEndpoints in
           match err with
           | Some e => ret (Some (ErrWrap "failed to update endpoints" e))
           | None =>
               do! utils_Info "Successfully updated service endpoints" ;;
               ret None
           end) w
        = (if dryRun then None
           else match fst (EndpointsUpdate ns modifiedEndpoints (client w)) with
                | Some e => Some (ErrWrap "failed to update endpoints" e)
                | None => None
                end, w') ∧
        calls w' = calls w ++
                   (if dryRun then [] else [CallEndpointsUpdate ns modifiedEndpoints]) ∧
        client w' = (if dryRun then client w
                     else snd (EndpointsUpdate ns modifiedEndpoints (client w))) ∧
        fs w' = fs w.
Proof.
  destruct dryRun.
  - cbv iota.
    match goal with |- ∃ w', ?m w = _ ∧ _ =>
      assert (quiet m) as Hq; [|assert (fst (m w) = None) as Hf;
        [|destruct (Hq w) as [lines Hw]; destruct (m w) as [r w'];
          cbn [fst snd] in Hf, Hw; subst r w']]
    end.
    + apply quiet_bind; [apply quiet_logline|intros _].
      apply quiet_bind; [|intros _; apply quiet_ret].
      destruct (length _ =? 0)%nat; [apply quiet_logline|].
      apply quiet_bind; [apply quiet_logline|intros _; apply quiet_reportSubsets].
    + unfold bind. destruct (utils_DryRun _ w) as [u1 w1].
      match goal with |- (let (_, _) := ?x in _).1 = _ => by destruct x end.
    + eexists. split; [reflexivity|]. cbn. by rewrite app_nil_r.
  - unfold bind, Endpoints_Update, request.
    destruct (EndpointsUpdate ns modifiedEndpoints (client w)) as [[e|] c3];
      eexists; (split; [reflexivity|]); by cbn.
Qed.

(** X12.  What [MisrouteService] sends once the service and its
    endpoints are fetched and it is not asked to remove everything.
    With no selector either, it sends an update that carries the
    endpoints as they are.  With a selector it lists the pods and sends
    an update that replaces the subsets by those built from the pods (no
    subset when no pod matches); if the listing fails it stops with that
    error and sends no update.  In dry run the update is left out and
    the result is success. *)
Theorem MisrouteService_modes (svcName ns : string) (dryRun : bool)
    (service : Service) (endpoints : Endpoints) (c1 c2 : C) (w : World C) :
  ServicesGet ns svcName (client w) = (Ok service, c1) →
  EndpointsGet ns svcName c1 = (Ok endpoints, c2) →
  let result (e : Endpoints) (c : C) :=
    if dryRun then None
    else match fst (EndpointsUpdate ns e c) with
         | Some err => Some (ErrWrap "failed to update endpoints" err)
         | None => None
         end in
  let update (e : Endpoints) :=
    if dryRun then [] else [CallEndpointsUpdate ns e] in
  (∃ w', MisrouteService svcName ns "" false dryRun w = (result endpoints c2, w') ∧
         calls w' = calls w ++ [CallServicesGet ns svcName; CallEndpointsGet ns svcName] ++
                    update endpoints) ∧
  (∀ sel items c3, sel ≠ "" → PodsList ns sel c2 = (Ok items, c3) →
     ∃ subsets w',
       buildEndpointSubsetsFromPods items (svc_Ports service) = Ok subsets ∧
       MisrouteService svcName ns sel false dryRun w
       = (result (withSubsets endpoints subsets) c3, w') ∧
       calls w' = calls w ++ [CallServicesGet ns svcName; CallEndpointsGet ns svcName;
                              CallPodsList ns sel] ++
                  update (withSubsets endpoints subsets)) ∧
  (∀ sel e c3, sel ≠ "" → PodsList ns sel c2 = (Err e, c3) →
     ∃ w', MisrouteService svcName ns sel false dryRun w
           = (Some (ErrWrap ("failed to list pods with selector '" +:+ sel +:+ "'") e), w') ∧
           calls w' = calls w ++ [CallServicesGet ns svcName; CallEndpointsGet ns svcName;
                                  CallPodsList ns sel]).
Proof.
  intros Hsvc Hep. cbn zeta. split_and!.
  - destruct (MisrouteService_fetched svcName ns "" false dryRun service endpoints c1 c2 w
                Hsvc Hep) as (wg & -> & Hcg & Hclg & _).
    unfold bind at 1.
    destruct (backup_step endpoints svcName ns dryRun wg) as (w1 & -> & Hc1 & Hcl1 & _).
    cbn [String.eqb negb]. unfold bind at 1, ret at 1.
    destruct (MisrouteService_finish svcName ns dryRun endpoints w1)
      as (w' & -> & Hc & _).
    exists w'. rewrite Hcl1, Hclg. split; [done|].
    rewrite Hc, Hc1, Hcg, <- app_assoc. reflexivity.
  - intros sel items c3 Hsel Hlist.
    destruct (MisrouteService_fetched svcName ns sel false dryRun service endpoints c1 c2 w
                Hsvc Hep) as (wg & -> & Hcg & Hclg & _).
    unfold bind at 1.
    destruct (backup_step endpoints svcName ns dryRun wg) as (w1 & -> & Hc1 & Hcl1 & _).
    apply String.eqb_neq in Hsel. rewrite Hsel. cbn [negb].
    unfold bind at 1. unfold bind at 1. unfold utils_Info at 1, logline at 1.
    unfold bind at 1. unfold Pods_List, request.
    change (client (set_log ?l w1)) with (client w1). rewrite Hcl1, Hclg, Hlist.
    destruct (buildEndpointSubsetsFromPods_ok items (svc_Ports service)) as [built Hshape].
    destruct items as [|pod items].
    + cbn [length Nat.eqb]. unfold bind at 1, utils_Warn at 1, logline at 1, ret at 1.
      match goal with |- context [_ ?wx = (_, _)] =>
        destruct (MisrouteService_finish svcName ns dryRun (withSubsets endpoints []) wx)
          as (w' & Hfin & Hc & _) end.
      exists [], w'. split; [by destruct (svc_Ports service)|].
      split; [exact Hfin|]. rewrite Hc. cbn. rewrite Hc1, Hcg, <- !app_assoc. reflexivity.
    + cbn [length Nat.eqb]. unfold bind at 1, utils_Info at 1, logline at 1.
      rewrite Hshape. unfold ret at 1.
      match goal with |- context [withSubsets endpoints ?ss] =>
        match goal with |- context [_ ?wx = (_, _)] =>
          destruct (MisrouteService_finish svcName ns dryRun (withSubsets endpoints ss) wx)
            as (w' & Hfin & Hc & _) end;
        exists ss, w' end.
      split; [reflexivity|]. split; [exact Hfin|].
      rewrite Hc. cbn. rewrite Hc1, Hcg, <- !app_assoc. reflexivity.
  - intros sel e c3 Hsel Hlist.
    destruct (MisrouteService_fetched svcName ns sel false dryRun service endpoints c1 c2 w
                Hsvc Hep) as (wg & -> & Hcg & Hclg & _).
    unfold bind at 1.
    destruct (backup_step endpoints svcName ns dryRun wg) as (w1 & -> & Hc1 & Hcl1 & _).
    apply String.eqb_neq in Hsel. rewrite Hsel. cbn [negb].
    unfold bind at 1. unfold bind at 1. unfold utils_Info at 1, logline at 1.
    unfold bind at 1. unfold Pods_List, request.
    change (client (set_log ?l w1)) with (client w1). rewrite Hcl1, Hclg, Hlist.
    unfold ret. eexists. split; [reflexivity|].
    cbn. rewrite Hc1, Hcg, <- !app_assoc. reflexivity.
Qed.

End MisrouteMore.

(** Misrouting the web service to the one ready pod of the namespace. *)
Lemma MisrouteService_modes_witness :
  let w := exampleWorld misroutedCluster emptyFS in
  let emptied := withSubsets webEndpoints [] in
  (ServicesGet "default" "web" (client w) = (Ok webService, misroutedCluster) ∧
   EndpointsGet "default" "web" misroutedCluster = (Ok emptied, misroutedCluster)) ∧
  ∃ subsets w',
    buildEndpointSubsetsFromPods [readyPod "Running"] [httpPort] = Ok subsets ∧
    fst (MisrouteService "web" "default" "app=web" false false w) = None ∧
    MisrouteService "web" "default" "app=web" false false w = (None, w') ∧
    calls w' = [CallServicesGet "default" "web"; CallEndpointsGet "default" "web";
                CallPodsList "default" "app=web";
                CallEndpointsUpdate "default" (withSubsets emptied subsets)].
Proof.
  intros w emptied.
  assert (ServicesGet "default" "web" (client w) = (Ok webService, misroutedCluster)) as Hs
    by reflexivity.
  assert (EndpointsGet "default" "web" misroutedCluster = (Ok emptied, misroutedCluster))
    as He by reflexivity.
  split; [exact (conj Hs He)|].
  destruct (MisrouteService_modes "web" "default" false webService emptied
              misroutedCluster misroutedCluster w Hs He) as (_ & H & _).
  destruct (H "app=web" [readyPod "Running"] misroutedCluster) as (ss & w' & Hb & Hm & Hc).
  { discriminate. }
  { reflexivity. }
  exists ss, w'. split_and!; [exact Hb|by rewrite Hm|exact Hm|exact Hc].
Defined.
(** * The backup of a service's endpoints reads back *)

(** ** Integers *)

Lemma scan_digits_all (ds rest : string) :
  all_digits ds = true → stops rest = true →
  scan_digits (ds +:+ rest) = (ds, rest).
Proof.
  intros Hds Hrest. induction ds as [|c ds IH].
  - rewrite append_nil_l. destruct rest as [|c rest]; [done|].
    cbn [scan_digits]. cbn [stops] in Hrest.
    destruct (is_digit c); [done|reflexivity].
  - cbn [all_digits] in Hds. apply andb_true_iff in Hds as [Hc Hds].
    rewrite append_cons. cbn [scan_digits]. by rewrite Hc, IH.
Qed.

Lemma scan_number_sign (c : ascii) (s : string) :
  match String c s with
  | String "-" r => ("-", r)
  | _ => (EmptyString, String c s)
  end = if Ascii.eqb c "-" then ("-", s) else (EmptyString, String c s).
Proof. each_byte c; reflexivity. Qed.

Lemma scan_number_integer (n rest : string) :
  integer_text n = true → stops rest = true →
  scan_number (n +:+ rest) = Some (n, rest).
Proof.
  intros Hn Hrest. destruct n as [|c r]; [done|].
  cbn [integer_text] in Hn. unfold scan_number. rewrite append_cons, scan_number_sign.
  assert (∀ sign ds, canonical ds = true →
    (let (int, s2) := scan_digits (ds +:+ rest) in
     match int with
     | EmptyString => None
     | String d ds0 =>
         if Ascii.eqb d "0" && negb (String.eqb ds0 EmptyString) then None else
         let frac :=
           match s2 with
           | String "." r0 =>
               let (fs, r') := scan_digits r0 in
               match fs with
               | EmptyString => None
               | _ => Some ("." +:+ fs, r')
               end
           | _ => Some (EmptyString, s2)
           end in
         match frac with
         | None => None
         | Some (f, s3) =>
             let exp :=
               match s3 with
               | String e r0 =>
                   if Ascii.eqb e "e" || Ascii.eqb e "E" then
                     let (sg, r1) := match r0 with
                                     | String "+" r' => ("+", r')
                                     | String "-" r' => ("-", r')
                                     | _ => (EmptyString, r0)
                                     end in
                     let (es, r2) := scan_digits r1 in
                     match es with
                     | EmptyString => None
                     | _ => Some (str e +:+ sg +:+ es, r2)
                     end
                   else Some (EmptyString, s3)
               | EmptyString => Some (EmptyString, s3)
               end in
             match exp with
             | None => None
             | Some (x, s4) => Some (sign +:+ int +:+ f +:+ x, s4)
             end
         end
     end) = Some (sign +:+ ds, rest)) as Hbody.
  { intros sign ds Hds. destruct ds as [|d ds0]; [done|].
    cbn [canonical] in Hds. apply andb_true_iff in Hds as [Hall Hz].
    apply negb_true_iff in Hz.
    rewrite (scan_digits_all _ _ Hall Hrest). rewrite Hz.
    destruct rest as [|c0 rest0].
    - cbv zeta iota beta. by rewrite !append_nil_r.
    - cbn [stops] in Hrest. apply negb_true_iff in Hrest.
      apply orb_false_iff in Hrest as [Hrest HE].
      apply orb_false_iff in Hrest as [Hrest He].
      apply orb_false_iff in Hrest as [_ Hdot].
      assert (match String c0 rest0 with
              | String "." r0 =>
                  let (fs, r') := scan_digits r0 in
                  match fs with
                  | EmptyString => None
                  | _ => Some ("." +:+ fs, r')
                  end
              | _ => Some (EmptyString, String c0 rest0)
              end = Some (EmptyString, String c0 rest0)) as ->.
      { clear -Hdot. each_byte c0; (reflexivity || discriminate). }
      cbv zeta iota beta. rewrite He, HE. cbn [orb]. by rewrite !append_nil_r. }
  destruct (Ascii.eqb_spec c "-") as [->|_].
  - exact (Hbody "-" r Hn).
  - exact (Hbody EmptyString (String c r) Hn).
Qed.

Lemma pretty_N_char_value (d : N) :
  (d < 10)%N → N_of_ascii (pretty_N_char d) = (48 + d)%N.
Proof.
  intros Hd.
  assert (d = 0 ∨ d = 1 ∨ d = 2 ∨ d = 3 ∨ d = 4 ∨ d = 5 ∨ d = 6 ∨ d = 7 ∨ d = 8 ∨ d = 9)%N
    as Hcases by lia.
  repeat destruct Hcases as [->|Hcases]; try reflexivity. by subst.
Qed.

Lemma pretty_N_go_digits (x : N) (s : string) :
  all_digits s = true → all_digits (pretty_N_go x s) = true.
Proof.
  revert s. induction (N.lt_wf_0 x) as [x _ IH]; intros s Hs.
  destruct (decide (x = 0)%N) as [->|Hx]; [by rewrite pretty_N_go_0|].
  rewrite pretty_N_go_step by lia. apply IH; [apply N.div_lt; lia|].
  cbn [all_digits]. by rewrite pretty_N_char_digit.
Qed.

Lemma pretty_N_go_head (x : N) (s : string) :
  (0 < x)%N → ∃ c r, pretty_N_go x s = String c r ∧ Ascii.eqb c "0" = false.
Proof.
  revert s. induction (N.lt_wf_0 x) as [x _ IH]; intros s Hx.
  rewrite pretty_N_go_step by lia.
  destruct (decide (x / 10 = 0)%N) as [Hz|Hz].
  - rewrite Hz, pretty_N_go_0. eexists _, _. split; [reflexivity|].
    apply N.div_small_iff in Hz; [|lia]. rewrite N.mod_small by done.
    assert (x = 1 ∨ x = 2 ∨ x = 3 ∨ x = 4 ∨ x = 5 ∨ x = 6 ∨ x = 7 ∨ x = 8 ∨ x = 9)%N
      as Hcases by lia.
    repeat destruct Hcases as [->|Hcases]; try reflexivity. by subst.
  - apply IH; [apply N.div_lt; lia|by apply N.neq_0_lt_0].
Qed.

Lemma pretty_N_go_value (x : N) (s : string) :
  digits_value (pretty_N_go x s) 0 = digits_value s (Z.of_N x).
Proof.
  revert s. induction (N.lt_wf_0 x) as [x _ IH]; intros s.
  destruct (decide (x = 0)%N) as [->|Hx]; [by rewrite pretty_N_go_0|].
  rewrite pretty_N_go_step by lia. rewrite IH by (apply N.div_lt; lia).
  cbn [digits_value]. rewrite pretty_N_char_digit.
  rewrite pretty_N_char_value by (apply N.mod_lt; lia).
  f_equal. pose proof (N.div_mod x 10 ltac:(lia)) as Hdm.
  generalize dependent (x / 10)%N. generalize dependent (x mod 10)%N. intros; lia.
Qed.

Lemma canonical_pretty (x : N) : canonical (pretty x) = true.
Proof.
  unfold pretty, pretty_N. case_decide as Hx; [reflexivity|].
  destruct (pretty_N_go_head x "" ltac:(lia)) as (c & r & Heq & Hc).
  pose proof (pretty_N_go_digits x "" eq_refl) as Hall.
  rewrite Heq in *. cbn [canonical]. by rewrite Hall, Hc.
Qed.

Lemma pretty_value (x : N) : digits_value (pretty x) 0 = Some (Z.of_N x).
Proof.
  unfold pretty, pretty_N. case_decide as Hx; [by subst|].
  by rewrite pretty_N_go_value.
Qed.

Lemma digit_not_minus (c : ascii) : is_digit c = true → Ascii.eqb c "-" = false.
Proof. each_byte c; (reflexivity || discriminate). Qed.

Lemma canonical_head (ds : string) :
  canonical ds = true → ∃ c r, ds = String c r ∧ is_digit c = true.
Proof.
  destruct ds as [|c r]; [done|]. cbn [canonical all_digits].
  intros Hc. exists c, r. split; [done|].
  by apply andb_true_iff in Hc as [[? _]%andb_true_iff _].
Qed.

Lemma integer_text_itoa (z : Z) : integer_text (itoa z) = true.
Proof.
  destruct z as [|p|p]; [reflexivity| |].
  - change (itoa (Z.pos p)) with (pretty (N.pos p)).
    pose proof (canonical_pretty (N.pos p)) as Hc.
    destruct (canonical_head _ Hc) as (c & r & Heq & Hd). rewrite Heq in *.
    cbn [integer_text]. by rewrite (digit_not_minus c Hd).
  - change (itoa (Z.neg p)) with (String "-" (pretty (N.pos p))).
    cbn [integer_text]. change (Ascii.eqb "-" "-") with true. cbv iota.
    apply canonical_pretty.
Qed.

Lemma as_int_unsigned (c : ascii) (r : string) :
  Ascii.eqb c "-" = false →
  as_int (JNum (String c r))
  = match digits_value (String c r) 0 with
    | Some n => Ok n
    | None => Err (ErrType "json: cannot unmarshal number into Go value of type int32")
    end.
Proof. each_byte c; (reflexivity || discriminate). Qed.

Lemma as_int_itoa (z : Z) : as_int (JNum (itoa z)) = Ok z.
Proof.
  destruct z as [|p|p]; [reflexivity| |].
  - change (itoa (Z.pos p)) with (pretty (N.pos p)).
    pose proof (canonical_pretty (N.pos p)) as Hc.
    pose proof (pretty_value (N.pos p)) as Hv.
    destruct (canonical_head _ Hc) as (c & r & Heq & Hd). rewrite Heq in *.
    by rewrite as_int_unsigned, Hv by by apply digit_not_minus.
  - change (itoa (Z.neg p)) with (String "-" (pretty (N.pos p))).
    change (as_int (JNum (String "-" (pretty (N.pos p)))))
      with (match digits_value (pretty (N.pos p)) 0 with
            | Some n => Ok (- n)
            | None => Err (ErrType "json: cannot unmarshal number into Go value of type int32")
            end).
    by rewrite pretty_value.
Qed.

(** ** Documents with integers *)

Lemma number_head (c : ascii) (s : string) :
  (is_digit c || Ascii.eqb c "-") = true →
  is_ws c = false ∧ Ascii.eqb c dq = false ∧ Ascii.eqb c "[" = false ∧
  Ascii.eqb c "{" = false ∧ Ascii.eqb c "]" = false ∧ Ascii.eqb c "}" = false ∧
  HasPrefix (String c s) "null" = false ∧ HasPrefix (String c s) "true" = false ∧
  HasPrefix (String c s) "false" = false.
Proof. each_byte c; (discriminate || done). Qed.

Lemma integer_text_head (n : string) :
  integer_text n = true →
  ∃ c r, n = String c r ∧ (is_digit c || Ascii.eqb c "-") = true.
Proof.
  destruct n as [|c r]; [done|]. cbn [integer_text]. intros Hn. exists c, r.
  split; [done|]. destruct (Ascii.eqb c "-"); [by rewrite orb_true_r|].
  destruct (canonical_head _ Hn) as (c' & r' & [= <- <-] & ->). done.
Qed.

Lemma parse_number_value (fuel : nat) (n rest : string) :
  integer_text n = true → stops rest = true →
  parse_value (S fuel) (n +:+ rest) = Some (JNum n, rest).
Proof.
  intros Hn Hrest. pose proof (scan_number_integer n rest Hn Hrest) as Hscan.
  destruct (integer_text_head n Hn) as (c & r & -> & Hc).
  rewrite append_cons in *.
  destruct (number_head c (r +:+ rest) Hc)
    as (Hws & Hdq & Hb & Hbr & _ & _ & Hnull & Htrue & Hfalse).
  cbn [parse_value]. rewrite (skip_ws_head _ _ Hws).
  by rewrite Hdq, Hb, Hbr, Hnull, Htrue, Hfalse, Hscan.
Qed.

Lemma render_head_integral d v tail :
  integral v = true →
  ∃ c s, render d v +:+ tail = String c s ∧ is_ws c = false ∧
         Ascii.eqb c "]" = false ∧ Ascii.eqb c "}" = false.
Proof.
  intros Hv. destruct v as [|[]|n|s0|[|x xs]|[|[k x] xs]].
  4: { destruct (integer_text_head n Hv) as (c & r & -> & Hc).
       destruct (number_head c (r +:+ tail) Hc) as (Hws & _ & _ & _ & Hb & Hbr & _).
       exists c, (r +:+ tail). split; [reflexivity|done]. }
  all: eexists _, _; split; [reflexivity|done].
Qed.

Lemma stops_items d xs rest : stops (render_items d xs +:+ rest) = true.
Proof. by destruct xs. Qed.

Lemma stops_members d xs rest : stops (render_members d xs +:+ rest) = true.
Proof. by destruct xs as [|[k y] ys]. Qed.

Section ParseRenderIntegral.
(** The documents read back so far: those of weight at most [n]. *)
Variable n : nat.
Hypothesis IH : ∀ v, (weight v ≤ n)%nat → integral v = true →
  ∀ d fuel rest, (weight v ≤ fuel)%nat → stops rest = true →
    parse_value fuel (render d v +:+ rest) = Some (v, rest).

Lemma parse_render_items_integral d xs :
  ∀ x fuel rest,
    (weight x ≤ n)%nat → Forall (λ y, (weight y ≤ n)%nat) xs →
    integral x = true → forallb integral xs = true →
    (S (weight x) + list_sum (map (fun y => S (weight y)) xs) ≤ fuel)%nat →
    parse_elements fuel (newline (S d) +:+ render (S d) x +:+ render_items d xs +:+ rest)
    = Some (x :: xs, rest).
Proof.
  induction xs as [|y ys IHxs]; intros x fuel rest Hx Hxs Tx Txs Hfuel.
  - destruct fuel as [|fuel]; [simpl in Hfuel; lia|]. simpl in Hfuel.
    cbn [parse_elements].
    rewrite (parse_value_ws fuel _ (render (S d) x +:+ render_items d [] +:+ rest))
      by apply skip_ws_newline.
    rewrite IH by (done || lia || apply stops_items).
    cbn [render_items]. rewrite append_assoc, skip_ws_newline. reflexivity.
  - destruct fuel as [|fuel]; [simpl in Hfuel; lia|]. simpl in Hfuel.
    cbn [parse_elements].
    rewrite (parse_value_ws fuel _ (render (S d) x +:+ render_items d (y :: ys) +:+ rest))
      by apply skip_ws_newline.
    rewrite IH by (done || lia || apply stops_items).
    cbn [render_items]. rewrite !append_assoc.
    change ("," +:+ ?s) with (String "," s). simpl skip_ws. cbv iota.
    change (Ascii.eqb "," ",") with true. cbv iota.
    inversion Hxs; subst. simpl in Txs. apply andb_true_iff in Txs as [Ty Tys].
    rewrite IHxs by (done || lia). reflexivity.
Qed.

Lemma parse_render_members_integral d xs :
  ∀ k x fuel rest,
    (weight x ≤ n)%nat → Forall (λ p : string * json, (weight p.2 ≤ n)%nat) xs →
    integral x = true → forallb (fun p : string * json => integral p.2) xs = true →
    (S (weight x) + list_sum (map (fun p : string * json => S (weight p.2)) xs) ≤ fuel)%nat →
    parse_members fuel (newline (S d) +:+ quote k +:+ ": " +:+ render (S d) x +:+
                        render_members d xs +:+ rest)
    = Some ((k, x) :: xs, rest).
Proof.
  induction xs as [|[k' y] ys IHxs]; intros k x fuel rest Hx Hxs Tx Txs Hfuel.
  - destruct fuel as [|fuel]; [simpl in Hfuel; lia|]. simpl in Hfuel.
    cbn [parse_members]. rewrite skip_ws_newline.
    unfold quote at 1. rewrite append_cons. simpl skip_ws. cbv iota.
    change (Ascii.eqb dq dq) with true. cbv iota.
    rewrite !append_assoc. change (str dq +:+ ?s) with (String dq s).
    rewrite scan_escape, unquote_units.
    change (": " +:+ ?s) with (String ":" (String " " s)). simpl skip_ws. cbv iota.
    change (Ascii.eqb ":" ":") with true. cbv iota.
    rewrite (parse_value_ws _ _ _ (skip_ws_space _)).
    rewrite IH by (done || lia || apply stops_members).
    cbn [render_members]. rewrite ?append_assoc, skip_ws_newline. reflexivity.
  - destruct fuel as [|fuel]; [simpl in Hfuel; lia|]. simpl in Hfuel.
    cbn [parse_members]. rewrite skip_ws_newline.
    unfold quote at 1. rewrite append_cons. simpl skip_ws. cbv iota.
    change (Ascii.eqb dq dq) with true. cbv iota.
    rewrite !append_assoc. change (str dq +:+ ?s) with (String dq s).
    rewrite scan_escape, unquote_units.
    change (": " +:+ ?s) with (String ":" (String " " s)). simpl skip_ws. cbv iota.
    change (Ascii.eqb ":" ":") with true. cbv iota.
    rewrite (parse_value_ws _ _ _ (skip_ws_space _)).
    rewrite IH by (done || lia || apply stops_members).
    cbn [render_members]. rewrite ?append_assoc.
    change ("," +:+ ?s) with (String "," s). simpl skip_ws. cbv iota.
    change (Ascii.eqb "," ",") with true. cbv iota.
    inversion Hxs; subst. simpl in Txs. apply andb_true_iff in Txs as [Ty Tys].
    rewrite <- !append_assoc. rewrite !append_assoc.
    rewrite IHxs by (done || simpl in *; lia). reflexivity.
Qed.

End ParseRenderIntegral.

(** Reading a written document gives the document back, numbers
    included, when what follows it cannot continue a number. *)
Lemma parse_render_integral (n : nat) :
  ∀ v, (weight v ≤ n)%nat → integral v = true →
  ∀ d fuel rest, (weight v ≤ fuel)%nat → stops rest = true →
    parse_value fuel (render d v +:+ rest) = Some (v, rest).
Proof.
  induction n as [|n IHn]; intros v Hw Ht d fuel rest Hfuel Hrest.
  { destruct v; simpl in Hw; lia. }
  destruct fuel as [|fuel]; [destruct v; simpl in Hfuel; lia|].
  destruct v as [|[]|num|s0|[|x xs]|[|[k x] xs]]; try done; try reflexivity.
  - by apply parse_number_value.
  - apply parse_string_value.
  - (* a non-empty array *)
    simpl in Hw, Hfuel, Ht. apply andb_true_iff in Ht as [Tx Txs].
    rewrite render_arr, !append_assoc.
    change ("[" +:+ ?s) with (String "[" s). cbn [parse_value].
    simpl skip_ws at 1. cbv iota. change (Ascii.eqb "[" dq) with false.
    change (Ascii.eqb "[" "[") with true. cbv iota.
    destruct (render_head_integral (S d) x (render_items d xs +:+ rest) Tx)
      as (c & s & Heq & Hws & Hb & _).
    assert (skip_ws (newline (S d) +:+ render (S d) x +:+ render_items d xs +:+ rest)
            = String c s) as ->.
    { by rewrite skip_ws_newline, Heq, skip_ws_head. }
    rewrite Hb.
    rewrite (parse_render_items_integral n IHn d xs x fuel rest); try done; try lia.
    apply (Forall_impl (λ y, (S (weight y) ≤ n)%nat)); [|intros; lia].
    apply list_sum_bound. lia.
  - (* a non-empty object *)
    simpl in Hw, Hfuel, Ht. apply andb_true_iff in Ht as [Tx Txs].
    rewrite render_obj, !append_assoc.
    change ("{" +:+ ?s) with (String "{" s). cbn [parse_value].
    simpl skip_ws at 1. cbv iota. change (Ascii.eqb "{" dq) with false.
    change (Ascii.eqb "{" "[") with false. change (Ascii.eqb "{" "{") with true.
    cbv iota.
    assert (skip_ws (newline (S d) +:+ quote k +:+ ": " +:+ render (S d) x +:+
                     render_members d xs +:+ rest)
            = quote k +:+ ": " +:+ render (S d) x +:+ render_members d xs +:+ rest) as Hsk.
    { by rewrite skip_ws_newline. }
    rewrite Hsk at 1. unfold quote at 1. rewrite append_cons.
    change (Ascii.eqb dq "}") with false. cbv iota.
    rewrite (parse_render_members_integral n IHn d xs k x fuel rest); try done; try lia.
    apply (Forall_impl (λ p : string * json, (S (weight p.2) ≤ n)%nat)); [|intros; lia].
    apply list_sum_bound. lia.
Qed.

Lemma weight_le_length_integral (n : nat) :
  ∀ v, (weight v ≤ n)%nat → integral v = true →
  ∀ d, (weight v ≤ String.length (render d v))%nat.
Proof.
  induction n as [|n IHn]; intros v Hw Ht d.
  { destruct v; simpl in Hw; lia. }
  destruct v as [|[]|num|s0|[|x xs]|[|[k x] xs]]; try done; try (simpl; lia).
  - destruct (integer_text_head num Ht) as (c & r & -> & _). simpl. lia.
  - simpl in Hw, Ht. apply andb_true_iff in Ht as [Tx Txs].
    rewrite render_arr, !length_append.
    pose proof (length_newline (S d)).
    pose proof (IHn x ltac:(lia) Tx (S d)).
    assert (list_sum (map (fun y => S (weight y)) xs) ≤ String.length (render_items d xs))%nat;
      [|simpl; lia].
    assert (Forall (λ y, (S (weight y) ≤ n)%nat) xs) as Hall by (apply list_sum_bound; lia).
    clear Hw. induction xs as [|y ys IHys]; [simpl; lia|].
    inversion Hall; subst. simpl in Txs. apply andb_true_iff in Txs as [Ty Tys].
    cbn [render_items map list_sum]. rewrite !length_append.
    pose proof (IHn y ltac:(lia) Ty (S d)). specialize (IHys Tys ltac:(done)).
    simpl. lia.
  - simpl in Hw, Ht. apply andb_true_iff in Ht as [Tx Txs].
    rewrite render_obj, !length_append.
    pose proof (length_newline (S d)).
    pose proof (IHn x ltac:(lia) Tx (S d)).
    assert (list_sum (map (fun p : string * json => S (weight p.2)) xs)
            ≤ String.length (render_members d xs))%nat; [|simpl; lia].
    assert (Forall (λ p : string * json, (S (weight p.2) ≤ n)%nat) xs) as Hall
      by (apply list_sum_bound; lia).
    clear Hw. induction xs as [|[k' y] ys IHys]; [simpl; lia|].
    inversion Hall; subst. simpl in Txs. apply andb_true_iff in Txs as [Ty Tys].
    cbn [render_members map list_sum]. rewrite !length_append.
    pose proof (IHn y ltac:(simpl in *; lia) Ty (S d)). specialize (IHys Tys ltac:(done)).
    simpl in *. lia.
Qed.

Lemma parse_json_MarshalIndent_integral (v : json) :
  integral v = true → parse_json (MarshalIndent v) = Ok v.
Proof.
  intros Ht. unfold parse_json, MarshalIndent.
  rewrite <- (append_nil_r (render 0 v)) at 2.
  rewrite (parse_render_integral (weight v)); try done.
  pose proof (weight_le_length_integral (weight v) v ltac:(done) Ht 0). lia.
Qed.

(** ** Endpoints *)

Lemma integral_strings k s : forallb (fun p : string * json => integral p.2)
                               (string_unless_empty k s) = true.
Proof. unfold string_unless_empty. by destruct (String.eqb s ""). Qed.

Lemma forallb_app_true {A} (f : A → bool) (l1 l2 : list A) :
  forallb f l1 = true → forallb f l2 = true → forallb f (l1 ++ l2) = true.
Proof. intros H1 H2. by rewrite forallb_app, H1, H2. Qed.

Lemma integral_field k (l : list json) :
  forallb integral l = true →
  forallb (fun p : string * json => integral p.2) (field_unless_empty k l) = true.
Proof.
  intros Hl. destruct l as [|j l]; [done|].
  change (forallb integral (j :: l) && true = true). by rewrite Hl.
Qed.

Lemma forallb_map_true {A B} (f : B → bool) (g : A → B) (l : list A) :
  (∀ a, f (g a) = true) → forallb f (map g l) = true.
Proof. intros Hfg. induction l as [|a l IH]; [done|]. cbn. by rewrite Hfg, IH. Qed.

Lemma integral_reference r : integral (reference_json r) = true.
Proof.
  unfold reference_json. cbn [integral].
  repeat apply forallb_app_true; apply integral_strings.
Qed.

Lemma integral_address a : integral (address_json a) = true.
Proof.
  unfold address_json. cbn [integral forallb snd andb].
  destruct (addr_TargetRef a) as [r|]; [|done].
  cbn [forallb snd]. by rewrite integral_reference.
Qed.

Lemma integral_port p : integral (port_json p) = true.
Proof.
  unfold port_json. cbn [integral].
  repeat apply forallb_app_true; try apply integral_strings.
  cbn [forallb snd integral]. by rewrite integer_text_itoa.
Qed.

Lemma integral_subset s : integral (subset_json s) = true.
Proof.
  unfold subset_json. cbn [integral].
  repeat apply forallb_app_true; apply integral_field, forallb_map_true;
    auto using integral_address, integral_port.
Qed.

Lemma integral_endpoints e : integral (endpoints_json e) = true.
Proof.
  unfold endpoints_json. cbn [integral forallb snd].
  apply andb_true_iff. split.
  - apply forallb_app_true; apply integral_strings.
  - apply integral_field, forallb_map_true, integral_subset.
Qed.

Lemma as_list_map {A} (what : string) (f : json → result A) (g : A → json) (l : list A) :
  (∀ a, f (g a) = Ok a) → as_list what f (map g l) = Ok l.
Proof.
  intros Hfg. induction l as [|a l IH]; [done|].
  cbn [map as_list]. by rewrite Hfg, IH.
Qed.

Lemma as_array_field {A} (what k : string) (f : json → result A) (g : A → json)
    (l : list A) (v : json) :
  (∀ a, f (g a) = Ok a) →
  v = match map g l with [] => JNull | js => JArr js end →
  as_array what f v = Ok l.
Proof.
  intros Hfg ->. destruct l as [|a l]; [done|].
  exact (as_list_map what f g (a :: l) Hfg).
Qed.

(** Looking a member up in a list with known names. *)
Ltac look_up :=
  repeat match goal with
  | |- context [member ?k ?l] =>
      let v := eval cbv [member EqualFold to_lower lower String.eqb Ascii.eqb
                         N_of_ascii N.leb N.compare Pos.compare Pos.compare_cont
                         andb ascii_of_N ascii_of_pos N.add Pos.add Pos.succ
                         Bool.eqb N_of_digits N.mul Pos.mul Ascii.shift Ascii.one Ascii.zero]
        in (member k l) in
      change (member k l) with v
  end.

Lemma into_reference_json r : into_reference (reference_json r) = Ok (Some r).
Proof.
  destruct r as [k ns nm uid]. unfold reference_json, string_unless_empty.
  cbn [ref_Kind ref_Namespace ref_Name ref_UID].
  destruct (String.eqb_spec k ""), (String.eqb_spec ns ""), (String.eqb_spec nm ""),
    (String.eqb_spec uid ""); subst; reflexivity.
Qed.

Lemma into_address_json a : into_address (address_json a) = Ok a.
Proof.
  destruct a as [ip [r|]]; unfold address_json; cbn [addr_IP addr_TargetRef]; [|done].
  pose proof (into_reference_json r) as Hr.
  unfold into_address. cbn [as_members rbind].
  change (member "ip" [("ip", JStr ip); ("targetRef", reference_json r)]) with (JStr ip).
  cbn [as_string into_string rbind].
  change (member "targetRef" [("ip", JStr ip); ("targetRef", reference_json r)])
    with (reference_json r).
  by rewrite Hr.
Qed.

Lemma into_port_json p : into_port (port_json p) = Ok p.
Proof.
  destruct p as [name port proto]. unfold port_json, string_unless_empty.
  cbn [port_Name port_Port port_Protocol].
  pose proof (as_int_itoa port) as Hport.
  destruct (String.eqb_spec name ""), (String.eqb_spec proto ""); subst;
    unfold into_port; cbn [app as_members rbind].
  all: look_up.
  all: cbn [as_string into_string rbind]; by rewrite Hport.
Qed.

Lemma into_subset_json s : into_subset (subset_json s) = Ok s.
Proof.
  destruct s as [rs ns ps]. unfold subset_json. cbn [Addresses NotReadyAddresses Ports].
  pose proof (as_list_map "[]v1.EndpointAddress" into_address address_json rs
                into_address_json) as Hrs.
  pose proof (as_list_map "[]v1.EndpointAddress" into_address address_json ns
                into_address_json) as Hns.
  pose proof (as_list_map "[]v1.EndpointPort" into_port port_json ps into_port_json) as Hps.
  destruct rs as [|r rs], ns as [|n ns], ps as [|p ps];
    cbn [map field_unless_empty app] in *; unfold into_subset; cbn [as_members rbind].
  all: look_up.
  all: cbn [as_array]; rewrite ?Hrs, ?Hns, ?Hps; reflexivity.
Qed.

Lemma into_endpoints_json e : into_endpoints (endpoints_json e) = Ok e.
Proof.
  destruct e as [name ns ss]. unfold endpoints_json, string_unless_empty.
  cbn [ep_Name ep_Namespace Subsets].
  pose proof (as_list_map "[]v1.EndpointSubset" into_subset subset_json ss
                into_subset_json) as Hss.
  destruct ss as [|s ss]; cbn [map field_unless_empty] in *;
    destruct (String.eqb_spec name ""), (String.eqb_spec ns ""); subst;
    unfold into_endpoints; cbn [as_members rbind app].
  all: look_up.
  all: cbn [as_members as_string into_string rbind as_array]; rewrite ?Hss; reflexivity.
Qed.

Lemma UnmarshalEndpoints_MarshalEndpoints (e : Endpoints) :
  UnmarshalEndpoints (MarshalEndpoints e) = Ok e.
Proof.
  unfold UnmarshalEndpoints, MarshalEndpoints.
  rewrite parse_json_MarshalIndent_integral by apply integral_endpoints.
  apply into_endpoints_json.
Qed.

(** X13.  The backup of a service's endpoints reads back: decoding the
    text written for any endpoints gives those endpoints again (names,
    addresses with their target references, ports with their numbers),
    so two different endpoints never have the same backup text. *)
Theorem endpoints_backup_round_trip (e : Endpoints) :
  UnmarshalEndpoints (MarshalEndpoints e) = Ok e ∧
  ∀ e', MarshalEndpoints e' = MarshalEndpoints e → e' = e.
Proof.
  split; [apply UnmarshalEndpoints_MarshalEndpoints|].
  intros e' Heq. pose proof (UnmarshalEndpoints_MarshalEndpoints e') as He'.
  rewrite Heq, UnmarshalEndpoints_MarshalEndpoints in He'. congruence.
Qed.


(** ** Misrouting and its rollback *)

Section BackupFacts.
Context {C : Type} `{Interface C}.

Lemma keepsFiles_ret {A} (a : A) : keepsFiles (ret (C := C) a).
Proof. by intros w. Qed.

Lemma keepsFiles_bind {A B} (m : M C A) (k : A → M C B) :
  keepsFiles m → (∀ a, keepsFiles (k a)) → keepsFiles (bind m k).
Proof.
  intros Hm Hk w. unfold bind. specialize (Hm w).
  destruct (m w) as [a w1]. cbn [snd] in Hm. by rewrite Hk.
Qed.

Lemma keepsFiles_logline (lv : Level) (msg : string) : keepsFiles (logline (C := C) lv msg).
Proof. by intros w. Qed.

Lemma keepsFiles_request {A} (call : ApiCall) (f : C → A * C) : keepsFiles (request call f).
Proof. intros w. unfold request. by destruct (f (client w)). Qed.

Lemma keepsFiles_quiet {A} (m : M C A) : quiet m → keepsFiles m.
Proof. intros Hq w. destruct (Hq w) as [lines ->]. done. Qed.

Lemma fs_bind {A B} (m : M C A) (k : A → M C B) (w : World C) :
  (∀ a, keepsFiles (k a)) → fs (snd (bind m k w)) = fs (snd (m w)).
Proof. intros Hk. unfold bind. destruct (m w) as [a w1]. apply Hk. Qed.

Ltac files_step :=
  first [ apply keepsFiles_ret
        | apply keepsFiles_logline
        | apply keepsFiles_request
        | apply keepsFiles_bind; [|intros ?] ].

(** The file system after a backup that could be written. *)
Lemma saveOriginalEndpoints_fs endpoints svcName ns h (w : World C) :
  home (fs w) = Some h → readonly (fs w) = false →
  fs (snd (saveOriginalEndpoints endpoints svcName ns w))
  = mkFS (<[backupPath h svcName ns := MarshalEndpoints endpoints]> (files (fs w)))
      (Some h) false.
Proof.
  intros Hh Hro. unfold saveOriginalEndpoints.
  unfold bind, UserHomeDir, MkdirAll, WriteFile, utils_Info, logline, ret.
  rewrite Hh, Hro. cbv iota. cbn [fs set_fs set_log readonly home files snd].
  rewrite ?Hro. cbv iota. cbn [fs set_fs set_log readonly home files snd].
  rewrite ?Hh, ?Hro. reflexivity.
Qed.

(** Outside dry run, once the service and its endpoints are fetched,
    [MisrouteService] leaves the file system with the backup added and
    nothing else changed, however it ends. *)
Lemma MisrouteService_fs (svcName ns sel : string) (removeAll : bool)
    (service : Service) (endpoints : Endpoints) (c1 c2 : C) (h : string) (w : World C) :
  ServicesGet ns svcName (client w) = (Ok service, c1) →
  EndpointsGet ns svcName c1 = (Ok endpoints, c2) →
  home (fs w) = Some h → readonly (fs w) = false →
  fs (snd (MisrouteService svcName ns sel removeAll false w))
  = mkFS (<[backupPath h svcName ns := MarshalEndpoints endpoints]> (files (fs w)))
      (Some h) false.
Proof.
  intros Hsvc Hep Hh Hro.
  destruct (MisrouteService_fetched svcName ns sel removeAll false service endpoints c1 c2 w
              Hsvc Hep) as (wg & -> & _ & _ & Hfs).
  rewrite fs_bind.
  - cbn [negb]. rewrite fs_bind.
    + rewrite (saveOriginalEndpoints_fs endpoints svcName ns h wg) by by rewrite Hfs.
      by rewrite Hfs.
    + intros [e|]; files_step.
  - intros _. files_step.
    + destruct removeAll; [repeat files_step|].
      destruct (negb (String.eqb sel "")); [|files_step].
      files_step; [files_step|]. files_step; [apply keepsFiles_request|].
      destruct a0 as [items|e]; [|files_step].
      destruct (length items =? 0)%nat; [repeat files_step|].
      files_step; [files_step|].
      destruct (buildEndpointSubsetsFromPods _ _); files_step.
    + destruct a as [modifiedEndpoints|e]; [|files_step].
      files_step; [apply keepsFiles_request|]. destruct a; repeat files_step.
Qed.

(** Restoring from a backup file that decodes. *)
Lemma RestoreEndpoints_decoded (action : ChaosAction) (path data : string)
    (eps : Endpoints) (w : World C) :
  (default ∅ (Metadata action) !! "backupPath" = Some path ∨
   default ∅ (Metadata action) !! "backupPath" = None ∧
   ∃ h, home (fs w) = Some h ∧
        path = backupPath h (TargetPod action) (Namespace action)) →
  files (fs w) !! path = Some data → UnmarshalEndpoints data = Ok eps →
  let r := RestoreEndpoints action false w in
  calls (snd r) = calls w ++ [CallEndpointsUpdate (Namespace action) eps] ∧
  client (snd r) = snd (EndpointsUpdate (Namespace action) eps (client w)) ∧
  match fst (EndpointsUpdate (Namespace action) eps (client w)) with
  | Some e => fst r = Some (ErrWrap "failed to restore endpoints" e) ∧ fs (snd r) = fs w
  | None =>
      fst r = None ∧
      fs (snd r) = (if readonly (fs w) then fs w
                    else mkFS (delete path (files (fs w))) (home (fs w)) (readonly (fs w)))
  end.
Proof.
  intros Hpath Hfile Hd. cbn zeta. rewrite (RestoreEndpoints_at action path w Hpath).
  unfold bind, ReadFile, Endpoints_Update, request, Remove, utils_Warn, utils_Info,
    logline, ret.
  change (fs (set_log ?l w)) with (fs w).
  change (client (set_log ?l w)) with (client w).
  change (calls (set_log ?l w)) with (calls w).
  rewrite Hfile, Hd.
  change (client (set_log ?l w)) with (client w).
  change (calls (set_log ?l w)) with (calls w).
  destruct (EndpointsUpdate (Namespace action) eps (client w)) as [[e|] c1];
    cbn [fst snd]; [done|].
  change (fs (set_client ?c (set_calls ?l (set_log ?l' w)))) with (fs w).
  rewrite Hfile. destruct (readonly (fs w)) eqn:Hro; cbn; done.
Qed.

(** X14.  A misrouting can be undone from its own backup.  On a writable
    file system with a home directory, whatever [MisrouteService] did
    outside dry run after fetching the endpoints (removed them all,
    replaced them, left them, or failed to list the replacement pods),
    restoring the endpoints of that service afterwards sends one update
    that carries the endpoints exactly as they were fetched.  If that
    update succeeds the backup is deleted and no other file has changed
    since before the misrouting; if it fails the backup stays. *)
Theorem misroute_then_restore (svcName ns sel : string) (removeAll : bool)
    (service : Service) (endpoints : Endpoints) (c1 c2 : C) (h : string)
    (action : ChaosAction) (w : World C) :
  ServicesGet ns svcName (client w) = (Ok service, c1) →
  EndpointsGet ns svcName c1 = (Ok endpoints, c2) →
  home (fs w) = Some h → readonly (fs w) = false →
  TargetPod action = svcName → Namespace action = ns →
  default ∅ (Metadata action) !! "backupPath" = None →
  let w1 := snd (MisrouteService svcName ns sel removeAll false w) in
  let r := RestoreEndpoints action false w1 in
  calls (snd r) = calls w1 ++ [CallEndpointsUpdate ns endpoints] ∧
  client (snd r) = snd (EndpointsUpdate ns endpoints (client w1)) ∧
  match fst (EndpointsUpdate ns endpoints (client w1)) with
  | Some e =>
      fst r = Some (ErrWrap "failed to restore endpoints" e) ∧
      files (fs (snd r)) !! backupPath h svcName ns = Some (MarshalEndpoints endpoints)
  | None =>
      fst r = None ∧
      files (fs (snd r)) = delete (backupPath h svcName ns) (files (fs w))
  end.
Proof.
  intros Hsvc Hep Hh Hro Hpod Hns Hmd w1 r.
  pose proof (MisrouteService_fs svcName ns sel removeAll service endpoints c1 c2 h w
                Hsvc Hep Hh Hro) as Hfs. fold w1 in Hfs.
  destruct (RestoreEndpoints_decoded action (backupPath h svcName ns)
              (MarshalEndpoints endpoints) endpoints w1) as (Hc & Hcl & Hr).
  { right. split; [done|]. exists h. rewrite Hfs, Hpod, Hns. done. }
  { rewrite Hfs. cbn [files]. apply lookup_insert_eq. }
  { apply UnmarshalEndpoints_MarshalEndpoints. }
  rewrite Hns in *. fold r in Hc, Hcl, Hr. split_and!; [exact Hc|exact Hcl|].
  destruct (EndpointsUpdate ns endpoints (client w1)) as [[e|] c3]; cbn [fst] in *.
  - destruct Hr as [Hr Hf]. split; [exact Hr|].
    rewrite Hf, Hfs. cbn [files]. apply lookup_insert_eq.
  - destruct Hr as [Hr Hf]. split; [exact Hr|].
    rewrite Hf, Hfs. cbn [readonly files]. apply delete_insert_eq.
Qed.

End BackupFacts.

(** Emptying the web service and rolling that back: the endpoints are
    sent back as they were and the backup is gone. *)
Lemma misroute_then_restore_witness :
  let w := exampleWorld webCluster emptyFS in
  let w1 := snd (MisrouteService "web" "default" "" true false w) in
  let r := RestoreEndpoints misrouted false w1 in
  (ServicesGet "default" "web" (client w) = (Ok webService, webCluster) ∧
   EndpointsGet "default" "web" webCluster = (Ok webEndpoints, webCluster) ∧
   home (fs w) = Some "/home/u" ∧ readonly (fs w) = false ∧
   TargetPod misrouted = "web" ∧ Namespace misrouted = "default" ∧
   default ∅ (Metadata misrouted) !! "backupPath" = None) ∧
  fst r = None ∧
  calls (snd r) = calls w1 ++ [CallEndpointsUpdate "default" webEndpoints] ∧
  files (fs (snd r)) = delete "/home/u/.tipsy/rollback/web_default.json" (files (fs w)).
Proof.
  intros w w1 r.
  assert (ServicesGet "default" "web" (client w) = (Ok webService, webCluster)) as Hs
    by reflexivity.
  assert (EndpointsGet "default" "web" webCluster = (Ok webEndpoints, webCluster)) as He
    by reflexivity.
  split; [by split_and!|].
  destruct (misroute_then_restore "web" "default" "" true webService webEndpoints
              webCluster webCluster "/home/u" misrouted w Hs He eq_refl eq_refl
              eq_refl eq_refl eq_refl) as (Hc & _ & Hr).
  fold w1 in Hc, Hr. fold r in Hc, Hr.
  assert (fst (EndpointsUpdate "default" webEndpoints (client w1)) = None) as Hu
    by (vm_compute; reflexivity).
  rewrite Hu in Hr. destruct Hr as [Hr Hf]. split_and!; [exact Hr|exact Hc|exact Hf].
Defined.
(** * More on the injectors and the kill executor *)

Section InjectMore.
Context {C : Type} `{Interface C}.

Ltac quiet_step :=
  first [ apply quiet_ret
        | apply quiet_logline
        | apply quiet_bind; [|intros ?] ].

Lemma quiet_for_each {A} (xs : list A) (body : A → M C unit) :
  (∀ x, quiet (body x)) → quiet (for_each xs body).
Proof.
  intros Hbody. induction xs as [|x xs IH]; cbn [for_each]; [apply quiet_ret|].
  apply quiet_bind; [apply Hbody|intros _; apply IH].
Qed.

Lemma quiet_injectInto (what : string) (toPod : string → M C (option error)) (pod : Pod) :
  (∀ name, quiet (toPod name)) → quiet (injectInto what toPod pod).
Proof.
  intros Hto. unfold injectInto. destruct (negb _); [apply quiet_logline|].
  apply quiet_bind; [apply Hto|]. intros [e|]; quiet_step.
Qed.

Lemma quiet_injectLatencyToPod_dry ns name delay duration :
  quiet (injectLatencyToPod (C := C) ns name delay duration true).
Proof. unfold injectLatencyToPod. repeat quiet_step. Qed.

Lemma quiet_injectPacketLossToPod_dry ns name loss duration :
  quiet (injectPacketLossToPod (C := C) ns name loss duration true).
Proof. unfold injectPacketLossToPod. repeat quiet_step. Qed.

Lemma quiet_injectCPUStressToPod_dry ns name method duration :
  quiet (injectCPUStressToPod (C := C) ns name method duration true).
Proof.
  unfold injectCPUStressToPod. quiet_step; [quiet_step|].
  destruct (cpuStressMethod method duration) as [[image command]|]; repeat quiet_step.
Qed.

(** An injector whose per-pod step only prints sends the listing and
    nothing else. *)
Lemma injectAll_quiet what ns sel (toPod : string → M C (option error)) (w : World C) :
  (∀ name, quiet (toPod name)) →
  let r := injectAll what ns sel toPod w in
  fst r = match fst (PodsList ns sel (client w)) with
          | Ok _ => None
          | Err e => Some (ErrWrap "failed to list pods" e)
          end ∧
  calls (snd r) = calls w ++ [CallPodsList ns sel] ∧
  client (snd r) = snd (PodsList ns sel (client w)) ∧
  fs (snd r) = fs w.
Proof.
  intros Hto. cbn zeta.
  destruct (injectAll what ns sel toPod w) as [res w'] eqn:E. cbn [fst snd].
  unfold injectAll in E. unfold bind at 1, utils_Info at 1, logline at 1 in E.
  unfold bind at 1, Pods_List, request in E.
  change (client (set_log ?l w)) with (client w) in E.
  destruct (PodsList ns sel (client w)) as [[items|e] c1]; cbn [fst snd].
  2: { unfold ret in E. injection E as <- <-.       cbn [calls client fs set_client set_calls set_log]. split_and!; reflexivity. }
  match type of E with ?m ?w0 = _ => assert (quiet m) as Hq end.
  { destruct (length items =? 0)%nat; [repeat quiet_step|].
    quiet_step; [quiet_step|]. quiet_step; [|quiet_step].
    apply quiet_for_each. intros pod. by apply quiet_injectInto. }
  match type of E with ?m ?w0 = _ => assert (fst (m w0) = None) as Hf end.
  { clear E. destruct (length items =? 0)%nat.
    + unfold bind. by destruct (utils_Warn _ _).
    + unfold bind. destruct (utils_Info _ _) as [u w1].
      by destruct (for_each _ _ _). }
  match type of E with ?m ?w0 = _ => destruct (Hq w0) as [lines Hw] end.
  rewrite E in Hw, Hf.  cbn [fst snd] in Hf, Hw. subst res w'.  cbn [calls client fs set_client set_calls set_log]. split_and!; reflexivity.
Qed.

(** X15.  A dry run of an injector (latency, packet loss, CPU stress)
    sends the listing of the pods and no other request, and touches no
    file.  It returns success, or the listing's error wrapped as
    "failed to list pods". *)
Theorem injectors_dry_run (ns sel value method : string) (duration : Duration)
    (w : World C) :
  let outcome (r : option error * World C) :=
    fst r = match fst (PodsList ns sel (client w)) with
            | Ok _ => None
            | Err e => Some (ErrWrap "failed to list pods" e)
            end ∧
    calls (snd r) = calls w ++ [CallPodsList ns sel] ∧
    client (snd r) = snd (PodsList ns sel (client w)) ∧
    fs (snd r) = fs w in
  outcome (InjectLatency ns sel value duration true w) ∧
  outcome (InjectPacketLoss ns sel value duration true w) ∧
  outcome (InjectCPUStress ns sel method duration true w).
Proof.
  cbv zeta beta. unfold InjectLatency, InjectPacketLoss, InjectCPUStress.
  split; [|split].
  - exact (injectAll_quiet "latency" ns sel _ w
             (fun name => quiet_injectLatencyToPod_dry ns name value duration)).
  - exact (injectAll_quiet "packet loss" ns sel _ w
             (fun name => quiet_injectPacketLossToPod_dry ns name value duration)).
  - exact (injectAll_quiet "CPU stress" ns sel _ w
             (fun name => quiet_injectCPUStressToPod_dry ns name method duration)).
Qed.

(** When the pods cannot be listed. *)
Lemma injectAll_list_error what ns sel (toPod : string → M C (option error))
    (e : error) (c1 : C) (w : World C) :
  PodsList ns sel (client w) = (Err e, c1) →
  ∃ w', injectAll what ns sel toPod w = (Some (ErrWrap "failed to list pods" e), w') ∧
        calls w' = calls w ++ [CallPodsList ns sel] ∧ client w' = c1 ∧
        fs w' = fs w ∧ ticks w' = ticks w ∧ draws w' = draws w.
Proof.
  intros Hlist. unfold injectAll.
  unfold bind at 1, utils_Info at 1, logline at 1.
  unfold bind at 1, Pods_List, request.
  change (client (set_log ?l w)) with (client w). rewrite Hlist.
  unfold ret. eexists. split; [reflexivity|]. by cbn.
Qed.

Lemma KillPods_list_error (fuel : nat) ns sel (count : Z) (dryRun : bool)
    (e : error) (c1 : C) (w : World C) :
  PodsList ns sel (client w) = (Err e, c1) →
  ∃ w', KillPods fuel ns sel count dryRun w
        = (Some (Some (ErrWrap "failed to list pods" e)), w') ∧
        calls w' = calls w ++ [CallPodsList ns sel] ∧ client w' = c1 ∧
        fs w' = fs w ∧ ticks w' = ticks w ∧ draws w' = draws w.
Proof.
  intros Hlist. unfold KillPods.
  unfold bind at 1, utils_Info at 1, logline at 1.
  unfold bind at 1, Pods_List, request.
  change (client (set_log ?l w)) with (client w). rewrite Hlist.
  unfold ret. eexists. split; [reflexivity|]. by cbn.
Qed.


(** A line printed by one round of a printing loop is still there at
    the end. *)
Lemma for_each_line {A} (xs : list A) (body : A → M C unit) (x : A)
    (line : Level * string) (w : World C) :
  (∀ y, quiet (body y)) → x ∈ xs →
  (∀ w0 : World C, line ∈ log (snd (body x w0))) →
  line ∈ log (snd (for_each xs body w)).
Proof.
  intros Hq Hx Hline. revert w.
  induction xs as [|y xs IH]; intros w; [by apply elem_of_nil in Hx|].
  cbn [for_each]. unfold bind.
  apply elem_of_cons in Hx as [<-|Hx].
  - specialize (Hline w). destruct (body x w) as [[] w1]. cbn [snd] in Hline.
    destruct (quiet_for_each xs body Hq w1) as [lines ->].
    cbn [log set_log]. apply elem_of_app. by left.
  - destruct (body y w) as [[] w1]. by apply IH.
Qed.

Lemma cpuStressMethod_unsupported (method : string) (duration : Duration) :
  method ≠ "stress-ng" → method ≠ "yes" → cpuStressMethod method duration = None.
Proof.
  intros H1 H2. unfold cpuStressMethod.
  apply String.eqb_neq in H1, H2. by rewrite H1, H2.
Qed.

Lemma quiet_injectCPUStressToPod_unsupported ns name method duration dryRun :
  cpuStressMethod method duration = None →
  quiet (injectCPUStressToPod (C := C) ns name method duration dryRun).
Proof.
  intros Hm. unfold injectCPUStressToPod. rewrite Hm. repeat quiet_step.
Qed.

(** X17.  With a method other than "stress-ng" and "yes", the CPU
    stress injector still reports success, in dry run or not: it lists
    the pods, sends no patch, and prints for every running pod an error
    line that names the unsupported method. *)
Theorem InjectCPUStress_unsupported (ns sel method : string) (duration : Duration)
    (dryRun : bool) (items : list Pod) (c1 : C) (w : World C) :
  method ≠ "stress-ng" → method ≠ "yes" →
  PodsList ns sel (client w) = (Ok items, c1) →
  let r := InjectCPUStress ns sel method duration dryRun w in
  fst r = None ∧
  calls (snd r) = calls w ++ [CallPodsList ns sel] ∧
  client (snd r) = c1 ∧
  ∀ pod, pod ∈ items → pod_Phase pod = PodRunning →
    (ERROR, "Failed to inject CPU stress to pod '" +:+ pod_Name pod +:+
            "': unsupported method: " +:+ method) ∈ log (snd r).
Proof.
  intros H1 H2 Hlist. cbv zeta.
  pose proof (cpuStressMethod_unsupported method duration H1 H2) as Hm.
  pose proof (fun name => quiet_injectCPUStressToPod_unsupported ns name method duration
                            dryRun Hm) as Hq.
  unfold InjectCPUStress.
  destruct (injectAll_quiet "CPU stress" ns sel _ w Hq) as (Hr & Hc & Hcl & _).
  rewrite Hlist in Hr, Hcl. cbn [fst snd] in Hr, Hcl.
  split; [exact Hr|]. split; [exact Hc|]. split; [exact Hcl|].
  intros pod Hpod Hrun. clear Hr Hc Hcl.
  unfold injectAll. unfold bind at 1, utils_Info at 1, logline at 1.
  unfold bind at 1, Pods_List, request.
  change (client (set_log ?l w)) with (client w). rewrite Hlist.
  destruct (Nat.eqb_spec (length items) 0) as [Hz|_].
  { destruct items; [by apply elem_of_nil in Hpod|discriminate]. }
  unfold bind at 1, utils_Info at 1, logline at 1. unfold bind at 1.
  match goal with |- context [for_each items ?body ?w0] =>
    pose proof (for_each_line items body pod
                  (ERROR, "Failed to inject CPU stress to pod '" +:+ pod_Name pod +:+
                          "': unsupported method: " +:+ method) w0) as Hline;
    destruct (for_each items body w0) as [[] w2]
  end.
  unfold ret. cbn [snd] in *. apply Hline; [|exact Hpod|].
  - intros y. apply quiet_injectInto, Hq.
  - intros w0. unfold injectInto. rewrite Hrun.
    change (negb (String.eqb PodRunning PodRunning)) with false. cbv iota.
    unfold bind at 1. unfold injectCPUStressToPod.
    unfold bind at 1, utils_Info at 1, logline at 1. rewrite Hm.
    unfold ret, utils_Error, logline. cbn [snd log set_log Error].
    apply elem_of_app. right. apply list_elem_of_singleton. reflexivity.
Qed.

End InjectMore.


(** Among three pods, one pending, the two running ones get the error
    line and no patch is sent. *)
Lemma InjectCPUStress_unsupported_witness :
  let w := exampleWorld threePods emptyFS in
  let r := InjectCPUStress "default" "app=x" "burn" thirtySeconds false w in
  ("burn" ≠ "stress-ng" ∧ "burn" ≠ "yes" ∧
   PodsList "default" "app=x" (client w) = (Ok (fake_pods threePods), threePods)) ∧
  fst r = None ∧
  calls (snd r) = [CallPodsList "default" "app=x"] ∧
  (ERROR, "Failed to inject CPU stress to pod 'a': unsupported method: burn") ∈ log (snd r).
Proof.
  intros w r.
  assert ("burn" ≠ "stress-ng") as H1 by discriminate.
  assert ("burn" ≠ "yes") as H2 by discriminate.
  assert (PodsList "default" "app=x" (client w) = (Ok (fake_pods threePods), threePods))
    as Hlist by reflexivity.
  split; [by split_and!|].
  destruct (InjectCPUStress_unsupported "default" "app=x" "burn" thirtySeconds false
              (fake_pods threePods) threePods w H1 H2 Hlist) as (Hr & Hc & _ & Hlog).
  split_and!; [exact Hr|exact Hc|].
  apply (Hlog (simplePod "default" "a" "Running" "10.0.0.1")); [|reflexivity].
  apply list_elem_of_here.
Defined.
